(** * soundvis: frequency-band extraction, audio graph handling and the
      audio-reactive animation mappings

    A shallow embedding of [utils/audioUtils.ts] (class [AudioProcessor]) and
    of [components/SoundVisualizer.tsx] ([CloudParticles],
    [EnergyDisturbance], [SoundVisualizer]).

    Conventions of the embedding.
    - A [Uint8Array] is a [list Z] whose entries satisfy [0 <= b <= 255]
      (predicate [bytes]).
    - A JavaScript [number] that is only ever an index or a byte is a [Z];
      every other [number] is a real ([R]).  [Math.log], [Math.exp],
      [Math.sqrt], [Math.sin], [Math.cos] are the real functions; the rounding
      of IEEE doubles and of [Float32Array] stores is not modelled.
    - [Math.random()] is an explicit argument (one draw per point).
    - The Web Audio platform is a small "fake audio graph": node identifiers,
      a list of connections, the started oscillators, the live microphone
      tracks and the media elements bound to a source node. *)

From Stdlib Require Import List ZArith Bool Lia.
From Stdlib Require Import Reals Lra.
Import ListNotations.

(* ------------------------------------------------------------------ *)
(** ** JavaScript helpers *)

Module Js.

Local Open Scope Z_scope.

(** Relative index of [Array.prototype.slice] / [TypedArray.prototype.slice]:
    a negative index counts from the end, everything is clamped to
    [0 .. len]. *)
Definition relIndex (len i : Z) : Z :=
  if i <? 0 then Z.max (len + i) 0 else Z.min i len.

(** [a.slice(b, e)] *)
Definition slice {A : Type} (a : list A) (b e : Z) : list A :=
  let len := Z.of_nat (length a) in
  let k := relIndex len b in
  let final := relIndex len e in
  firstn (Z.to_nat (final - k)) (skipn (Z.to_nat k) a).

(** [a.slice(b)] *)
Definition sliceFrom {A : Type} (a : list A) (b : Z) : list A :=
  slice a b (Z.of_nat (length a)).

(** [a.reduce((acc, val) => acc + val, 0)] on an integer array *)
Definition sum (a : list Z) : Z := fold_left Z.add a 0.

(** [Math.max(x, ...rest)] on a non-empty integer array *)
Fixpoint maxFrom (x : Z) (rest : list Z) : Z :=
  match rest with
  | [] => x
  | y :: rest' => maxFrom (Z.max x y) rest'
  end.

(** [Math.round(x)]: the nearest integer, halves rounded up. *)
Definition round (x : R) : Z := Zfloor (x + / 2)%R.

(** [Math.floor(x)] *)
Definition floor (x : R) : Z := Zfloor x.

(** [Array(n).fill(0)] *)
Definition zeros (n : nat) : list Z := repeat 0 n.

End Js.

(** A [Uint8Array] holds bytes. *)
Definition byte (b : Z) : Prop := (0 <= b <= 255)%Z.
Definition bytes (a : list Z) : Prop := Forall byte a.
Definition byteb (b : Z) : bool := ((0 <=? b) && (b <=? 255))%Z.
Definition bytesb (a : list Z) : bool := forallb byteb a.

(* ------------------------------------------------------------------ *)
(** ** audioUtils.ts: the analysis functions of [AudioProcessor] *)

Module Analysis.

Local Open Scope Z_scope.

(** [analyser.fftSize = 2048]; [frequencyBinCount] is half of it. *)
Definition fftSize : nat := 2048.
Definition frequencyBinCount : nat := 1024.

Definition startBin : Z := 1.
Definition totalBands : nat := 8.

(** [const endBin = Math.min(800, this.dataArray.length)] *)
Definition endBin (dataArray : list Z) : Z :=
  Z.min 800 (Z.of_nat (length dataArray)).

(** The local function [logSpace(start, end, n)] of [getFrequencyBands]:
    [n] rounded, logarithmically spaced points from [start] to [end]. *)
Definition logSpace (start end_ : R) (n : nat) : list Z :=
  let logStart := ln start in
  let logEnd := ln end_ in
  let delta := ((logEnd - logStart) / (INR n - 1))%R in
  map (fun i : nat => Js.round (exp (logStart + delta * INR i))) (seq 0 n).

(** [bandBoundaries] as [getFrequencyBands] computes them. *)
Definition bandBoundaries (dataArray : list Z) : list Z :=
  logSpace (IZR startBin) (IZR (endBin dataArray)) (totalBands + 1).

(** The peak of one band: [0] for an empty slice, else [Math.max(...bandData)]. *)
Definition bandPeak (bandData : list Z) : Z :=
  match bandData with
  | [] => 0
  | x :: rest => Js.maxFrom x rest
  end.

(** One iteration of the loop over the bands. *)
Definition bandValue (boundaries usefulRange : list Z) (i : nat) : Z :=
  let startIndex := nth i boundaries 0 in
  let endIndex := nth (S i) boundaries 0 in
  let bandData := Js.slice usefulRange (startIndex - startBin) (endIndex - startBin) in
  bandPeak bandData.

(** The body of [getFrequencyBands] once [dataArray] holds fresh data. *)
Definition frequencyBands (dataArray : list Z) : list Z :=
  let sum := Js.sum dataArray in
  let hasSignal := 0 <? sum in
  let usefulRange := Js.slice dataArray startBin (endBin dataArray) in
  if hasSignal then
    map (bandValue (bandBoundaries dataArray) usefulRange) (seq 0 totalBands)
  else Js.zeros totalBands.

(** The body of [getRawVolume] once [timeDomainData] is filled: the loop
    accumulating [sumOfSquares], then the root of the mean. *)
Definition amplitude (b : Z) : R := (IZR b / 128 - 1)%R.

Definition sumOfSquares (timeDomainData : list Z) : R :=
  fold_left (fun acc b => (acc + amplitude b * amplitude b)%R) timeDomainData 0%R.

Definition rawVolume (timeDomainData : list Z) : R :=
  sqrt (sumOfSquares timeDomainData / INR (length timeDomainData)).

End Analysis.

(* ------------------------------------------------------------------ *)
(** ** The platform: a fake audio graph

    Only what [AudioProcessor] does to the Web Audio objects is kept: nodes
    are identifiers handed out by a counter, [connect] and [disconnect] edit a
    list of connections, oscillators are started and stopped, media stream
    tracks are live until stopped.  The constructors of the platform are
    taken to succeed, except where the source handles a failure that the
    environment decides: [getUserMedia] (permission) and
    [createMediaElementSource] (an element can be bound to one source node
    only). *)

Module WebAudio.

(** The target of a connection: the input of a node, or the [gain]
    parameter of a gain node ([lfoGain.connect(masterGain.gain)]). *)
Inductive input : Type :=
| NodeInput (n : nat)
| GainParam (n : nat).

Definition input_eqb (a b : input) : bool :=
  match a, b with
  | NodeInput n, NodeInput m => Nat.eqb n m
  | GainParam n, GainParam m => Nat.eqb n m
  | _, _ => false
  end.

Definition connection : Type := (nat * input)%type.

Definition connection_eqb (c d : connection) : bool :=
  Nat.eqb (fst c) (fst d) && input_eqb (snd c) (snd d).

Record Graph : Type := {
  nextId : nat;                    (* the next fresh identifier *)
  connections : list connection;   (* output of a node -> an input *)
  started : list nat;              (* oscillators started and not stopped *)
  liveTracks : list nat;           (* microphone tracks not stopped *)
  boundElements : list nat         (* media elements bound to a source node *)
}.

Definition empty : Graph :=
  {| nextId := 0; connections := []; started := []; liveTracks := [];
     boundElements := [] |}.

(** Platform calls thread the graph: a state monad. *)
Definition M (A : Type) : Type := Graph -> A * Graph.

Definition ret {A : Type} (a : A) : M A := fun g => (a, g).

Definition bind {A B : Type} (m : M A) (k : A -> M B) : M B :=
  fun g => let (a, g') := m g in k a g'.

Notation "x <- m ;; k" := (bind m (fun x => k))
  (at level 100, m at next level, right associativity).
Notation "m ;;; k" := (bind m (fun _ => k))
  (at level 100, right associativity).

(** [createAnalyser], [createGain], [createOscillator],
    [createMediaStreamSource], [new AudioContext] (its destination): a node
    with a fresh identifier. *)
Definition createNode : M nat :=
  fun g => (nextId g,
            {| nextId := S (nextId g); connections := connections g;
               started := started g; liveTracks := liveTracks g;
               boundElements := boundElements g |}).

(** [out.connect(inp)]; connecting twice is the same as connecting once. *)
Definition connect (out : nat) (inp : input) : M unit :=
  fun g => (tt,
            {| nextId := nextId g;
               connections :=
                 if existsb (connection_eqb (out, inp)) (connections g)
                 then connections g
                 else connections g ++ [(out, inp)];
               started := started g; liveTracks := liveTracks g;
               boundElements := boundElements g |}).

(** [node.disconnect()]: every outgoing connection of the node goes. *)
Definition disconnect (node : nat) : M unit :=
  fun g => (tt,
            {| nextId := nextId g;
               connections :=
                 filter (fun c => negb (Nat.eqb (fst c) node)) (connections g);
               started := started g; liveTracks := liveTracks g;
               boundElements := boundElements g |}).

(** [osc.start()], [osc.stop()] *)
Definition start (osc : nat) : M unit :=
  fun g => (tt,
            {| nextId := nextId g; connections := connections g;
               started := started g ++ [osc]; liveTracks := liveTracks g;
               boundElements := boundElements g |}).

Definition stop (osc : nat) : M unit :=
  fun g => (tt,
            {| nextId := nextId g; connections := connections g;
               started := filter (fun o => negb (Nat.eqb o osc)) (started g);
               liveTracks := liveTracks g;
               boundElements := boundElements g |}).

(** A granted [getUserMedia]: a stream of [n] fresh live tracks. *)
Fixpoint newTracks (n : nat) : M (list nat) :=
  match n with
  | O => ret []
  | S n' =>
      t <- (fun g => (nextId g,
                      {| nextId := S (nextId g); connections := connections g;
                         started := started g;
                         liveTracks := liveTracks g ++ [nextId g];
                         boundElements := boundElements g |})) ;;
      ts <- newTracks n' ;;
      ret (t :: ts)
  end.

(** [track.stop()] *)
Definition stopTrack (t : nat) : M unit :=
  fun g => (tt,
            {| nextId := nextId g; connections := connections g;
               started := started g;
               liveTracks := filter (fun u => negb (Nat.eqb u t)) (liveTracks g);
               boundElements := boundElements g |}).

(** [stream.getTracks().forEach(track => track.stop())] *)
Fixpoint stopTracks (ts : list nat) : M unit :=
  match ts with
  | [] => ret tt
  | t :: ts' => stopTrack t ;;; stopTracks ts'
  end.

(** [createMediaElementSource(element)]: throws ([None]) when the element is
    already bound to a source node. *)
Definition createMediaElementSource (element : nat) : M (option nat) :=
  fun g =>
    if existsb (Nat.eqb element) (boundElements g) then (None, g)
    else (Some (nextId g),
          {| nextId := S (nextId g); connections := connections g;
             started := started g; liveTracks := liveTracks g;
             boundElements := boundElements g ++ [element] |}).

(** [analyser.getByteFrequencyData(array)] copies the current spectrum into
    the array, as far as either reaches. *)
Definition getByteFrequencyData (spectrum array : list Z) : list Z :=
  firstn (length array) spectrum ++ skipn (length spectrum) array.

(** The connections that end at the input of [node]. *)
Definition inputsOf (node : nat) (g : Graph) : list connection :=
  filter (fun c => input_eqb (snd c) (NodeInput node)) (connections g).

End WebAudio.

(* ------------------------------------------------------------------ *)
(** ** audioUtils.ts: class [AudioProcessor] *)

Module AudioProcessor.

Import WebAudio.

(** The private fields.  An [AudioContext] is known by its destination node;
    a [MediaStream] by its tracks; an [HTMLAudioElement] by an identifier. *)
Record Fields : Type := {
  audioContext : option nat;
  analyser : option nat;
  dataArray : option (list Z);
  microphoneStream : option (list nat);
  oscillator : option nat;
  sourceNode : option nat;
  mediaElementSource : option nat;
  connectedAudioElement : option nat
}.

(** An [AudioProcessor] together with the platform it lives on. *)
Record World : Type := { this : Fields; graph : Graph }.

(** [new AudioProcessor()] *)
Definition constructed : Fields :=
  {| audioContext := None; analyser := None; dataArray := None;
     microphoneStream := None; oscillator := None; sourceNode := None;
     mediaElementSource := None; connectedAudioElement := None |}.

Definition initial : World := {| this := constructed; graph := WebAudio.empty |}.

(** [initAudioContext]: the context is created once (it is never closed), a
    new analyser and a new zeroed data array are created on every call.
    Resuming a suspended context does not touch the graph.  This is the
    method on a platform that grants the context; the [catch] that returns
    false when [new AudioContext()] throws is in [Awaits.initAudioContextOn]. *)
Definition initAudioContext (w : World) : bool * World :=
  let f := this w in
  let (ctx, g1) :=
    match audioContext f with
    | Some c => (c, graph w)
    | None => createNode (graph w)
    end in
  let (an, g2) := createNode g1 in
  (true,
   {| this :=
        {| audioContext := Some ctx; analyser := Some an;
           dataArray := Some (Js.zeros Analysis.frequencyBinCount);
           microphoneStream := microphoneStream f; oscillator := oscillator f;
           sourceNode := sourceNode f;
           mediaElementSource := mediaElementSource f;
           connectedAudioElement := connectedAudioElement f |};
      graph := g2 |}).

(** [requestMicrophoneAccess].  [granted] is what [getUserMedia] does:
    [None] when it rejects, [Some n] for a stream of [n] tracks;
    [spectrum] is what the analyser reports at the verifying read.  The
    diagnostic timers only log and re-read the data array. *)
Definition requestMicrophoneAccess (granted : option nat) (spectrum : list Z)
    (w : World) : bool * World :=
  let (ok, w1) := initAudioContext w in
  if negb ok then (false, w1) else
  match granted with
  | None => (false, w1)
  | Some n =>
      let f := this w1 in
      let (stream, g1) := newTracks n (graph w1) in
      match audioContext f, analyser f with
      | Some _, Some an =>
          let (_, g2) :=
            match sourceNode f with
            | Some old => disconnect old g1
            | None => (tt, g1)
            end in
          let (src, g3) := createNode g2 in
          let (_, g4) := connect src (NodeInput an) g3 in
          (true,
           {| this :=
                {| audioContext := audioContext f; analyser := analyser f;
                   dataArray :=
                     option_map (getByteFrequencyData spectrum) (dataArray f);
                   microphoneStream := Some stream; oscillator := oscillator f;
                   sourceNode := Some src;
                   mediaElementSource := mediaElementSource f;
                   connectedAudioElement := connectedAudioElement f |};
              graph := g4 |})
      | _, _ =>
          (false,
           {| this :=
                {| audioContext := audioContext f; analyser := analyser f;
                   dataArray := dataArray f;
                   microphoneStream := Some stream; oscillator := oscillator f;
                   sourceNode := sourceNode f;
                   mediaElementSource := mediaElementSource f;
                   connectedAudioElement := connectedAudioElement f |};
              graph := g1 |})
      end
  end.

(** One oscillator of the bank: [createOscillator], [createGain],
    [osc.connect(gain)], [gain.connect(masterGain)], [osc.start()]. *)
Definition bankOscillator (masterGain : nat) : M nat :=
  osc <- createNode ;;
  gain <- createNode ;;
  connect osc (NodeInput gain) ;;;
  connect gain (NodeInput masterGain) ;;;
  start osc ;;;
  ret osc.

(** The loop over [frequencies]: the oscillators in the order they are
    pushed. *)
Fixpoint oscillatorBank (masterGain : nat) (frequencies : nat) : M (list nat) :=
  match frequencies with
  | O => ret []
  | S k =>
      osc <- bankOscillator masterGain ;;
      rest <- oscillatorBank masterGain k ;;
      ret (osc :: rest)
  end.

(** The graph built by [createTestTone]: master gain into the analyser, the
    LFO into the master gain's [gain], then the four oscillators. *)
Definition buildTestTone (an : nat) : M (list nat) :=
  masterGain <- createNode ;;
  connect masterGain (NodeInput an) ;;;
  lfo <- createNode ;;
  lfoGain <- createNode ;;
  connect lfo (NodeInput lfoGain) ;;;
  connect lfoGain (GainParam masterGain) ;;;
  start lfo ;;;
  oscillatorBank masterGain 4.

(** [createTestTone] *)
Definition createTestTone (w : World) : bool * World :=
  let (ok, w1) := initAudioContext w in
  if negb ok then (false, w1) else
  let f := this w1 in
  match audioContext f, analyser f with
  | Some _, Some an =>
      let (_, g1) :=
        match oscillator f with
        | Some old => (stop old ;;; disconnect old) (graph w1)
        | None => (tt, graph w1)
        end in
      let (oscillators, g2) := buildTestTone an g1 in
      (true,
       {| this :=
            {| audioContext := audioContext f; analyser := analyser f;
               dataArray := dataArray f;
               microphoneStream := microphoneStream f;
               oscillator := nth_error oscillators 0;
               sourceNode := sourceNode f;
               mediaElementSource := mediaElementSource f;
               connectedAudioElement := connectedAudioElement f |};
          graph := g2 |})
  | _, _ => (false, w1)
  end.

(** [connectAudioElement(audioElement)] *)
Definition connectAudioElement (audioElement : nat) (w : World) : bool * World :=
  let (ok, w1) := initAudioContext w in
  if negb ok then (false, w1) else
  let f := this w1 in
  match audioContext f, analyser f with
  | Some destination, Some an =>
      let same :=
        match connectedAudioElement f with
        | Some e => Nat.eqb e audioElement
        | None => false
        end in
      match same, mediaElementSource f with
      | true, Some src =>
          let (_, g1) :=
            (connect src (NodeInput an) ;;;
             connect an (NodeInput destination)) (graph w1) in
          (true, {| this := f; graph := g1 |})
      | _, _ =>
          match createMediaElementSource audioElement (graph w1) with
          | (None, g1) => (false, {| this := f; graph := g1 |})
          | (Some src, g1) =>
              let (_, g2) :=
                (connect src (NodeInput an) ;;;
                 connect an (NodeInput destination)) g1 in
              (true,
               {| this :=
                    {| audioContext := audioContext f; analyser := analyser f;
                       dataArray := dataArray f;
                       microphoneStream := microphoneStream f;
                       oscillator := oscillator f;
                       sourceNode := sourceNode f;
                       mediaElementSource := Some src;
                       connectedAudioElement := Some audioElement |};
                  graph := g2 |})
          end
      end
  | _, _ => (false, w1)
  end.

(** [cleanup]: the five guarded blocks in order, then [dataArray = null].
    [mediaElementSource] and [connectedAudioElement] are kept. *)
Definition cleanup (w : World) : World :=
  let f := this w in
  let (_, g1) :=
    match microphoneStream f with
    | Some tracks => stopTracks tracks (graph w)
    | None => (tt, graph w)
    end in
  let (_, g2) :=
    match oscillator f with
    | Some osc => (stop osc ;;; disconnect osc) g1
    | None => (tt, g1)
    end in
  let (_, g3) :=
    match sourceNode f with
    | Some src => disconnect src g2
    | None => (tt, g2)
    end in
  let (_, g4) :=
    match mediaElementSource f with
    | Some src => disconnect src g3
    | None => (tt, g3)
    end in
  let (_, g5) :=
    match analyser f with
    | Some an => disconnect an g4
    | None => (tt, g4)
    end in
  {| this :=
       {| audioContext := audioContext f; analyser := analyser f;
          dataArray := None;
          microphoneStream := None; oscillator := None; sourceNode := None;
          mediaElementSource := mediaElementSource f;
          connectedAudioElement := connectedAudioElement f |};
     graph := g5 |}.

(** [getFrequencyData]: the data array refreshed from the analyser, or
    [null]. *)
Definition getFrequencyData (spectrum : list Z) (w : World)
    : option (list Z) * World :=
  let f := this w in
  match analyser f, dataArray f with
  | Some _, Some d =>
      let d' := getByteFrequencyData spectrum d in
      (Some d',
       {| this :=
            {| audioContext := audioContext f; analyser := analyser f;
               dataArray := Some d';
               microphoneStream := microphoneStream f;
               oscillator := oscillator f; sourceNode := sourceNode f;
               mediaElementSource := mediaElementSource f;
               connectedAudioElement := connectedAudioElement f |};
          graph := graph w |})
  | _, _ => (None, w)
  end.

(** [getRawVolume]; [samples] is what [getByteTimeDomainData] writes into
    the fresh [Uint8Array(fftSize)]. *)
Definition getRawVolume (samples : list Z) (w : World) : R :=
  match analyser (this w), dataArray (this w) with
  | Some _, Some _ => Analysis.rawVolume samples
  | _, _ => 0%R
  end.

(** [getFrequencyBands] *)
Definition getFrequencyBands (spectrum : list Z) (w : World)
    : list Z * World :=
  let f := this w in
  match dataArray f, analyser f with
  | Some d, Some _ =>
      let d' := getByteFrequencyData spectrum d in
      (Analysis.frequencyBands d',
       {| this :=
            {| audioContext := audioContext f; analyser := analyser f;
               dataArray := Some d';
               microphoneStream := microphoneStream f;
               oscillator := oscillator f; sourceNode := sourceNode f;
               mediaElementSource := mediaElementSource f;
               connectedAudioElement := connectedAudioElement f |};
          graph := graph w |})
  | _, _ => (Js.zeros 8, w)
  end.

End AudioProcessor.

(* ------------------------------------------------------------------ *)
(** ** three.js vectors, as the components use them *)

Module Three.

Local Open Scope R_scope.

Record Vector3 : Type := { x : R; y : R; z : R }.

(** [v.length()] *)
Definition length (v : Vector3) : R := sqrt (x v * x v + y v * y v + z v * z v).

(** [v.multiplyScalar(s)] *)
Definition multiplyScalar (v : Vector3) (s : R) : Vector3 :=
  {| x := x v * s; y := y v * s; z := z v * s |}.

(** [v.normalize()], which is [v.divideScalar(v.length() || 1)]. *)
Definition normalize (v : Vector3) : Vector3 :=
  let l := length v in
  multiplyScalar v (1 / (if Req_dec_T l 0 then 1 else l)).

End Three.

(* ------------------------------------------------------------------ *)
(** ** SoundVisualizer.tsx: [CloudParticles], the [useFrame] callback *)

Module CloudParticles.

Import Three.

Local Open Scope R_scope.

(** One point of the buffer geometry: the three attributes [position],
    [color] and [size] hold one entry per point. *)
Record Particle : Type := { position : Vector3; color : Vector3; size : R }.

Section Frame.

(** The props and the clock of one frame. *)
Variable audioData : list Z.
Variable sensitivity : R.
Variable time : R.

Definition breathingRate : R := 0.15.
Definition breathingEffect : R := sin (time * breathingRate) * 0.05.
Definition baseMovementFactor : R := 0.1 + breathingEffect.

Definition lowFreqIntensity : R :=
  sensitivity * IZR (Js.sum (Js.slice audioData 0 2)) / (2 * 255).
Definition midFreqIntensity : R :=
  sensitivity * IZR (Js.sum (Js.slice audioData 2 5)) / (3 * 255).
Definition highFreqIntensity : R :=
  sensitivity * IZR (Js.sum (Js.sliceFrom audioData 5)) / (3 * 255).

Definition verticalBias : R := (lowFreqIntensity - highFreqIntensity) * 0.3.
Definition radialBias : R := (highFreqIntensity - lowFreqIntensity) * 0.3.

Definition circularMotionSpeed : R := 0.05 + midFreqIntensity * 0.2.
Definition circularMotionDirection : R :=
  if Rlt_dec 0.5 midFreqIntensity then 1 else -1.

(** The band of a point, from its distance to the centre.  The index is in
    range whenever [audioData] is not empty. *)
Definition bandIndex (p : Vector3) : Z :=
  let len := Z.of_nat (List.length audioData) in
  Z.min (Js.floor (Three.length p / 20 * IZR len)) (len - 1).

(** For an empty [audioData] the code reads [audioData[-1]], which is
    [undefined], and every value derived from it is [NaN]; the reals have no
    such value, so the definition stands for band arrays that are not
    empty. *)
Definition audioIntensity (p : Vector3) : R :=
  sensitivity * IZR (nth (Z.to_nat (bandIndex p)) audioData 0%Z) / 255.

Definition noise (i : nat) (p : Vector3) : R :=
  sin (time * 0.2 + INR i * 0.005 + x p * 0.05 + y p * 0.05) * 0.02.

Definition audioFactor (p : Vector3) : R := audioIntensity p ^ 3 * 0.8.

Definition movement (i : nat) (p : Vector3) : R :=
  baseMovementFactor + audioFactor p + noise i p.

(** The movement vector: the normalized position, lifted by the vertical
    bias, then scaled outward or inward by the radial bias. *)
Definition direction (p : Vector3) : Vector3 :=
  let d := normalize p in
  let d := {| x := x d; y := y d + verticalBias; z := z d |} in
  if Rlt_dec 0 radialBias
  then multiplyScalar d (1 + radialBias * 0.2)
  else multiplyScalar d (1 / (1 - radialBias * 0.2)).

(** [positions.array[i3 .. i3 + 2] += direction * movement * 0.05] *)
Definition drifted (i : nat) (p : Vector3) : Vector3 :=
  let d := direction p in
  let m := movement i p in
  {| x := x p + x d * m * 0.05;
     y := y p + y d * m * 0.05;
     z := z p + z d * m * 0.05 |}.

(** The swirl in the XZ plane; [p] is the position at the start of the
    frame, [q] the position so far. *)
Definition swirled (i : nat) (p q : Vector3) : Vector3 :=
  if Rlt_dec 0.1 (audioIntensity p) then
    let xzDistance := sqrt (x p * x p + z p * z p) in
    if Rlt_dec 0.1 xzDistance then
      let normalizedX := x p / xzDistance in
      let normalizedZ := z p / xzDistance in
      let circularForce := circularMotionSpeed * circularMotionDirection in
      {| x := x q + - normalizedZ * circularForce * movement i p;
         y := y q;
         z := z q + normalizedX * circularForce * movement i p |}
    else q
  else q.

(** The slow rotation about the vertical axis. *)
Definition rotated (p q : Vector3) : Vector3 :=
  let rotationSpeed := 0.0005 + (audioIntensity p * audioIntensity p) * 0.01 in
  let cosR := cos rotationSpeed in
  let sinR := sin rotationSpeed in
  let nx := x q * cosR - z q * sinR in
  {| x := nx; y := y q; z := x q * sinR + z q * cosR |}.

(** The position after the movement of the frame, before the bounds check. *)
Definition moved (i : nat) (p : Vector3) : Vector3 :=
  rotated p (swirled i p (drifted i p)).

(** "Keep particles within bounds" *)
Definition bounded (q : Vector3) : Vector3 :=
  let newDistance := Three.length q in
  if Rlt_dec 20 newDistance
  then multiplyScalar (normalize q) 10
  else q.

(** One iteration of the loop over the points; [random] is the value of
    [Math.random()] drawn for the size. *)
Definition updateParticle (i : nat) (random : R) (pt : Particle) : Particle :=
  let p := position pt in
  let a := audioIntensity p in
  {| position := bounded (moved i p);
     color := {| x := 0.2 + a * 0.7; y := 0.1 + a * 0.2; z := 0.5 + a * 0.3 |};
     size := (0.05 + random * 0.05) * (1 + a * 1.5) |}.

(** The loop, from point [i] on. *)
Fixpoint updateFrom (i : nat) (random : nat -> R) (pts : list Particle)
    : list Particle :=
  match pts with
  | [] => []
  | pt :: rest => updateParticle i (random i) pt :: updateFrom (S i) random rest
  end.

(** The callback: nothing happens until the geometry exists. *)
Definition useFrame (random : nat -> R) (particles : option (list Particle))
    : option (list Particle) :=
  option_map (updateFrom 0 random) particles.

End Frame.

End CloudParticles.

(* ------------------------------------------------------------------ *)
(** ** SoundVisualizer.tsx: [EnergyDisturbance], the [useFrame] callback *)

Module EnergyDisturbance.

Import Three.

Local Open Scope R_scope.

(** [new THREE.TorusKnotGeometry(radius, tube, tubularSegments,
    radialSegments, p, q)] *)
Record TorusKnotGeometry : Type := {
  radius : R; tube : R; tubularSegments : Z; radialSegments : Z; p : Z; q : Z
}.

(** What the callback reads and writes: the mesh, its material, and
    [lastRotationRef]. *)
Record Mesh : Type := {
  scale : Vector3;
  rotation : Vector3;
  lastRotation : Vector3;
  emissiveIntensity : R;
  color : Vector3;
  emissive : Vector3;
  geometry : TorusKnotGeometry
}.

(** [a % b] on numbers: the remainder has the sign of the dividend. *)
Definition rem (a b : R) : R :=
  let quot := a / b in
  let trunc := if Rlt_dec quot 0 then (- Js.floor (- quot))%Z else Js.floor quot in
  a - b * IZR trunc.

Section Frame.

Variable audioData : list Z.
Variable sensitivity : R.
Variable elapsedTime : R.

Definition avgIntensity : R :=
  sensitivity * IZR (Js.sum audioData) / INR (List.length audioData) / 255.
Definition lowFreqIntensity : R :=
  sensitivity * IZR (Js.sum (Js.slice audioData 0 2)) / (2 * 255).
Definition highFreqIntensity : R :=
  sensitivity * IZR (Js.sum (Js.sliceFrom audioData 5)) / (3 * 255).
Definition midFreqIntensity : R :=
  sensitivity * IZR (Js.sum (Js.slice audioData 2 5)) / (3 * 255).

Definition breathingRate : R := 0.1.
Definition breathingEffect : R := (sin (elapsedTime * breathingRate) + 1) * 0.04.
Definition pulseScale : R := 1 + breathingEffect + (avgIntensity * avgIntensity) * 0.8.

Definition xRotationDir : R := if Rlt_dec highFreqIntensity lowFreqIntensity then 1 else -1.
Definition yRotationDir : R := if Rlt_dec 0.3 midFreqIntensity then 1 else -1.
Definition zRotationDir : R := if Rlt_dec lowFreqIntensity highFreqIntensity then 1 else -1.

Definition rotationBase : R := 0.001.
Definition rotationAudioFactor : R := avgIntensity ^ 2 * 0.05.

Definition smoothedRotation (last : Vector3) : Vector3 :=
  {| x := x last * 0.95 + (rotationBase + rotationAudioFactor) * 0.05 * xRotationDir;
     y := y last * 0.95 + (rotationBase + rotationAudioFactor * 1.1) * 0.05 * yRotationDir;
     z := z last * 0.95 + (rotationBase + highFreqIntensity * 0.02) * zRotationDir |}.

Definition baseEmissive : R := 0.2 + breathingEffect.

Definition red : R := 0.3 + 0.1 * sin (elapsedTime * 0.3) + avgIntensity * 0.5.
Definition green : R := 0.1 + avgIntensity * 0.3.
Definition blue : R := 0.6 + 0.1 * cos (elapsedTime * 0.3) + avgIntensity * 0.4.

(** The geometry is replaced on a coarse time gate, when there is enough
    signal. *)
Definition regenerated (g : TorusKnotGeometry) : TorusKnotGeometry :=
  let p' := Js.round (2 + lowFreqIntensity * 4) in
  let q' := Js.round (3 + highFreqIntensity * 4) in
  if Rlt_dec (rem elapsedTime 2) 0.1 then
    if Rlt_dec 0.2 avgIntensity then
      {| radius := 1; tube := 0.3 + avgIntensity * 0.15;
         tubularSegments := 100; radialSegments := 16; p := p'; q := q' |}
    else g
  else g.

Definition update (m : Mesh) : Mesh :=
  let last := smoothedRotation (lastRotation m) in
  {| scale := {| x := pulseScale; y := pulseScale; z := pulseScale |};
     rotation := {| x := x (rotation m) + x last;
                    y := y (rotation m) + y last;
                    z := z (rotation m) + z last |};
     lastRotation := last;
     emissiveIntensity := baseEmissive + avgIntensity * 2.5;
     color := {| x := red; y := green; z := blue |};
     emissive := {| x := red * 0.5; y := green * 0.5; z := blue * 0.5 |};
     geometry := regenerated (geometry m) |}.

(** The callback: nothing happens until mesh and material are mounted. *)
Definition useFrame (mesh : option Mesh) : option Mesh := option_map update mesh.

End Frame.

End EnergyDisturbance.

(* ------------------------------------------------------------------ *)
(** ** SoundVisualizer.tsx: the component [SoundVisualizer] *)

Module SoundVisualizer.

Local Open Scope R_scope.

Inductive MicrophoneStatus : Type :=
| initial | requesting | active | test | sample | error.

(** The [HTMLAudioElement] of the sample music, as far as the component
    drives it. *)
Record AudioElement : Type := { element : nat; paused : bool; currentTime : R }.

(** The hooks of the component: the [useState] values after the pending
    updates are applied, and the two refs. *)
Record State : Type := {
  audioProcessor : AudioProcessor.World;
  isListening : bool;
  audioData : list Z;
  microphoneStatus : MicrophoneStatus;
  audioLevel : R;
  rawVolume : R;
  debugInfo : list Z * R;
  sensitivity : R;
  animationFrameRef : option nat;
  audioElementRef : option AudioElement
}.

(** The first render. *)
Definition mounted : State :=
  {| audioProcessor := AudioProcessor.initial;
     isListening := false;
     audioData := Js.zeros 8;
     microphoneStatus := initial;
     audioLevel := 0;
     rawVolume := 0;
     debugInfo := ([], 0);
     sensitivity := 1;
     animationFrameRef := None;
     audioElementRef := None |}.

(** What a start handler leaves behind once it has returned: the processor
    after the attempt, and on success the listening flag and the status of
    the mode.  The status ['requesting'] that is shown while the handler
    waits is in [Pending]. *)
Definition started (s : State) (result : bool * AudioProcessor.World)
    (mode : MicrophoneStatus) (el : option AudioElement) : State :=
  let (success, w) := result in
  {| audioProcessor := w;
     isListening := if success then true else isListening s;
     audioData := audioData s;
     microphoneStatus := if success then mode else error;
     audioLevel := audioLevel s;
     rawVolume := rawVolume s;
     debugInfo := debugInfo s;
     sensitivity := sensitivity s;
     animationFrameRef := animationFrameRef s;
     audioElementRef := el |}.

(** [startListening] *)
Definition startListening (granted : option nat) (spectrum : list Z)
    (s : State) : State :=
  started s
    (AudioProcessor.requestMicrophoneAccess granted spectrum (audioProcessor s))
    active (audioElementRef s).

(** [startTestTone] *)
Definition startTestTone (s : State) : State :=
  started s (AudioProcessor.createTestTone (audioProcessor s))
    test (audioElementRef s).

(** The one element the component ever creates. *)
Definition sampleElement : AudioElement :=
  {| element := 0; paused := true; currentTime := 0 |}.

(** [startSampleMusic]; [playable] tells whether [play()] resolves. *)
Definition startSampleMusic (playable : bool) (s : State) : State :=
  let el :=
    match audioElementRef s with
    | Some e => e
    | None => sampleElement
    end in
  let (success, w) :=
    AudioProcessor.connectAudioElement (element el) (audioProcessor s) in
  if success && playable then
    started s (true, w) sample
      (Some {| element := element el; paused := false;
               currentTime := currentTime el |})
  else started s (false, w) sample (Some el).

(** [stopListening] *)
Definition stopListening (s : State) : State :=
  let el :=
    match audioElementRef s, microphoneStatus s with
    | Some e, sample =>
        Some {| element := element e; paused := true; currentTime := 0 |}
    | e, _ => e
    end in
  {| audioProcessor := AudioProcessor.cleanup (audioProcessor s);
     isListening := false;
     audioData := Js.zeros 8;
     microphoneStatus := initial;
     audioLevel := 0;
     rawVolume := rawVolume s;
     debugInfo := debugInfo s;
     sensitivity := sensitivity s;
     animationFrameRef := None;
     audioElementRef := el |}.

(** The debug metrics of [updateAudioData] over the first 100 bins. *)
Definition rawAverage (sampleData : list Z) : R :=
  let nonZero := filter (fun v => (0 <? v)%Z) sampleData in
  let nonZeroCount := List.length nonZero in
  if (0 <? nonZeroCount)%nat
  then IZR (Js.sum nonZero) / INR nonZeroCount
  else 0.

(** [Math.min(1, Math.pow(maxLevel, 1/2))] with
    [maxLevel = Math.max(...frequencyBands) / 255] *)
Definition scaledLevel (frequencyBands : list Z) : R :=
  Rmin 1 (sqrt (IZR (Analysis.bandPeak frequencyBands) / 255)).

(** [updateAudioData], one poll; [timer] is the identifier [setTimeout]
    returns.  The three reads of the analyser are [spectrum] (for
    [getFrequencyData]), [samples] and [spectrum'] (for
    [getFrequencyBands]).  [rawData] is the data array of the processor
    itself, not a copy: when the debug metrics are taken from it,
    [getFrequencyBands] has already written [spectrum'] into it. *)
Definition updateAudioData (spectrum samples spectrum' : list Z) (timer : nat)
    (s : State) : State :=
  if isListening s then
    let (rawData, w1) := AudioProcessor.getFrequencyData spectrum (audioProcessor s) in
    let currentRawVolume := AudioProcessor.getRawVolume samples w1 in
    let (frequencyBands, w2) := AudioProcessor.getFrequencyBands spectrum' w1 in
    let debug :=
      match rawData, AudioProcessor.dataArray (AudioProcessor.this w2) with
      | Some _, Some d =>
          let sampleData := Js.slice d 0 100 in
          (Js.slice sampleData 0 20, rawAverage sampleData)
      | Some d, None =>
          let sampleData := Js.slice d 0 100 in
          (Js.slice sampleData 0 20, rawAverage sampleData)
      | None, _ => debugInfo s
      end in
    let hasSignal := existsb (fun v => (1 <? v)%Z) frequencyBands in
    {| audioProcessor := w2;
       isListening := isListening s;
       audioData := if hasSignal then frequencyBands else Js.zeros 8;
       microphoneStatus := microphoneStatus s;
       audioLevel := if hasSignal then scaledLevel frequencyBands else audioLevel s;
       rawVolume := currentRawVolume;
       debugInfo := debug;
       sensitivity := sensitivity s;
       animationFrameRef := Some timer;
       audioElementRef := audioElementRef s |}
  else s.

(** What the canvas animates: the point cloud and the mesh.  Every frame
    runs both [useFrame] callbacks with the same props and clock. *)
Record Scene : Type := {
  particles : option (list CloudParticles.Particle);
  mesh : option EnergyDisturbance.Mesh
}.

Definition renderFrame (bands : list Z) (sens elapsedTime : R)
    (random : nat -> R) (sc : Scene) : Scene :=
  {| particles :=
       CloudParticles.useFrame bands sens elapsedTime random (particles sc);
     mesh := EnergyDisturbance.useFrame bands sens elapsedTime (mesh sc) |}.

End SoundVisualizer.

(* ------------------------------------------------------------------ *)
(** ** Vocabulary of the statements *)

Module Vocabulary.

Section OfTheBands.

Local Open Scope Z_scope.

(** What the loop of [getFrequencyBands] relies on: nine boundaries, from
    [startBin] to [endBin], never decreasing. *)
Definition boundaries_ok (bb : list Z) (E : Z) : Prop :=
  length bb = 9%nat /\ nth 0 bb 0 = 1 /\ nth 8 bb 0 = E /\
  forall i, (i < 8)%nat -> nth i bb 0 <= nth (S i) bb 0.

(** The bins of band [i], read from [dataArray] itself. *)
Definition bandBins (bb dataArray : list Z) (i : nat) : list Z :=
  Js.slice dataArray (nth i bb 0) (nth (S i) bb 0).

(** The boundaries for [endBin = 800], as integers. *)
Definition fixedBoundaries : list Z := [1; 2; 5; 12; 28; 65; 150; 347; 800].

End OfTheBands.

Section OfTheVolume.

Local Open Scope R_scope.

(** The samples as the specification normalizes them. *)
Definition normalized (b : Z) : R := IZR b / 128 - 1.

(** Root mean square of a list of reals, by its textbook formula. *)
Definition rootMeanSquare (xs : list R) : R :=
  sqrt (fold_right Rplus 0 (map (fun v => v * v) xs) / INR (length xs)).

End OfTheVolume.

Section ConcreteInputs.

Import WebAudio AudioProcessor.

(** A spectrum with energy in the DC bin only. *)
Definition dcOnly : list Z := 255%Z :: repeat 0%Z 1023.

(** A silent spectrum. *)
Definition silence : list Z := Js.zeros Analysis.frequencyBinCount.

(** A full-scale time-domain buffer: every sample is 255. *)
Definition loud : list Z := repeat 255%Z Analysis.fftSize.

(** A test tone started on a fresh processor. *)
Definition toneWorld : World := snd (createTestTone initial).

(** A microphone with one track acquired on a fresh processor. *)
Definition micWorld : World :=
  snd (requestMicrophoneAccess (Some 1%nat) silence initial).

(** The test tone started while the microphone is active. *)
Definition switchedWorld : World := snd (createTestTone micWorld).

(** A fresh processor after a denied microphone request. *)
Definition deniedWorld : World :=
  snd (requestMicrophoneAccess None silence initial).

(** The three acquisition modes, and the method that starts each of them
    (the microphone is granted with one track, the sample is element 0). *)
Inductive Mode : Type := microphone | syntheticTone | sampleMedia.

Definition acquire (m : Mode) (w : World) : bool * World :=
  match m with
  | microphone => requestMicrophoneAccess (Some 1%nat) silence w
  | syntheticTone => createTestTone w
  | sampleMedia => connectAudioElement 0 w
  end.

(** A switch: mode [m1] is started on a fresh processor, then mode [m2]
    without [cleanup] in between. *)
Definition switch (m1 m2 : Mode) : bool * World :=
  acquire m2 (snd (acquire m1 initial)).

(** The connections of [before] that are still in [after]. *)
Definition survivors (before after : Graph) : list connection :=
  filter (fun c => existsb (connection_eqb c) (connections after))
         (connections before).

(** How many connections end at the input of the current analyser. *)
Definition analyserInputs (w : World) : nat :=
  match analyser (this w) with
  | Some an => length (inputsOf an (graph w))
  | None => 0
  end.

(** The node a connection ends at. *)
Definition target (i : input) : nat :=
  match i with
  | NodeInput n => n
  | GainParam n => n
  end.

(** Every connection ends at a node that exists. *)
Definition targets_fresh (g : Graph) : Prop :=
  forall c, In c (connections g) -> target (snd c) < nextId g.

(** Assertion on a graph while a method runs: the analyser [an] has [k]
    incoming connections, and the identifiers below [lo], among them [an],
    are in use. *)
Definition tracked (an k lo : nat) (g : Graph) : Prop :=
  an < lo /\ lo <= nextId g /\ targets_fresh g /\ length (inputsOf an g) = k.

(** Hoare triples for the platform calls. *)
Definition hoare {A : Type} (P : Graph -> Prop) (m : M A)
    (Q : A -> Graph -> Prop) : Prop :=
  forall g, P g -> Q (fst (m g)) (snd (m g)).

(** Invariant of the processor on its platform. *)
Definition processor_ok (w : World) : Prop :=
  targets_fresh (graph w) /\
  forall c, audioContext (this w) = Some c -> c < nextId (graph w).

(** What the analyser reports: [frequencyBinCount] bytes. *)
Definition spectrum_ok (spectrum : list Z) : Prop :=
  length spectrum = Analysis.frequencyBinCount /\ bytes spectrum.

(** The states of a processor that calls of its public methods lead to,
    when each call has run to its end before the next one is made.  Calls
    that overlap at an await are in [Awaits]. *)
Inductive reachable : World -> Prop :=
| reach_initial : reachable initial
| reach_microphone (granted : option nat) (spectrum : list Z) (w : World) :
    reachable w -> spectrum_ok spectrum ->
    reachable (snd (requestMicrophoneAccess granted spectrum w))
| reach_tone (w : World) :
    reachable w -> reachable (snd (createTestTone w))
| reach_element (audioElement : nat) (w : World) :
    reachable w -> reachable (snd (connectAudioElement audioElement w))
| reach_cleanup (w : World) :
    reachable w -> reachable (cleanup w)
| reach_data (spectrum : list Z) (w : World) :
    reachable w -> spectrum_ok spectrum ->
    reachable (snd (getFrequencyData spectrum w))
| reach_bands (spectrum : list Z) (w : World) :
    reachable w -> spectrum_ok spectrum ->
    reachable (snd (getFrequencyBands spectrum w)).

(** The data array, when there is one, holds [frequencyBinCount] bytes. *)
Definition dataArray_ok (w : World) : Prop :=
  forall d, dataArray (this w) = Some d -> spectrum_ok d.

(** A spectrum with one peak in each of three bands, and energy above the
    sampled range. *)
Definition threePeaks : list Z :=
  (0 :: 10 :: 0 :: 20 :: 5 :: repeat 0 794 ++ [30] ++ [99] ++ repeat 0 223)%Z.

(** A scene with a single point at the origin and no mesh mounted yet. *)
Definition onePoint : SoundVisualizer.Scene :=
  {| SoundVisualizer.particles :=
       Some [ {| CloudParticles.position := {| Three.x := 0; Three.y := 0; Three.z := 0 |};
                 CloudParticles.color := {| Three.x := 0.2; Three.y := 0.1; Three.z := 0.5 |};
                 CloudParticles.size := 0.1 |} ];
     SoundVisualizer.mesh := None |}.

(** The microphone is started on the freshly mounted component and one
    poll reads the loud buffer, whose spectrum has its energy in the DC
    bin. *)
Definition polled : SoundVisualizer.State :=
  SoundVisualizer.updateAudioData dcOnly loud dcOnly 1
    (SoundVisualizer.startListening (Some 1%nat) silence SoundVisualizer.mounted).

End ConcreteInputs.

End Vocabulary.

Import Vocabulary.

(** Closed facts about concrete runs are settled by evaluation. *)
Ltac evaluate := vm_compute; reflexivity.

(* ------------------------------------------------------------------ *)
(** ** SoundVisualizer.tsx: [CloudParticles], the [useEffect] that creates
       the points *)

Module CloudSetup.

Import Three CloudParticles.

Local Open Scope R_scope.

Definition particleCount : nat := 5000.

(** One iteration of the loop.  [r1] to [r7] are the values [Math.random()]
    returns, in the order of the calls: radius, theta, phi, the three colour
    channels, the size. *)
Definition createParticle (r1 r2 r3 r4 r5 r6 r7 : R) : Particle :=
  let radius := r1 * 10 in
  let theta := r2 * PI * 2 in
  let phi := acos (2 * r3 - 1) in
  {| position := {| x := radius * sin phi * cos theta;
                    y := radius * sin phi * sin theta;
                    z := radius * cos phi |};
     color := {| x := 0.2 + r4 * 0.3; y := 0.1 + r5 * 0.2; z := 0.5 + r6 * 0.5 |};
     size := r7 * 0.2 + 0.05 |}.

(** The loop over [count] points; point [i] takes the draws [7 i] to
    [7 i + 6] of the stream. *)
Definition createParticles (random : nat -> R) (count : nat) : list Particle :=
  map (fun i : nat =>
         createParticle (random (7 * i)%nat) (random (7 * i + 1)%nat)
                        (random (7 * i + 2)%nat) (random (7 * i + 3)%nat)
                        (random (7 * i + 4)%nat) (random (7 * i + 5)%nat)
                        (random (7 * i + 6)%nat))
      (seq 0 count).

(** [setParticles(geometry)] at mount. *)
Definition useEffect (random : nat -> R) : option (list Particle) :=
  Some (createParticles random particleCount).

(** The render loop: the canvas runs the [useFrame] callback once per frame,
    each time with the props and the clock of that frame and with draws of
    its own. *)
Record Tick : Type := {
  bands : list Z; sens : R; elapsedTime : R; draws : nat -> R
}.

Fixpoint animate (ticks : list Tick) (particles : option (list Particle))
    : option (list Particle) :=
  match ticks with
  | [] => particles
  | t :: rest =>
      animate rest
        (useFrame (bands t) (sens t) (elapsedTime t) (draws t) particles)
  end.

(** What the component passes to a frame: eight bytes, a sensitivity of the
    slider, and a clock that has not run backwards. *)
Definition passed (t : Tick) : Prop :=
  List.length (bands t) = 8%nat /\ bytes (bands t) /\
  0.1 <= sens t <= 3 /\ 0 <= elapsedTime t.

End CloudSetup.

(* ------------------------------------------------------------------ *)
(** ** SoundVisualizer.tsx: what the rendered controls let happen *)

Module Controls.

Import SoundVisualizer.

Local Open Scope R_scope.

(** [onChange] of the sensitivity slider:
    [setSensitivity(parseFloat(e.target.value))]. *)
Definition setSensitivity (value : R) (s : State) : State :=
  {| audioProcessor := audioProcessor s;
     isListening := isListening s;
     audioData := audioData s;
     microphoneStatus := microphoneStatus s;
     audioLevel := audioLevel s;
     rawVolume := rawVolume s;
     debugInfo := debugInfo s;
     sensitivity := value;
     animationFrameRef := animationFrameRef s;
     audioElementRef := audioElementRef s |}.

(** [updateAudioData] as a timer runs it.  The callback is the closure of
    the render that scheduled it, so the [isListening] it tests is the value
    of that render ([captured]); the processor, the refs and the setters are
    the current ones. *)
Definition withListening (b : bool) (s : State) : State :=
  {| audioProcessor := audioProcessor s;
     isListening := b;
     audioData := audioData s;
     microphoneStatus := microphoneStatus s;
     audioLevel := audioLevel s;
     rawVolume := rawVolume s;
     debugInfo := debugInfo s;
     sensitivity := sensitivity s;
     animationFrameRef := animationFrameRef s;
     audioElementRef := audioElementRef s |}.

Definition timerFires (captured : bool) (spectrum samples spectrum' : list Z)
    (timer : nat) (s : State) : State :=
  withListening (isListening s)
    (updateAudioData spectrum samples spectrum' timer (withListening captured s)).

(** The clicks, the slider and the poll timer, with what the platform
    answers. *)
Inductive Event : Type :=
| StartMicrophone (granted : option nat) (spectrum : list Z)
| UseSynthetic
| UseSampleMusic (playable : bool)
| Stop
| Slider (value : R)
| Poll (captured : bool) (spectrum samples spectrum' : list Z) (timer : nat).

(** The JSX renders the three start buttons when [!isListening], and the
    stop button and the slider otherwise.  A start handler sets the status
    to ['requesting'] before it awaits, which disables the three buttons
    until it is done, so no other click comes in between.  A timer may fire
    at any time: [stopListening] hands the [setTimeout] identifier to
    [cancelAnimationFrame]. *)
Definition offered (e : Event) (s : State) : bool :=
  match e with
  | StartMicrophone _ _ | UseSynthetic | UseSampleMusic _ => negb (isListening s)
  | Stop | Slider _ => isListening s
  | Poll _ _ _ _ _ => true
  end.

Definition handle (e : Event) (s : State) : State :=
  match e with
  | StartMicrophone granted spectrum => startListening granted spectrum s
  | UseSynthetic => startTestTone s
  | UseSampleMusic playable => startSampleMusic playable s
  | Stop => stopListening s
  | Slider value => setSensitivity value s
  | Poll captured spectrum samples spectrum' timer =>
      timerFires captured spectrum samples spectrum' timer s
  end.

(** What the platform hands over: spectra of [frequencyBinCount] bytes,
    time-domain buffers of [fftSize] bytes, slider values between [min] and
    [max]. *)
Definition answered (e : Event) : Prop :=
  match e with
  | StartMicrophone _ spectrum => spectrum_ok spectrum
  | Slider value => 0.1 <= value <= 3
  | Poll _ spectrum samples spectrum' _ =>
      spectrum_ok spectrum /\ spectrum_ok spectrum' /\
      bytes samples /\ length samples = Analysis.fftSize
  | _ => True
  end.

(** The states the component can be rendered in, between two events. *)
Inductive rendered : State -> Prop :=
| rendered_mounted : rendered mounted
| rendered_handle (e : Event) (s : State) :
    rendered s -> offered e s = true -> answered e -> rendered (handle e s).

End Controls.

(* ------------------------------------------------------------------ *)
(** ** Calls of the public methods of [AudioProcessor], as data *)

Module Calls.

Import AudioProcessor.

Inductive Call : Type :=
| RequestMicrophoneAccess (granted : option nat) (spectrum : list Z)
| CreateTestTone
| ConnectAudioElement (audioElement : nat)
| Cleanup
| GetFrequencyData (spectrum : list Z)
| GetFrequencyBands (spectrum : list Z).

(** The processor after the call. *)
Definition perform (c : Call) (w : World) : World :=
  match c with
  | RequestMicrophoneAccess granted spectrum =>
      snd (requestMicrophoneAccess granted spectrum w)
  | CreateTestTone => snd (createTestTone w)
  | ConnectAudioElement audioElement => snd (connectAudioElement audioElement w)
  | Cleanup => cleanup w
  | GetFrequencyData spectrum => snd (getFrequencyData spectrum w)
  | GetFrequencyBands spectrum => snd (getFrequencyBands spectrum w)
  end.

(** The handles [cleanup] disconnects. *)
Definition released (w : World) : list nat :=
  let f := this w in
  let handle (h : option nat) := match h with Some n => [n] | None => [] end in
  handle (oscillator f) ++ handle (sourceNode f) ++
  handle (mediaElementSource f) ++ handle (analyser f).

End Calls.

(* ------------------------------------------------------------------ *)
(** ** audioUtils.ts: the acquisition methods, await by await *)

Module Awaits.

Import WebAudio AudioProcessor.

(** [initAudioContext] on a platform that may refuse a context:
    [new AudioContext()] throws where there is no Web Audio or no context
    left, and the [catch] returns false with nothing assigned.  A processor
    that holds a context does not call the constructor; [createAnalyser]
    and the allocation of the array do not throw. *)
Definition initAudioContextOn (available : bool) (w : World) : bool * World :=
  match audioContext (this w) with
  | Some _ => initAudioContext w
  | None => if available then initAudioContext w else (false, w)
  end.

(** [requestMicrophoneAccess] from the point where [getUserMedia] settles;
    the fields are read again there.  The wait for [resume()] that may
    follow the grant is not a step of its own. *)
Definition requestMicrophoneAccessFrom (granted : option nat)
    (spectrum : list Z) (w1 : World) : bool * World :=
  match granted with
  | None => (false, w1)
  | Some n =>
      let f := this w1 in
      let (stream, g1) := newTracks n (graph w1) in
      match audioContext f, analyser f with
      | Some _, Some an =>
          let (_, g2) :=
            match sourceNode f with
            | Some old => disconnect old g1
            | None => (tt, g1)
            end in
          let (src, g3) := createNode g2 in
          let (_, g4) := connect src (NodeInput an) g3 in
          (true,
           {| this :=
                {| audioContext := audioContext f; analyser := analyser f;
                   dataArray :=
                     option_map (getByteFrequencyData spectrum) (dataArray f);
                   microphoneStream := Some stream; oscillator := oscillator f;
                   sourceNode := Some src;
                   mediaElementSource := mediaElementSource f;
                   connectedAudioElement := connectedAudioElement f |};
              graph := g4 |})
      | _, _ =>
          (false,
           {| this :=
                {| audioContext := audioContext f; analyser := analyser f;
                   dataArray := dataArray f;
                   microphoneStream := Some stream; oscillator := oscillator f;
                   sourceNode := sourceNode f;
                   mediaElementSource := mediaElementSource f;
                   connectedAudioElement := connectedAudioElement f |};
              graph := g1 |})
      end
  end.

(** [createTestTone] from the point where [resume()] settles. *)
Definition createTestToneFrom (w1 : World) : bool * World :=
  let f := this w1 in
  match audioContext f, analyser f with
  | Some _, Some an =>
      let (_, g1) :=
        match oscillator f with
        | Some old => (stop old ;;; disconnect old) (graph w1)
        | None => (tt, graph w1)
        end in
      let (oscillators, g2) := buildTestTone an g1 in
      (true,
       {| this :=
            {| audioContext := audioContext f; analyser := analyser f;
               dataArray := dataArray f;
               microphoneStream := microphoneStream f;
               oscillator := nth_error oscillators 0;
               sourceNode := sourceNode f;
               mediaElementSource := mediaElementSource f;
               connectedAudioElement := connectedAudioElement f |};
          graph := g2 |})
  | _, _ => (false, w1)
  end.

(** [connectAudioElement] from the point where [resume()] settles. *)
Definition connectAudioElementFrom (audioElement : nat) (w1 : World)
    : bool * World :=
  let f := this w1 in
  match audioContext f, analyser f with
  | Some destination, Some an =>
      let same :=
        match connectedAudioElement f with
        | Some e => Nat.eqb e audioElement
        | None => false
        end in
      match same, mediaElementSource f with
      | true, Some src =>
          let (_, g1) :=
            (connect src (NodeInput an) ;;;
             connect an (NodeInput destination)) (graph w1) in
          (true, {| this := f; graph := g1 |})
      | _, _ =>
          match createMediaElementSource audioElement (graph w1) with
          | (None, g1) => (false, {| this := f; graph := g1 |})
          | (Some src, g1) =>
              let (_, g2) :=
                (connect src (NodeInput an) ;;;
                 connect an (NodeInput destination)) g1 in
              (true,
               {| this :=
                    {| audioContext := audioContext f; analyser := analyser f;
                       dataArray := dataArray f;
                       microphoneStream := microphoneStream f;
                       oscillator := oscillator f;
                       sourceNode := sourceNode f;
                       mediaElementSource := Some src;
                       connectedAudioElement := Some audioElement |};
                  graph := g2 |})
          end
      end
  | _, _ => (false, w1)
  end.

(** [connectAudioElement] on a platform that may refuse a context. *)
Definition connectAudioElementOn (available : bool) (audioElement : nat)
    (w : World) : bool * World :=
  let (ok, w1) := initAudioContextOn available w in
  if negb ok then (false, w1) else connectAudioElementFrom audioElement w1.

(** Two calls that overlap: [requestMicrophoneAccess] is called and waits
    for [getUserMedia]; [createTestTone] is called and completes meanwhile;
    then the stream is granted. *)
Definition overlapped (w : World) : bool * World :=
  let (_, w1) := initAudioContext w in
  let (_, w2) := createTestTone w1 in
  requestMicrophoneAccessFrom (Some 1%nat) (Js.zeros Analysis.frequencyBinCount) w2.

End Awaits.

(* ------------------------------------------------------------------ *)
(** ** SoundVisualizer.tsx: the start handlers, await by await *)

Module Pending.

Import AudioProcessor SoundVisualizer Controls.

Local Open Scope R_scope.

(** The three start buttons. *)
Inductive Start : Type := Microphone | Synthetic | SampleMusic.

(** Where a start handler waits: for the method of the processor, which has
    run through [initAudioContext] and either returned false there
    ([initialised = false]) or waits for [getUserMedia] or [resume()]; or
    for [play()]. *)
Inductive Await : Type :=
| AwaitingSource (b : Start) (initialised : bool)
| AwaitingPlay.

(** The hooks, and the handler that has not returned yet. *)
Record Screen : Type := { hooks : State; pending : option Await }.

Definition isRequesting (m : MicrophoneStatus) : bool :=
  match m with requesting => true | _ => false end.

(** What a handler writes on its way. *)
Definition written (s : State) (w : World) (listening : bool)
    (status : MicrophoneStatus) (el : option AudioElement) : State :=
  {| audioProcessor := w;
     isListening := listening;
     audioData := audioData s;
     microphoneStatus := status;
     audioLevel := audioLevel s;
     rawVolume := rawVolume s;
     debugInfo := debugInfo s;
     sensitivity := sensitivity s;
     animationFrameRef := animationFrameRef s;
     audioElementRef := el |}.

(** The element [startSampleMusic] works on: the one of the ref, created
    when the ref is empty. *)
Definition sampleOf (s : State) : AudioElement :=
  match audioElementRef s with
  | Some e => e
  | None => sampleElement
  end.

(** What happens to the component: clicks, promises that settle, the
    slider, the poll timer. *)
Inductive Step : Type :=
| Click (b : Start) (available : bool)
| SourceSettles (granted : option nat) (spectrum : list Z)
| PlaySettles (playable : bool)
| ClickStop
| Slide (value : R)
| Timer (captured : bool) (spectrum samples spectrum' : list Z) (timer : nat).

(** The start buttons are rendered when [!isListening] and are disabled
    while the status is ['requesting']; the stop button and the slider are
    rendered otherwise; a promise settles when a handler waits for it. *)
Definition enabled (e : Step) (sc : Screen) : bool :=
  match e with
  | Click _ _ =>
      negb (isListening (hooks sc)) &&
      negb (isRequesting (microphoneStatus (hooks sc)))
  | SourceSettles _ _ =>
      match pending sc with
      | Some (AwaitingSource _ _) => true
      | _ => false
      end
  | PlaySettles _ =>
      match pending sc with
      | Some AwaitingPlay => true
      | _ => false
      end
  | ClickStop | Slide _ => isListening (hooks sc)
  | Timer _ _ _ _ _ => true
  end.

(** A click on a start button: the status becomes ['requesting'], the
    sample element is created if need be, and the method of the processor
    runs up to its first await, that is through [initAudioContext]. *)
Definition click (b : Start) (available : bool) (sc : Screen) : Screen :=
  let s := hooks sc in
  let el :=
    match b with
    | SampleMusic => Some (sampleOf s)
    | _ => audioElementRef s
    end in
  let (ok, w1) := Awaits.initAudioContextOn available (audioProcessor s) in
  {| hooks := written s w1 (isListening s) requesting el;
     pending := Some (AwaitingSource b ok) |}.

(** The promise inside the method settles and the method runs to its end;
    the handler goes on with its result, and [startSampleMusic] then waits
    for [play()]. *)
Definition sourceSettles (granted : option nat) (spectrum : list Z)
    (sc : Screen) : Screen :=
  let s := hooks sc in
  match pending sc with
  | Some (AwaitingSource _ false) =>
      {| hooks := written s (audioProcessor s) (isListening s) error
                    (audioElementRef s);
         pending := None |}
  | Some (AwaitingSource Microphone true) =>
      let (success, w) :=
        Awaits.requestMicrophoneAccessFrom granted spectrum (audioProcessor s) in
      {| hooks := written s w (if success then true else isListening s)
                    (if success then active else error) (audioElementRef s);
         pending := None |}
  | Some (AwaitingSource Synthetic true) =>
      let (success, w) := Awaits.createTestToneFrom (audioProcessor s) in
      {| hooks := written s w (if success then true else isListening s)
                    (if success then test else error) (audioElementRef s);
         pending := None |}
  | Some (AwaitingSource SampleMusic true) =>
      let (success, w) :=
        Awaits.connectAudioElementFrom (element (sampleOf s)) (audioProcessor s) in
      if success
      then {| hooks := written s w (isListening s) requesting (audioElementRef s);
              pending := Some AwaitingPlay |}
      else {| hooks := written s w (isListening s) error (audioElementRef s);
              pending := None |}
  | _ => sc
  end.

(** [play()] settles. *)
Definition playSettles (playable : bool) (sc : Screen) : Screen :=
  let s := hooks sc in
  match pending sc with
  | Some AwaitingPlay =>
      if playable
      then {| hooks :=
                written s (audioProcessor s) true sample
                  (Some {| element := element (sampleOf s); paused := false;
                           currentTime := currentTime (sampleOf s) |});
              pending := None |}
      else {| hooks := written s (audioProcessor s) (isListening s) error
                         (audioElementRef s);
              pending := None |}
  | _ => sc
  end.

Definition step (e : Step) (sc : Screen) : Screen :=
  match e with
  | Click b available => click b available sc
  | SourceSettles granted spectrum => sourceSettles granted spectrum sc
  | PlaySettles playable => playSettles playable sc
  | ClickStop => {| hooks := stopListening (hooks sc); pending := pending sc |}
  | Slide value => {| hooks := setSensitivity value (hooks sc); pending := pending sc |}
  | Timer captured spectrum samples spectrum' timer =>
      {| hooks := timerFires captured spectrum samples spectrum' timer (hooks sc);
         pending := pending sc |}
  end.

(** The screens the component can show, whatever the platform answers. *)
Inductive displayed : Screen -> Prop :=
| displayed_mounted : displayed {| hooks := mounted; pending := None |}
| displayed_step (e : Step) (sc : Screen) :
    displayed sc -> enabled e sc = true -> displayed (step e sc).

End Pending.

(* ================================================================== *)
(** * Properties *)

(* ------------------------------------------------------------------ *)
(** ** Lists, slices and peaks *)

Section SliceFacts.

Local Open Scope Z_scope.

Lemma relIndex_in_range (len i : Z) :
  0 <= i <= len -> Js.relIndex len i = i.
Proof.
  intros H. unfold Js.relIndex.
  destruct (i <? 0) eqn:E; [apply Z.ltb_lt in E; lia | lia].
Qed.

Lemma slice_in_range {A : Type} (a : list A) (b e : Z) :
  0 <= b <= Z.of_nat (length a) -> 0 <= e <= Z.of_nat (length a) ->
  Js.slice a b e = firstn (Z.to_nat (e - b)) (skipn (Z.to_nat b) a).
Proof.
  intros Hb He. unfold Js.slice.
  now rewrite !relIndex_in_range by assumption.
Qed.

Lemma nth_error_slice {A : Type} (a : list A) (b e : Z) (k : nat) :
  0 <= b <= Z.of_nat (length a) -> 0 <= e <= Z.of_nat (length a) ->
  nth_error (Js.slice a b e) k =
  if (Z.of_nat k <? e - b) then nth_error a (Z.to_nat b + k) else None.
Proof.
  intros Hb He. rewrite slice_in_range by assumption.
  rewrite nth_error_firstn, nth_error_skipn.
  destruct (Nat.ltb_spec k (Z.to_nat (e - b))); destruct (Z.ltb_spec (Z.of_nat k) (e - b));
    try reflexivity; lia.
Qed.

Lemma length_slice {A : Type} (a : list A) (b e : Z) :
  0 <= b <= e -> e <= Z.of_nat (length a) ->
  Z.of_nat (length (Js.slice a b e)) = e - b.
Proof.
  intros Hb He. rewrite slice_in_range by lia.
  rewrite length_firstn, length_skipn. lia.
Qed.

(** A slice of a slice is a slice of the array itself. *)
Lemma slice_slice {A : Type} (a : list A) (s e b b' : Z) :
  0 <= s <= e -> e <= Z.of_nat (length a) ->
  s <= b -> b <= b' -> b' <= e ->
  Js.slice (Js.slice a s e) (b - s) (b' - s) = Js.slice a b b'.
Proof.
  intros Hs He Hb Hbb Hb'.
  assert (Hlen := length_slice a s e Hs He).
  apply nth_error_ext; intros k.
  rewrite (nth_error_slice (Js.slice a s e)) by lia.
  rewrite (nth_error_slice a b b') by lia.
  replace (b' - s - (b - s)) with (b' - b) by lia.
  destruct (Z.ltb_spec (Z.of_nat k) (b' - b)); [|reflexivity].
  rewrite nth_error_slice by lia.
  destruct (Z.ltb_spec (Z.of_nat (Z.to_nat (b - s) + k)) (e - s)); [|lia].
  f_equal. lia.
Qed.

(** The elements of an in-range slice are the bins [b <= j < e]. *)
Lemma in_slice (a : list Z) (b e x : Z) :
  0 <= b <= e -> e <= Z.of_nat (length a) ->
  In x (Js.slice a b e) <-> exists j, b <= j < e /\ nth (Z.to_nat j) a 0 = x.
Proof.
  intros Hb He. split.
  - intros Hin. apply In_nth_error in Hin. destruct Hin as [k Hk].
    rewrite nth_error_slice in Hk by lia.
    destruct (Z.ltb_spec (Z.of_nat k) (e - b)); [|discriminate].
    exists (b + Z.of_nat k). split; [lia|].
    apply nth_error_nth. rewrite <- Hk. f_equal. lia.
  - intros [j [Hj Hx]].
    apply (nth_error_In _ (Z.to_nat (j - b))).
    rewrite nth_error_slice by lia.
    destruct (Z.ltb_spec (Z.of_nat (Z.to_nat (j - b))) (e - b)); [|lia].
    replace (Z.to_nat b + Z.to_nat (j - b))%nat with (Z.to_nat j) by lia.
    rewrite <- Hx. apply nth_error_nth'. lia.
Qed.

Lemma bytes_slice (a : list Z) (b e : Z) : bytes a -> bytes (Js.slice a b e).
Proof.
  unfold bytes, Js.slice. rewrite !Forall_forall. intros H x Hx.
  apply H. rewrite <- (firstn_skipn (Z.to_nat (Js.relIndex (Z.of_nat (length a)) b)) a).
  apply in_or_app. right.
  rewrite <- (firstn_skipn (Z.to_nat
    (Js.relIndex (Z.of_nat (length a)) e - Js.relIndex (Z.of_nat (length a)) b)) (skipn _ a)).
  apply in_or_app. left. exact Hx.
Qed.

Lemma bytes_zeros (n : nat) : bytes (Js.zeros n).
Proof.
  unfold bytes, Js.zeros. apply Forall_forall. intros x Hx.
  apply repeat_spec in Hx. subst. unfold byte. lia.
Qed.

Lemma bytesb_bytes (a : list Z) : bytesb a = true -> bytes a.
Proof.
  unfold bytesb, bytes. rewrite forallb_forall, Forall_forall.
  intros H x Hx. specialize (H x Hx). unfold byteb in H. unfold byte.
  apply andb_prop in H. destruct H as [H1 H2].
  apply Z.leb_le in H1. apply Z.leb_le in H2. lia.
Qed.

(** [Js.sum], the left fold, against the accumulator. *)
Lemma fold_add_acc (a : list Z) (acc : Z) :
  fold_left Z.add a acc = acc + fold_left Z.add a 0.
Proof.
  revert acc. induction a as [|x a IH]; intros acc; simpl; [lia|].
  rewrite IH, (IH x). lia.
Qed.

Lemma sum_cons (x : Z) (a : list Z) : Js.sum (x :: a) = x + Js.sum a.
Proof. unfold Js.sum. simpl. apply fold_add_acc. Qed.

Lemma sum_nonneg (a : list Z) : bytes a -> 0 <= Js.sum a.
Proof.
  induction 1 as [|x a Hx _ IH]; [reflexivity|].
  rewrite sum_cons. unfold byte in Hx. lia.
Qed.

(** A byte array without energy holds only zeros. *)
Lemma sum_zero_all_zero (a : list Z) :
  bytes a -> Js.sum a = 0 -> forall j, nth j a 0 = 0.
Proof.
  induction 1 as [|x a Hx Ha IH]; intros Hs j.
  - destruct j; reflexivity.
  - rewrite sum_cons in Hs. pose proof (sum_nonneg a Ha). unfold byte in Hx.
    destruct j; simpl; [lia|]. apply IH. lia.
Qed.

(** [Math.max] of a non-empty array is an upper bound that is attained. *)
Lemma maxFrom_ge (x : Z) (rest : list Z) :
  x <= Js.maxFrom x rest /\ forall y, In y rest -> y <= Js.maxFrom x rest.
Proof.
  revert x. induction rest as [|z rest IH]; intros x; simpl.
  - split; [lia | contradiction].
  - destruct (IH (Z.max x z)) as [H1 H2]. split; [lia|].
    intros y [<- |Hy]; [lia | now apply H2].
Qed.

Lemma maxFrom_attained (x : Z) (rest : list Z) :
  In (Js.maxFrom x rest) (x :: rest).
Proof.
  revert x. induction rest as [|z rest IH]; intros x; simpl.
  - now left.
  - destruct (IH (Z.max x z)) as [H|H].
    + destruct (Z.max_spec x z) as [[_ E]|[_ E]];
        [right; left | left]; rewrite <- H; lia.
    + right; right; exact H.
Qed.

Lemma bandPeak_ge (l : list Z) (y : Z) : In y l -> y <= Analysis.bandPeak l.
Proof.
  destruct l as [|x rest]; [contradiction|]. simpl.
  destruct (maxFrom_ge x rest) as [H1 H2]. intros [<- |Hy]; auto.
Qed.

Lemma bandPeak_attained (l : list Z) : l <> [] -> In (Analysis.bandPeak l) l.
Proof.
  destruct l as [|x rest]; [congruence|]. intros _. apply maxFrom_attained.
Qed.

Lemma bandPeak_byte (l : list Z) : bytes l -> byte (Analysis.bandPeak l).
Proof.
  intros H. destruct l as [|x rest]; [unfold byte; simpl; lia|].
  unfold bytes in H. rewrite Forall_forall in H. apply H.
  apply bandPeak_attained. discriminate.
Qed.

Lemma bandPeak_zero_iff (l : list Z) :
  bytes l -> (Analysis.bandPeak l = 0 <-> forall y, In y l -> y = 0).
Proof.
  intros H. unfold bytes in H. rewrite Forall_forall in H. split.
  - intros E y Hy. pose proof (bandPeak_ge l y Hy). specialize (H y Hy).
    unfold byte in H. lia.
  - intros Hz. destruct l as [|x rest]; [reflexivity|].
    apply Hz. apply bandPeak_attained. discriminate.
Qed.

(** Between the first and the last of a chain of boundaries every index
    falls into one of its intervals. *)
Lemma chain_interval (f : nat -> Z) (n : nat) (j : Z) :
  f 0%nat <= j < f n -> exists i, (i < n)%nat /\ f i <= j < f (S i).
Proof.
  induction n as [|n IH]; intros H; [lia|].
  destruct (Z_lt_le_dec j (f n)) as [Hlt|Hge].
  - destruct IH as [i [Hi Hj]]; [lia|]. exists i. split; [lia | exact Hj].
  - exists n. split; [lia | lia].
Qed.

End SliceFacts.

Section LogSpaceFacts.

Local Open Scope R_scope.

Lemma exp_INR_mult (n : nat) (x : R) : exp (INR n * x) = exp x ^ n.
Proof.
  induction n as [|n IH].
  - simpl. rewrite Rmult_0_l. apply exp_0.
  - rewrite S_INR, Rmult_plus_distr_r, Rmult_1_l, exp_plus, IH. simpl. ring.
Qed.

(** Powers are strictly monotone on the non-negative reals, read backwards. *)
Lemma pow_lt_inv (a b : R) (n : nat) : 0 <= b -> a ^ n < b ^ n -> a < b.
Proof.
  intros Hb H. destruct (Rlt_le_dec a b) as [|Hba]; [assumption|].
  exfalso. apply (Rlt_irrefl (a ^ n)).
  eapply Rlt_le_trans; [exact H|]. apply pow_incr. split; assumption.
Qed.

Lemma pow_le_inv (a b : R) (n : nat) : 0 < b -> a ^ n <= b ^ n -> (0 < n)%nat -> a <= b.
Proof.
  intros Hb H Hn. destruct (Rle_lt_dec a b) as [|Hba]; [assumption|].
  exfalso. apply (Rlt_irrefl (a ^ n)).
  eapply Rle_lt_trans; [exact H|].
  destruct n as [|n]; [lia|].
  clear H Hn. induction n as [|n IH].
  - simpl. lra.
  - change (b ^ S (S n)) with (b * b ^ S n). change (a ^ S (S n)) with (a * a ^ S n).
    assert (0 < b ^ S n) by (apply pow_lt; assumption).
    nra.
Qed.

(** The real point before rounding, for [start = 1]: its eighth power is an
    integer power of [end]. *)
Lemma logPoint_pow8 (e : R) (i : nat) :
  0 < e -> exp (ln 1 + (ln e - ln 1) / (INR 9 - 1) * INR i) ^ 8 = e ^ i.
Proof.
  intros He. rewrite <- exp_INR_mult, ln_1.
  replace (INR 8 * (0 + (ln e - 0) / (INR 9 - 1) * INR i)) with (INR i * ln e).
  - rewrite exp_INR_mult, exp_ln by assumption. reflexivity.
  - simpl INR. field; lra.
Qed.

Lemma round_eq (x : R) (k : Z) :
  IZR k - / 2 <= x < IZR k + / 2 -> Js.round x = k.
Proof. intros H. unfold Js.round. apply Zfloor_eq. lra. Qed.

(** A positive real whose eighth power lies between the eighth powers of
    [k - 1/2] and [k + 1/2] rounds to [k]. *)
Lemma round_by_pow8 (y : R) (k : Z) :
  0 < y -> (1 <= k)%Z ->
  (IZR k - / 2) ^ 8 <= y ^ 8 < (IZR k + / 2) ^ 8 -> Js.round y = k.
Proof.
  intros Hy Hk [Hlo Hhi]. apply round_eq.
  assert (1 <= IZR k) by (apply IZR_le in Hk; exact Hk).
  split.
  - apply (pow_le_inv _ _ 8); [assumption | assumption | lia].
  - apply (pow_lt_inv _ _ 8); [lra | assumption].
Qed.

Lemma logSpace_1_800 :
  Analysis.logSpace 1 800 9 = [1; 2; 5; 12; 28; 65; 150; 347; 800]%Z.
Proof.
  unfold Analysis.logSpace. cbn [seq map].
  repeat f_equal;
    (apply round_by_pow8; [apply exp_pos | lia | rewrite logPoint_pow8 by lra; lra]).
Qed.

(** The unrounded points stay within 0.43 of the integers they round to: an
    evaluation of [Math.log] and [Math.exp] in double precision, whose error
    is far below 0.07, rounds to the same boundaries. *)
Lemma logSpace_margin (i : nat) :
  (i <= 8)%nat ->
  Rabs (exp (ln 1 + (ln 800 - ln 1) / (INR 9 - 1) * INR i)
        - IZR (nth i fixedBoundaries 0%Z)) <= 0.43.
Proof.
  intros Hi.
  assert (H : forall k : R, 1 <= k ->
            (k - 0.43) ^ 8 <= 800 ^ i <= (k + 0.43) ^ 8 ->
            Rabs (exp (ln 1 + (ln 800 - ln 1) / (INR 9 - 1) * INR i) - k) <= 0.43).
  { intros k Hk [Hlo Hhi]. rewrite <- (logPoint_pow8 800 i) in Hlo, Hhi by lra.
    pose proof (exp_pos (ln 1 + (ln 800 - ln 1) / (INR 9 - 1) * INR i)) as Hy.
    set (y := exp _) in *.
    apply Rabs_le. split.
    - apply (pow_le_inv (k - 0.43) y 8) in Hlo; [lra | assumption | lia].
    - apply (pow_le_inv y (k + 0.43) 8) in Hhi; [lra | lra | lia]. }
  do 9 (destruct i as [|i]; [apply H; simpl; lra|]). lia.
Qed.

End LogSpaceFacts.

(* ------------------------------------------------------------------ *)
(** ** The band boundaries in general *)

Section BoundaryFacts.

Local Open Scope R_scope.

Lemma ln_nonneg (x : R) : 1 <= x -> 0 <= ln x.
Proof.
  intros [H| <-]; [|rewrite ln_1; lra].
  rewrite <- ln_1. left. apply ln_increasing; lra.
Qed.

Lemma exp_le (x y : R) : x <= y -> exp x <= exp y.
Proof. intros [H| ->]; [left; now apply exp_increasing | lra]. Qed.

Lemma round_le (x y : R) : x <= y -> (Js.round x <= Js.round y)%Z.
Proof. intros H. unfold Js.round. apply Zfloor_le. lra. Qed.

Lemma round_IZR (k : Z) : Js.round (IZR k) = k.
Proof. apply round_eq. lra. Qed.

Lemma length_logSpace (s e : R) (n : nat) : length (Analysis.logSpace s e n) = n.
Proof. unfold Analysis.logSpace. now rewrite length_map, length_seq. Qed.

Lemma nth_logSpace (s e : R) (n i : nat) :
  (i < n)%nat ->
  nth i (Analysis.logSpace s e n) 0%Z =
  Js.round (exp (ln s + (ln e - ln s) / (INR n - 1) * INR i)).
Proof.
  intros Hi. unfold Analysis.logSpace.
  rewrite (nth_indep _ 0%Z (Js.round (exp (ln s + (ln e - ln s) / (INR n - 1) * INR 0%nat)))).
  - rewrite (map_nth (fun i : nat =>
      Js.round (exp (ln s + (ln e - ln s) / (INR n - 1) * INR i)))).
    now rewrite seq_nth.
  - now rewrite length_map, length_seq.
Qed.

Lemma logSpace_boundaries_ok (E : Z) :
  (1 <= E)%Z -> boundaries_ok (Analysis.logSpace 1 (IZR E) 9) E.
Proof.
  intros HE. assert (H1 : 1 <= IZR E) by (apply IZR_le in HE; exact HE).
  assert (Hln := ln_nonneg _ H1).
  split; [apply length_logSpace|]. split; [|split].
  - rewrite nth_logSpace by lia. simpl INR.
    replace (ln 1 + (ln (IZR E) - ln 1) / (1 + 1 + 1 + 1 + 1 + 1 + 1 + 1 + 1 - 1) * 0)
      with 0 by (rewrite ln_1; field).
    rewrite exp_0. apply (round_IZR 1).
  - rewrite nth_logSpace by lia. simpl INR.
    replace (ln 1 + (ln (IZR E) - ln 1) / (1 + 1 + 1 + 1 + 1 + 1 + 1 + 1 + 1 - 1)
                    * (1 + 1 + 1 + 1 + 1 + 1 + 1 + 1))
      with (ln (IZR E)) by (rewrite ln_1; field).
    rewrite exp_ln by lra. apply round_IZR.
  - intros i Hi. rewrite !nth_logSpace by lia.
    apply round_le, exp_le.
    assert (Hd : 0 <= (ln (IZR E) - ln 1) / (INR 9 - 1)).
    { apply Rmult_le_pos; [rewrite ln_1; lra|].
      left. apply Rinv_0_lt_compat. simpl INR. lra. }
    set (d := (ln (IZR E) - ln 1) / (INR 9 - 1)) in *.
    rewrite (S_INR i).
    nra.
Qed.

Lemma boundaries_ok_range (bb : list Z) (E : Z) (i : nat) :
  boundaries_ok bb E -> (i <= 8)%nat -> (1 <= nth i bb 0 <= E)%Z.
Proof.
  intros (_ & H0 & H8 & Hmono) Hi.
  assert (Hup : forall k, (k <= 8)%nat -> (1 <= nth k bb 0)%Z).
  { induction k as [|k IH]; intros Hk; [lia|].
    specialize (Hmono k ltac:(lia)). specialize (IH ltac:(lia)). lia. }
  assert (Hdown : forall k, (k <= 8)%nat -> (nth (8 - k) bb 0 <= E)%Z).
  { induction k as [|k IH]; intros Hk; [simpl; lia|].
    specialize (Hmono (8 - S k)%nat ltac:(lia)). specialize (IH ltac:(lia)).
    replace (S (8 - S k)) with (8 - k)%nat in Hmono by lia. lia. }
  split; [now apply Hup|].
  replace i with (8 - (8 - i))%nat by lia. apply Hdown. lia.
Qed.

End BoundaryFacts.

(* ------------------------------------------------------------------ *)
(** ** getFrequencyBands *)

Section BandFacts.

Local Open Scope Z_scope.

Import Analysis.

Lemma map_seq_zeros (f : nat -> Z) (n s : nat) :
  map f (seq s n) = Js.zeros n <-> forall i, (s <= i < s + n)%nat -> f i = 0.
Proof.
  revert s. induction n as [|n IH]; intros s; simpl.
  - split; [intros _ i Hi; lia | reflexivity].
  - unfold Js.zeros in *. simpl. split.
    + intros H. injection H as H0 Ht. pose proof (proj1 (IH (S s)) Ht) as Hr.
      intros i Hi. destruct (Nat.eq_dec i s) as [->|]; [exact H0|]. apply Hr. lia.
    + intros H. f_equal; [apply H; lia|].
      apply (proj2 (IH (S s))). intros i Hi. apply H. lia.
Qed.

Lemma signal_nonempty (dataArray : list Z) :
  0 < Js.sum dataArray -> 1 <= endBin dataArray.
Proof.
  unfold endBin. destruct dataArray; [unfold Js.sum; simpl; lia|]. simpl length. lia.
Qed.

Lemma bandBoundaries_ok (dataArray : list Z) :
  1 <= endBin dataArray -> boundaries_ok (bandBoundaries dataArray) (endBin dataArray).
Proof. intros H. exact (logSpace_boundaries_ok (endBin dataArray) H). Qed.

Lemma endBin_le_length (dataArray : list Z) :
  endBin dataArray <= Z.of_nat (length dataArray).
Proof. unfold endBin. lia. Qed.

(** With well-formed boundaries the loop reads, for band [i], exactly the
    bins between boundary [i] and boundary [i + 1]. *)
Lemma bandValue_bins (bb dataArray : list Z) (i : nat) :
  boundaries_ok bb (endBin dataArray) -> 1 <= endBin dataArray -> (i < 8)%nat ->
  bandValue bb (Js.slice dataArray startBin (endBin dataArray)) i =
  bandPeak (bandBins bb dataArray i).
Proof.
  intros Hok HE Hi. unfold bandValue, bandBins, startBin.
  pose proof (boundaries_ok_range bb _ i Hok ltac:(lia)).
  pose proof (boundaries_ok_range bb _ (S i) Hok ltac:(lia)).
  destruct Hok as (_ & _ & _ & Hmono). specialize (Hmono i Hi).
  pose proof (endBin_le_length dataArray).
  rewrite slice_slice by lia. reflexivity.
Qed.

Lemma frequencyBands_signal (dataArray : list Z) :
  0 < Js.sum dataArray ->
  frequencyBands dataArray =
  map (fun i => bandPeak (bandBins (bandBoundaries dataArray) dataArray i)) (seq 0 8).
Proof.
  intros Hs. unfold frequencyBands.
  destruct (Z.ltb_spec 0 (Js.sum dataArray)); [|lia].
  apply map_ext_in. intros i Hi. apply in_seq in Hi.
  apply bandValue_bins; [| now apply signal_nonempty | unfold totalBands in Hi; lia].
  apply bandBoundaries_ok. now apply signal_nonempty.
Qed.

Lemma length_frequencyBands (dataArray : list Z) :
  length (frequencyBands dataArray) = 8%nat.
Proof.
  unfold frequencyBands. destruct (0 <? Js.sum dataArray).
  - now rewrite length_map, length_seq.
  - apply repeat_length.
Qed.

Lemma bytes_frequencyBands (dataArray : list Z) :
  bytes dataArray -> bytes (frequencyBands dataArray).
Proof.
  intros Hb. unfold frequencyBands. destruct (0 <? Js.sum dataArray).
  - unfold bytes. apply Forall_map, Forall_forall. intros i _.
    unfold bandValue. apply bandPeak_byte, bytes_slice, bytes_slice, Hb.
  - apply bytes_zeros.
Qed.

(** The bands are all zero exactly when the sampled bins, [1 <= j < endBin],
    are all zero. *)
Lemma frequencyBands_zero_iff (dataArray : list Z) :
  bytes dataArray ->
  frequencyBands dataArray = Js.zeros 8 <->
  forall j, 1 <= j < endBin dataArray -> nth (Z.to_nat j) dataArray 0 = 0.
Proof.
  intros Hb. destruct (Z.ltb_spec 0 (Js.sum dataArray)) as [Hs|Hs].
  - rewrite frequencyBands_signal by assumption.
    pose proof (signal_nonempty _ Hs) as HE.
    pose proof (bandBoundaries_ok _ HE) as Hok.
    pose proof (endBin_le_length dataArray) as Hlen.
    rewrite map_seq_zeros. split.
    + intros H j Hj.
      destruct (chain_interval (fun i => nth i (bandBoundaries dataArray) 0) 8 j)
        as [i [Hi Hij]].
      { destruct Hok as (_ & H0 & H8 & _). cbv beta. lia. }
      cbv beta in Hij. specialize (H i ltac:(lia)).
      pose proof (boundaries_ok_range _ _ i Hok ltac:(lia)).
      pose proof (boundaries_ok_range _ _ (S i) Hok ltac:(lia)).
      rewrite bandPeak_zero_iff in H by (apply bytes_slice, Hb).
      apply H. unfold bandBins. apply in_slice; [lia | lia |]. exists j. split; [lia | reflexivity].
    + intros H i Hi.
      pose proof (boundaries_ok_range _ _ i Hok ltac:(lia)).
      pose proof (boundaries_ok_range _ _ (S i) Hok ltac:(lia)).
      assert (Hm : nth i (bandBoundaries dataArray) 0 <= nth (S i) (bandBoundaries dataArray) 0).
      { destruct Hok as (_ & _ & _ & Hmono). apply Hmono. lia. }
      apply bandPeak_zero_iff; [apply bytes_slice, Hb|].
      intros y Hy. unfold bandBins in Hy. apply in_slice in Hy; [|lia|lia].
      destruct Hy as [j [Hj <-]]. apply H. lia.
  - assert (Hz : Js.sum dataArray = 0) by (pose proof (sum_nonneg _ Hb); lia).
    unfold frequencyBands. destruct (Z.ltb_spec 0 (Js.sum dataArray)); [lia|].
    split; [|reflexivity]. intros _ j _. now apply sum_zero_all_zero.
Qed.

End BandFacts.

Section FixedConfiguration.

Local Open Scope Z_scope.

Import Analysis.

Lemma endBin_800 (dataArray : list Z) :
  (800 <= length dataArray)%nat -> endBin dataArray = 800.
Proof. unfold endBin. lia. Qed.

Lemma bandBoundaries_fixed (dataArray : list Z) :
  (800 <= length dataArray)%nat -> bandBoundaries dataArray = fixedBoundaries.
Proof.
  intros H. unfold bandBoundaries. rewrite endBin_800 by assumption.
  exact logSpace_1_800.
Qed.

(** [getFrequencyBands] with the boundaries evaluated: an executable form. *)
Lemma frequencyBands_eval (dataArray : list Z) :
  (800 <= length dataArray)%nat ->
  frequencyBands dataArray =
  if 0 <? Js.sum dataArray
  then map (bandValue fixedBoundaries (Js.slice dataArray 1 800)) (seq 0 8)
  else Js.zeros 8.
Proof.
  intros H. unfold frequencyBands.
  rewrite bandBoundaries_fixed, endBin_800 by assumption. reflexivity.
Qed.

Lemma nth_map_seq (f : nat -> Z) (n i : nat) :
  (i < n)%nat -> nth i (map f (seq 0 n)) 0 = f i.
Proof.
  intros Hi. rewrite (nth_indep _ 0 (f 0%nat)) by now rewrite length_map, length_seq.
  rewrite (map_nth f). now rewrite seq_nth.
Qed.

(** Band [i] is the peak of the bins between its two boundaries: an upper
    bound of all of them that one of them attains. *)
Lemma band_is_peak (dataArray : list Z) (i : nat) :
  bytes dataArray -> 1 <= endBin dataArray -> (i < 8)%nat ->
  let bb := bandBoundaries dataArray in
  nth i bb 0 < nth (S i) bb 0 ->
  let v := nth i (frequencyBands dataArray) 0 in
  (forall j, nth i bb 0 <= j < nth (S i) bb 0 -> nth (Z.to_nat j) dataArray 0 <= v) /\
  (exists j, nth i bb 0 <= j < nth (S i) bb 0 /\ nth (Z.to_nat j) dataArray 0 = v).
Proof.
  intros Hb HE Hi bb Hlt v.
  pose proof (bandBoundaries_ok _ HE) as Hok. fold bb in Hok.
  pose proof (boundaries_ok_range _ _ i Hok ltac:(lia)) as Hlo.
  pose proof (boundaries_ok_range _ _ (S i) Hok ltac:(lia)) as Hhi.
  pose proof (endBin_le_length dataArray) as Hlen.
  destruct (Z.ltb_spec 0 (Js.sum dataArray)) as [Hs|Hs].
  - assert (Hv : v = bandPeak (bandBins bb dataArray i)).
    { unfold v. rewrite frequencyBands_signal by assumption. now rewrite nth_map_seq. }
    split.
    + intros j Hj. rewrite Hv. apply bandPeak_ge. unfold bandBins.
      apply in_slice; [lia | lia |]. exists j. split; [lia | reflexivity].
    + assert (Hne : bandBins bb dataArray i <> []).
      { intros E. apply (f_equal (@length Z)) in E. unfold bandBins in E.
        apply (f_equal Z.of_nat) in E. rewrite length_slice in E by lia. cbn [length Z.of_nat] in E. lia. }
      apply bandPeak_attained in Hne. rewrite <- Hv in Hne.
      unfold bandBins in Hne. apply in_slice in Hne; [|lia|lia]. exact Hne.
  - assert (Hz : Js.sum dataArray = 0) by (pose proof (sum_nonneg _ Hb); lia).
    assert (Hv : v = 0).
    { unfold v, frequencyBands. destruct (Z.ltb_spec 0 (Js.sum dataArray)); [lia|].
      unfold Js.zeros. apply nth_repeat. }
    pose proof (sum_zero_all_zero _ Hb Hz) as Hall. rewrite Hv. split.
    + intros j _. rewrite Hall. lia.
    + exists (nth i bb 0). split; [lia | apply Hall].
Qed.

End FixedConfiguration.

(* ------------------------------------------------------------------ *)
(** ** The audio graph: cleanup and the acquisition modes *)

Section GraphFacts.

Import WebAudio AudioProcessor.

Lemma filter_twice {A : Type} (f g : A -> bool) (l : list A) :
  filter f (filter g (filter f (filter g l))) = filter f (filter g l).
Proof.
  induction l as [|a l IH]; [reflexivity|].
  simpl. destruct (g a) eqn:Eg; simpl; [|exact IH].
  destruct (f a) eqn:Ef; simpl; [|exact IH].
  rewrite Eg. simpl. rewrite Ef. now rewrite IH.
Qed.

Lemma filter_idem {A : Type} (f : A -> bool) (l : list A) :
  filter f (filter f l) = filter f l.
Proof.
  induction l as [|a l IH]; [reflexivity|].
  simpl. destruct (f a) eqn:Ef; simpl; [rewrite Ef; now rewrite IH | exact IH].
Qed.

(** After [cleanup] the data array is gone, and so are the handles of the
    microphone stream, the main oscillator and the microphone source node. *)
Lemma cleanup_fields (w : World) :
  dataArray (this (cleanup w)) = None /\
  microphoneStream (this (cleanup w)) = None /\
  oscillator (this (cleanup w)) = None /\
  sourceNode (this (cleanup w)) = None.
Proof.
  unfold cleanup.
  destruct (match microphoneStream (this w) with Some _ => _ | None => _ end) as [? g1].
  destruct (match oscillator (this w) with Some _ => _ | None => _ end) as [? g2].
  destruct (match sourceNode (this w) with Some _ => _ | None => _ end) as [? g3].
  destruct (match mediaElementSource (this w) with Some _ => _ | None => _ end) as [? g4].
  destruct (match analyser (this w) with Some _ => _ | None => _ end) as [? g5].
  simpl. auto.
Qed.

(** [cleanup] can be called again, and on a processor that never acquired a
    source: nothing changes. *)
Lemma cleanup_idempotent (w : World) : cleanup (cleanup w) = cleanup w.
Proof.
  destruct w as [f g]. destruct f as [ctx an d ms osc src mes el].
  unfold cleanup. simpl.
  destruct (match ms with Some _ => _ | None => _ end) as [? g1].
  destruct (match osc with Some _ => _ | None => _ end) as [? g2].
  destruct (match src with Some _ => _ | None => _ end) as [? g3].
  destruct mes as [m|]; destruct an as [a|]; simpl; try reflexivity;
    unfold disconnect; simpl; do 2 f_equal.
  - apply filter_twice.
  - apply filter_idem.
  - apply filter_idem.
Qed.

Lemma cleanup_initial : cleanup initial = initial.
Proof. reflexivity. Qed.

(** Every switch succeeds and leaves exactly one connection into the
    current analyser: each acquisition creates its own analyser. *)
Lemma switch_one_input (m1 m2 : Mode) :
  fst (acquire m1 initial) = true /\ fst (switch m1 m2) = true /\
  analyserInputs (snd (switch m1 m2)) = 1%nat.
Proof. destruct m1, m2; (split; [|split]); vm_compute; reflexivity. Qed.

(** A switch to another mode releases nothing of the previous source: all
    its connections are still in the graph. *)
Lemma switch_keeps_connections (m1 m2 : Mode) :
  m1 <> m2 ->
  survivors (graph (snd (acquire m1 initial))) (graph (snd (switch m1 m2)))
  = connections (graph (snd (acquire m1 initial))).
Proof. destruct m1, m2; intros H; try congruence; vm_compute; reflexivity. Qed.

(** Starting the sample music twice routes the element through two
    analysers into the destination. *)
Lemma sample_twice_two_routes :
  inputsOf 0 (graph (snd (switch sampleMedia sampleMedia)))
  = [(1%nat, NodeInput 0); (3%nat, NodeInput 0)] /\
  In (2%nat, NodeInput 1) (connections (graph (snd (switch sampleMedia sampleMedia)))) /\
  In (2%nat, NodeInput 3) (connections (graph (snd (switch sampleMedia sampleMedia)))).
Proof.
  split; [vm_compute; reflexivity|].
  split; vm_compute; tauto.
Qed.

(** *** A small program logic for the platform calls *)

Lemma hoare_bind {A B : Type} (P : Graph -> Prop) (m : M A)
    (Q : A -> Graph -> Prop) (k : A -> M B) (R : B -> Graph -> Prop) :
  hoare P m Q -> (forall a, hoare (Q a) (k a) R) -> hoare P (bind m k) R.
Proof.
  unfold hoare. intros Hm Hk g Hp. unfold bind. specialize (Hm g Hp).
  destruct (m g) as [a g']. exact (Hk a g' Hm).
Qed.

Lemma hoare_ret {A : Type} (P : A -> Graph -> Prop) (a : A) :
  hoare (P a) (ret a) P.
Proof. unfold hoare. intros g Hp. exact Hp. Qed.

Lemma hoare_consequence {A : Type} (P P' : Graph -> Prop) (m : M A)
    (Q Q' : A -> Graph -> Prop) :
  hoare P' m Q' -> (forall g, P g -> P' g) -> (forall a g, Q' a g -> Q a g) ->
  hoare P m Q.
Proof. unfold hoare. intros H HP HQ g Hp. apply HQ, H, HP, Hp. Qed.

Lemma hoare_pure {A : Type} (F : Prop) (P : Graph -> Prop) (m : M A)
    (Q : A -> Graph -> Prop) :
  (F -> hoare P m Q) -> hoare (fun g => F /\ P g) m Q.
Proof. unfold hoare. intros H g [Hf Hp]. exact (H Hf g Hp). Qed.

Lemma tracked_lower (an k lo lo' : nat) (g : Graph) :
  tracked an k lo g -> an < lo' -> lo' <= lo -> tracked an k lo' g.
Proof. intros (H1 & H2 & H3 & H4) Ha Hl. repeat split; try assumption; lia. Qed.

Lemma input_eqb_eq (a b : input) : input_eqb a b = true <-> a = b.
Proof.
  destruct a as [n|n], b as [m|m]; simpl; rewrite ?Nat.eqb_eq;
    split; intros H; try discriminate; congruence.
Qed.

Lemma connection_eqb_eq (c d : connection) : connection_eqb c d = true <-> c = d.
Proof.
  destruct c as [a i], d as [b j]. unfold connection_eqb. simpl.
  rewrite andb_true_iff, Nat.eqb_eq, input_eqb_eq. split.
  - intros [-> ->]. reflexivity.
  - intros E. injection E as -> ->. now split.
Qed.

Lemma hoare_createNode (an k lo : nat) :
  hoare (tracked an k lo) createNode (fun r g => lo <= r /\ tracked an k (S r) g).
Proof.
  unfold hoare, tracked. intros g (H1 & H2 & H3 & H4). cbn.
  split; [exact H2|]. split; [lia|]. split; [lia|]. split; [|exact H4].
  intros c Hc. specialize (H3 c Hc). cbn. lia.
Qed.

(** A connection that ends elsewhere leaves the inputs of [an] alone. *)
Lemma hoare_connect_other (an k lo a : nat) (i : input) :
  i <> NodeInput an -> target i < lo ->
  hoare (tracked an k lo) (connect a i) (fun _ => tracked an k lo).
Proof.
  unfold hoare, tracked. intros Hi Ht g (H1 & H2 & H3 & H4). cbn.
  split; [exact H1|]. split; [exact H2|].
  destruct (existsb (connection_eqb (a, i)) (connections g));
    (split; [|unfold inputsOf in *; cbn [connections]]).
  - exact H3.
  - exact H4.
  - intros c Hc. cbn in Hc. apply in_app_or in Hc. destruct Hc as [Hc|[<- |[]]].
    + exact (H3 c Hc).
    + cbn. lia.
  - rewrite filter_app, length_app. cbn [filter snd].
    destruct (input_eqb i (NodeInput an)) eqn:E.
    + apply input_eqb_eq in E. contradiction.
    + cbn [length]. rewrite Nat.add_0_r. exact H4.
Qed.

(** The first connection into [an]. *)
Lemma hoare_connect_analyser (an lo a : nat) :
  hoare (tracked an 0 lo) (connect a (NodeInput an)) (fun _ => tracked an 1 lo).
Proof.
  unfold hoare, tracked. intros g (H1 & H2 & H3 & H4). cbn.
  assert (Hnone : existsb (connection_eqb (a, NodeInput an)) (connections g) = false).
  { destruct (existsb _ _) eqn:E; [|reflexivity].
    apply existsb_exists in E. destruct E as [c [Hc E]].
    apply connection_eqb_eq in E. subst c.
    apply length_zero_iff_nil in H4. unfold inputsOf in H4.
    assert (Hin : In (a, NodeInput an)
                     (filter (fun c => input_eqb (snd c) (NodeInput an)) (connections g))).
    { apply filter_In. split; [exact Hc|]. cbn. apply Nat.eqb_refl. }
    rewrite H4 in Hin. contradiction. }
  rewrite Hnone. split; [exact H1|]. split; [exact H2|]. split.
  - intros c Hc. cbn in Hc. apply in_app_or in Hc. destruct Hc as [Hc|[<- |[]]].
    + exact (H3 c Hc).
    + cbn. lia.
  - unfold inputsOf in *. cbn [connections]. rewrite filter_app, length_app.
    cbn [filter snd input_eqb]. rewrite Nat.eqb_refl. cbn [length].
    rewrite Nat.add_1_r. f_equal. exact H4.
Qed.

Lemma hoare_start (an k lo o : nat) :
  hoare (tracked an k lo) (start o) (fun _ => tracked an k lo).
Proof. unfold hoare. intros g H. exact H. Qed.

Lemma hoare_stop (an k lo o : nat) :
  hoare (tracked an k lo) (stop o) (fun _ => tracked an k lo).
Proof. unfold hoare. intros g H. exact H. Qed.

(** Disconnecting a node cannot give [an] an input. *)
Lemma hoare_disconnect (an lo x : nat) :
  hoare (tracked an 0 lo) (disconnect x) (fun _ => tracked an 0 lo).
Proof.
  unfold hoare, tracked. intros g (H1 & H2 & H3 & H4). cbn.
  split; [exact H1|]. split; [exact H2|]. split.
  - intros c Hc. cbn in Hc. apply filter_In in Hc. exact (H3 c (proj1 Hc)).
  - apply length_zero_iff_nil in H4. apply length_zero_iff_nil.
    unfold inputsOf in *. cbn [connections].
    destruct (filter _ (filter _ _)) as [|c l] eqn:E; [reflexivity|].
    assert (Hin : In c (c :: l)) by now left.
    rewrite <- E in Hin. apply filter_In in Hin. destruct Hin as [Hin Hp].
    apply filter_In in Hin.
    assert (Hin' : In c (filter (fun c => input_eqb (snd c) (NodeInput an)) (connections g)))
      by (apply filter_In; split; [exact (proj1 Hin) | exact Hp]).
    rewrite H4 in Hin'. contradiction.
Qed.

Lemma hoare_newTracks (an k lo n : nat) :
  hoare (tracked an k lo) (newTracks n) (fun _ => tracked an k lo).
Proof.
  induction n as [|n IH]; [apply (hoare_ret (fun _ => tracked an k lo))|].
  cbn [newTracks].
  apply (hoare_bind _ _ (fun _ => tracked an k lo)).
  - unfold hoare, tracked. intros g (H1 & H2 & H3 & H4). cbn.
    split; [exact H1|]. split; [lia|]. split; [|exact H4].
    intros c Hc. specialize (H3 c Hc). cbn. lia.
  - intros t. apply (hoare_bind _ _ (fun _ => tracked an k lo)); [exact IH|].
    intros ts. apply (hoare_ret (fun _ => tracked an k lo)).
Qed.

Lemma hoare_createMediaElementSource (an k lo e : nat) :
  hoare (tracked an k lo) (createMediaElementSource e) (fun _ => tracked an k lo).
Proof.
  unfold hoare, tracked. intros g (H1 & H2 & H3 & H4). unfold createMediaElementSource.
  destruct (existsb (Nat.eqb e) (boundElements g)); cbn.
  - auto.
  - split; [exact H1|]. split; [lia|]. split; [|exact H4].
    intros c Hc. specialize (H3 c Hc). cbn. lia.
Qed.

Lemma hoare_bankOscillator (an k lo masterGain : nat) :
  masterGain <> an -> masterGain < lo -> an < lo ->
  hoare (tracked an k lo) (bankOscillator masterGain) (fun _ => tracked an k lo).
Proof.
  intros Hne Hlt Han. unfold bankOscillator.
  eapply hoare_bind; [apply hoare_createNode|]. intros osc. apply hoare_pure. intros Hosc.
  eapply hoare_bind; [apply hoare_createNode|]. intros gain. apply hoare_pure. intros Hgain.
  apply (hoare_bind _ _ (fun _ => tracked an k (S gain))).
  { apply hoare_connect_other; [|cbn; lia]. intros E. injection E as E. lia. }
  intros _. apply (hoare_bind _ _ (fun _ => tracked an k (S gain))).
  { apply hoare_connect_other; [|cbn; lia]. intros E. injection E as E. contradiction. }
  intros _. apply (hoare_bind _ _ (fun _ => tracked an k (S gain))); [apply hoare_start|].
  intros _. unfold hoare. intros g H. cbn.
  apply (tracked_lower an k (S gain) lo); [exact H | exact Han | lia].
Qed.

Lemma hoare_oscillatorBank (an k lo masterGain n : nat) :
  masterGain <> an -> masterGain < lo -> an < lo ->
  hoare (tracked an k lo) (oscillatorBank masterGain n) (fun _ => tracked an k lo).
Proof.
  intros Hne Hlt Han. induction n as [|n IH];
    [apply (hoare_ret (fun _ => tracked an k lo))|].
  cbn [oscillatorBank].
  apply (hoare_bind _ _ (fun _ => tracked an k lo)); [now apply hoare_bankOscillator|].
  intros osc. apply (hoare_bind _ _ (fun _ => tracked an k lo)); [exact IH|].
  intros rest. apply (hoare_ret (fun _ => tracked an k lo)).
Qed.

(** The graph of the test tone gives the analyser its one input. *)
Lemma hoare_buildTestTone (an lo : nat) :
  an < lo ->
  hoare (tracked an 0 lo) (buildTestTone an) (fun _ => tracked an 1 lo).
Proof.
  intros Han. unfold buildTestTone.
  eapply hoare_bind; [apply hoare_createNode|]. intros mg. apply hoare_pure. intros Hmg.
  apply (hoare_bind _ _ (fun _ => tracked an 1 (S mg))); [apply hoare_connect_analyser|].
  intros _.
  eapply hoare_bind; [apply hoare_createNode|]. intros lfo. apply hoare_pure. intros Hlfo.
  eapply hoare_bind; [apply hoare_createNode|]. intros lfoGain. apply hoare_pure. intros Hg.
  apply (hoare_bind _ _ (fun _ => tracked an 1 (S lfoGain))).
  { apply hoare_connect_other; [|cbn; lia]. intros E. injection E as E. lia. }
  intros _. apply (hoare_bind _ _ (fun _ => tracked an 1 (S lfoGain))).
  { apply hoare_connect_other; [discriminate | cbn; lia]. }
  intros _. apply (hoare_bind _ _ (fun _ => tracked an 1 (S lfoGain))); [apply hoare_start|].
  intros _.
  apply (hoare_consequence _ (tracked an 1 (S lfoGain)) _ _ (fun _ => tracked an 1 (S lfoGain))).
  - apply hoare_oscillatorBank; lia.
  - auto.
  - intros _ g H. apply (tracked_lower an 1 (S lfoGain) lo); [exact H | exact Han | lia].
Qed.

(** *** The acquisition methods *)

(** [initAudioContext] leaves a new analyser without inputs, above the
    context, and keeps the other handles. *)
Lemma initAudioContext_spec (w : World) :
  processor_ok w ->
  exists ctx an g,
    initAudioContext w =
      (true,
       {| this :=
            {| audioContext := Some ctx; analyser := Some an;
               dataArray := Some (Js.zeros Analysis.frequencyBinCount);
               microphoneStream := microphoneStream (this w);
               oscillator := oscillator (this w);
               sourceNode := sourceNode (this w);
               mediaElementSource := mediaElementSource (this w);
               connectedAudioElement := connectedAudioElement (this w) |};
          graph := g |}) /\
    ctx < an /\ tracked an 0 (S an) g.
Proof.
  intros [Hfresh Hctx]. unfold initAudioContext.
  assert (Hnone : forall (an : nat) (g : Graph),
            targets_fresh g -> nextId g <= an -> length (inputsOf an g) = 0).
  { intros an g Hg Han. apply length_zero_iff_nil. unfold inputsOf.
    destruct (filter _ _) as [|c l] eqn:E; [reflexivity|].
    assert (Hin : In c (c :: l)) by now left.
    rewrite <- E in Hin. apply filter_In in Hin. destruct Hin as [Hin Hp].
    apply input_eqb_eq in Hp. specialize (Hg c Hin). rewrite Hp in Hg. cbn in Hg. lia. }
  destruct (audioContext (this w)) as [ctx|] eqn:Ectx.
  - specialize (Hctx ctx eq_refl). cbn.
    exists ctx, (nextId (graph w)), (snd (createNode (graph w))).
    split; [reflexivity|]. split; [exact Hctx|].
    unfold tracked. cbn. split; [lia|]. split; [lia|]. split.
    + intros c Hc. specialize (Hfresh c Hc). cbn. lia.
    + now apply (Hnone (nextId (graph w)) (graph w)).
  - cbn.
    exists (nextId (graph w)), (S (nextId (graph w))),
           (snd (createNode (snd (createNode (graph w))))).
    split; [reflexivity|]. split; [lia|].
    unfold tracked. cbn. split; [lia|]. split; [lia|]. split.
    + intros c Hc. specialize (Hfresh c Hc). cbn. lia.
    + apply (Hnone (S (nextId (graph w))) (graph w)); [exact Hfresh | lia].
Qed.

Lemma tracked_processor_ok (f : Fields) (g : Graph) (ctx an k lo : nat) :
  audioContext f = Some ctx -> ctx < an -> tracked an k lo g ->
  processor_ok {| this := f; graph := g |}.
Proof.
  intros Hf Hlt (H1 & H2 & H3 & _). split; [exact H3|].
  cbn. intros c E. rewrite Hf in E. injection E as <-. lia.
Qed.

Lemma createTestTone_ok (w : World) :
  processor_ok w ->
  fst (createTestTone w) = true /\
  analyserInputs (snd (createTestTone w)) = 1 /\
  processor_ok (snd (createTestTone w)).
Proof.
  intros Hok. destruct (initAudioContext_spec w Hok) as (ctx & an & g & E & Hlt & Htr).
  unfold createTestTone. rewrite E. cbn [negb this graph audioContext analyser oscillator].
  assert (Hg1 : forall r : unit * Graph,
            r = match oscillator (this w) with
                | Some old => (stop old;;; disconnect old) g
                | None => (tt, g)
                end -> tracked an 0 (S an) (snd r)).
  { intros r ->. destruct (oscillator (this w)) as [old|]; [|exact Htr].
    apply (hoare_bind _ _ (fun _ => tracked an 0 (S an)) _ _
             (hoare_stop an 0 (S an) old)
             (fun _ => hoare_disconnect an (S an) old) g Htr). }
  destruct (match oscillator (this w) with Some _ => _ | None => _ end) as [u g1].
  specialize (Hg1 (u, g1) eq_refl). cbn [snd] in Hg1.
  pose proof (hoare_buildTestTone an (S an) (Nat.lt_succ_diag_r an) g1 Hg1) as Hg2.
  destruct (buildTestTone an g1) as [oscillators g2]. cbn [fst snd] in *.
  split; [reflexivity|]. split.
  - unfold analyserInputs. cbn. apply Hg2.
  - now apply (tracked_processor_ok _ g2 ctx an 1 (S an)).
Qed.

Lemma requestMicrophoneAccess_ok (granted : option nat) (spectrum : list Z)
    (w : World) :
  processor_ok w ->
  processor_ok (snd (requestMicrophoneAccess granted spectrum w)) /\
  (granted <> None ->
   fst (requestMicrophoneAccess granted spectrum w) = true /\
   analyserInputs (snd (requestMicrophoneAccess granted spectrum w)) = 1).
Proof.
  intros Hok. destruct (initAudioContext_spec w Hok) as (ctx & an & g & E & Hlt & Htr).
  unfold requestMicrophoneAccess. rewrite E. cbn [negb].
  destruct granted as [n|].
  - cbn [this graph audioContext analyser sourceNode].
    pose proof (hoare_newTracks an 0 (S an) n g Htr) as Hg1.
    destruct (newTracks n g) as [stream g1]. cbn [snd] in Hg1.
    assert (Hg2 : forall r : unit * Graph,
              r = match sourceNode (this w) with
                  | Some old => disconnect old g1
                  | None => (tt, g1)
                  end -> tracked an 0 (S an) (snd r)).
    { intros r ->. destruct (sourceNode (this w)) as [old|]; [|exact Hg1].
      exact (hoare_disconnect an (S an) old g1 Hg1). }
    destruct (match sourceNode (this w) with Some _ => _ | None => _ end) as [u g2].
    specialize (Hg2 (u, g2) eq_refl). cbn [snd] in Hg2.
    pose proof (hoare_createNode an 0 (S an) g2 Hg2) as [Hsrc Hg3].
    destruct (createNode g2) as [src g3]. cbn [fst snd] in Hsrc, Hg3.
    pose proof (hoare_connect_analyser an (S src) src g3 Hg3) as Hg4.
    destruct (connect src (NodeInput an) g3) as [u' g4]. cbn [fst snd] in *.
    split; [now apply (tracked_processor_ok _ g4 ctx an 1 (S src))|].
    intros _. split; [reflexivity|]. unfold analyserInputs. cbn. apply Hg4.
  - cbn [snd]. split; [|congruence].
    now apply (tracked_processor_ok _ g ctx an 0 (S an)).
Qed.

Lemma connectAudioElement_ok (audioElement : nat) (w : World) :
  processor_ok w ->
  processor_ok (snd (connectAudioElement audioElement w)) /\
  (fst (connectAudioElement audioElement w) = true ->
   analyserInputs (snd (connectAudioElement audioElement w)) = 1).
Proof.
  intros Hok. destruct (initAudioContext_spec w Hok) as (ctx & an & g & E & Hlt & Htr).
  unfold connectAudioElement. rewrite E.
  cbn [negb this graph audioContext analyser connectedAudioElement mediaElementSource].
  assert (Hconnect : forall src g0, tracked an 0 (S an) g0 ->
            tracked an 1 (S an)
              (snd ((connect src (NodeInput an);;; connect an (NodeInput ctx)) g0))).
  { intros src g0 H0.
    assert (Hne : NodeInput ctx <> NodeInput an)
      by (intros E'; injection E' as E'; lia).
    assert (Hlo : target (NodeInput ctx) < S an) by (cbn; lia).
    exact (hoare_bind (tracked an 0 (S an)) (connect src (NodeInput an))
             (fun _ => tracked an 1 (S an)) (fun _ => connect an (NodeInput ctx))
             (fun _ => tracked an 1 (S an))
             (hoare_connect_analyser an (S an) src)
             (fun _ => hoare_connect_other an 1 (S an) an (NodeInput ctx) Hne Hlo)
             g0 H0). }
  destruct (match connectedAudioElement (this w) with
            | Some e => Nat.eqb e audioElement
            | None => false
            end); [destruct (mediaElementSource (this w)) as [src|]|].
  1: { specialize (Hconnect src g Htr).
       destruct ((connect src (NodeInput an);;; connect an (NodeInput ctx)) g) as [u g2].
       cbn [fst snd] in *. split.
       - now apply (tracked_processor_ok _ g2 ctx an 1 (S an)).
       - intros _. unfold analyserInputs. cbn. apply Hconnect. }
  all: pose proof (hoare_createMediaElementSource an 0 (S an) audioElement g Htr) as Hg1;
    destruct (createMediaElementSource audioElement g) as [[src'|] g1]; cbn [snd] in Hg1;
    [ specialize (Hconnect src' g1 Hg1);
      destruct ((connect src' (NodeInput an);;; connect an (NodeInput ctx)) g1) as [u g2];
      cbn [fst snd] in *; split;
      [ now apply (tracked_processor_ok _ g2 ctx an 1 (S an))
      | intros _; unfold analyserInputs; cbn; apply Hconnect ]
    | cbn [fst snd]; split; [|discriminate];
      now apply (tracked_processor_ok _ g1 ctx an 0 (S an)) ].
Qed.

Lemma stopTracks_graph (ts : list nat) (g : Graph) :
  nextId (snd (stopTracks ts g)) = nextId g /\
  connections (snd (stopTracks ts g)) = connections g.
Proof.
  revert g. induction ts as [|t ts IH]; intros g; [split; reflexivity|].
  cbn [stopTracks]. unfold bind.
  assert (Hst : nextId (snd (stopTrack t g)) = nextId g /\
                connections (snd (stopTrack t g)) = connections g)
    by (split; reflexivity).
  destruct (stopTrack t g) as [u g']. cbn [snd] in Hst.
  destruct (IH g') as [H1 H2]. destruct Hst as [H3 H4]. split; congruence.
Qed.

Lemma cleanup_ok (w : World) : processor_ok w -> processor_ok (cleanup w).
Proof.
  intros [Hfresh Hctx]. unfold cleanup.
  assert (Hkeep : forall g' : Graph,
            nextId g' = nextId (graph w) ->
            (forall c, In c (connections g') -> In c (connections (graph w))) ->
            targets_fresh g').
  { intros g' Hn Hc c Hin. rewrite Hn. apply Hfresh, Hc, Hin. }
  assert (H1 : forall r : unit * Graph,
            r = match microphoneStream (this w) with
                | Some tracks => stopTracks tracks (graph w)
                | None => (tt, graph w)
                end ->
            nextId (snd r) = nextId (graph w) /\
            forall c, In c (connections (snd r)) -> In c (connections (graph w))).
  { intros r ->. destruct (microphoneStream (this w)) as [ts|]; [|now split].
    destruct (stopTracks_graph ts (graph w)) as [Hn Hc]. split; [exact Hn|].
    intros c Hin. now rewrite Hc in Hin. }
  destruct (match microphoneStream (this w) with Some _ => _ | None => _ end) as [u1 g1].
  destruct (H1 (u1, g1) eq_refl) as [Hn1 Hc1]. cbn [snd] in Hn1, Hc1.
  set (g2 := snd (match oscillator (this w) with
                  | Some osc => (stop osc;;; disconnect osc) g1
                  | None => (tt, g1)
                  end)).
  assert (H2 : nextId g2 = nextId g1 /\
               forall c, In c (connections g2) -> In c (connections g1)).
  { unfold g2. destruct (oscillator (this w)); [|now split].
    cbn. split; [reflexivity|]. intros c Hin. apply filter_In in Hin. apply Hin. }
  destruct (match oscillator (this w) with Some _ => _ | None => _ end) as [u2 g2'].
  cbn [snd] in g2. subst g2. destruct H2 as [Hn2 Hc2].
  set (g3 := snd (match sourceNode (this w) with
                  | Some src => disconnect src g2'
                  | None => (tt, g2')
                  end)).
  assert (H3 : nextId g3 = nextId g2' /\
               forall c, In c (connections g3) -> In c (connections g2')).
  { unfold g3. destruct (sourceNode (this w)); [|now split].
    cbn. split; [reflexivity|]. intros c Hin. apply filter_In in Hin. apply Hin. }
  destruct (match sourceNode (this w) with Some _ => _ | None => _ end) as [u3 g3'].
  cbn [snd] in g3. subst g3. destruct H3 as [Hn3 Hc3].
  set (g4 := snd (match mediaElementSource (this w) with
                  | Some src => disconnect src g3'
                  | None => (tt, g3')
                  end)).
  assert (H4 : nextId g4 = nextId g3' /\
               forall c, In c (connections g4) -> In c (connections g3')).
  { unfold g4. destruct (mediaElementSource (this w)); [|now split].
    cbn. split; [reflexivity|]. intros c Hin. apply filter_In in Hin. apply Hin. }
  destruct (match mediaElementSource (this w) with Some _ => _ | None => _ end) as [u4 g4'].
  cbn [snd] in g4. subst g4. destruct H4 as [Hn4 Hc4].
  set (g5 := snd (match analyser (this w) with
                  | Some an => disconnect an g4'
                  | None => (tt, g4')
                  end)).
  assert (H5 : nextId g5 = nextId g4' /\
               forall c, In c (connections g5) -> In c (connections g4')).
  { unfold g5. destruct (analyser (this w)); [|now split].
    cbn. split; [reflexivity|]. intros c Hin. apply filter_In in Hin. apply Hin. }
  destruct (match analyser (this w) with Some _ => _ | None => _ end) as [u5 g5'].
  cbn [snd] in g5. subst g5. destruct H5 as [Hn5 Hc5].
  split; cbn [graph this audioContext].
  - apply Hkeep; [congruence|].
    intros c Hin. apply Hc1, Hc2, Hc3, Hc4, Hc5, Hin.
  - intros c Hc. specialize (Hctx c Hc). congruence.
Qed.

(** Invariant of the reachable states. *)
Lemma reachable_processor_ok (w : World) : reachable w -> processor_ok w.
Proof.
  induction 1 as [| granted spectrum w _ IH _ | w _ IH | e w _ IH | w _ IH
                  | spectrum w _ IH _ | spectrum w _ IH _].
  - split; [intros c []|]. intros c E. discriminate E.
  - now apply requestMicrophoneAccess_ok.
  - now apply createTestTone_ok.
  - now apply connectAudioElement_ok.
  - now apply cleanup_ok.
  - unfold getFrequencyData.
    destruct (analyser (this w)); [|exact IH].
    destruct (dataArray (this w)); [|exact IH]. exact IH.
  - unfold getFrequencyBands.
    destruct (dataArray (this w)); [|exact IH].
    destruct (analyser (this w)); [|exact IH]. exact IH.
Qed.

End GraphFacts.

(* ------------------------------------------------------------------ *)
(** ** The method [getFrequencyBands] on a processor *)

Section MethodFacts.

Import WebAudio AudioProcessor.

(** The analyser reports as many bins as the data array holds, so the
    refreshed array is the reported spectrum. *)
Lemma getByteFrequencyData_full (spectrum array : list Z) :
  length array = length spectrum -> getByteFrequencyData spectrum array = spectrum.
Proof.
  intros H. unfold getByteFrequencyData.
  rewrite H, firstn_all, <- H, skipn_all. apply app_nil_r.
Qed.

Lemma getFrequencyBands_active (w : World) (spectrum : list Z) :
  analyser (this w) <> None -> dataArray (this w) <> None ->
  (forall d, dataArray (this w) = Some d -> length d = length spectrum) ->
  fst (getFrequencyBands spectrum w) = Analysis.frequencyBands spectrum.
Proof.
  intros Han Hd Hlen. unfold getFrequencyBands.
  destruct (dataArray (this w)) as [d|]; [|congruence].
  destruct (analyser (this w)); [|congruence].
  cbn [fst]. now rewrite getByteFrequencyData_full by now apply Hlen.
Qed.

Lemma getFrequencyBands_cases (w : World) (spectrum : list Z) :
  (forall d, dataArray (this w) = Some d -> length d = length spectrum) ->
  fst (getFrequencyBands spectrum w) = Analysis.frequencyBands spectrum \/
  fst (getFrequencyBands spectrum w) = Js.zeros 8.
Proof.
  intros Hlen. unfold getFrequencyBands.
  destruct (dataArray (this w)) as [d|]; [|now right].
  destruct (analyser (this w)); [|now right].
  left. cbn [fst]. now rewrite getByteFrequencyData_full by now apply Hlen.
Qed.

Lemma toneWorld_active :
  analyser (this toneWorld) <> None /\ dataArray (this toneWorld) <> None /\
  forall d, dataArray (this toneWorld) = Some d -> length d = 1024%nat.
Proof.
  split; [vm_compute; discriminate|]. split; [vm_compute; discriminate|].
  intros d H. vm_compute in H. injection H as <-. reflexivity.
Qed.

Lemma getByteFrequencyData_ok (spectrum array : list Z) :
  spectrum_ok spectrum -> spectrum_ok array ->
  getByteFrequencyData spectrum array = spectrum.
Proof.
  intros [Hs _] [Ha _]. apply getByteFrequencyData_full. congruence.
Qed.

Lemma initAudioContext_dataArray (w : World) :
  dataArray (this (snd (initAudioContext w))) =
  Some (Js.zeros Analysis.frequencyBinCount).
Proof.
  unfold initAudioContext.
  destruct (match audioContext (this w) with Some _ => _ | None => _ end) as [ctx g1].
  destruct (createNode g1) as [an g2]. reflexivity.
Qed.

Lemma zeros_ok : spectrum_ok (Js.zeros Analysis.frequencyBinCount).
Proof. split; [apply repeat_length | apply bytes_zeros]. Qed.

(** The acquisition methods leave the data array of [initAudioContext], or
    that array refreshed by the analyser. *)
Lemma requestMicrophoneAccess_dataArray (granted : option nat)
    (spectrum : list Z) (w : World) :
  spectrum_ok spectrum ->
  dataArray_ok (snd (requestMicrophoneAccess granted spectrum w)).
Proof.
  intros Hs d. unfold requestMicrophoneAccess.
  pose proof (initAudioContext_dataArray w) as Hi.
  destruct (initAudioContext w) as [ok w1]. cbn [snd] in Hi.
  destruct ok; cbn [negb].
  - destruct granted as [n|].
    + destruct (newTracks n (graph w1)) as [stream g1].
      destruct (audioContext (this w1)); [destruct (analyser (this w1))|].
      * destruct (match sourceNode (this w1) with Some _ => _ | None => _ end) as [? g2].
        destruct (createNode g2) as [src g3].
        destruct (connect src (NodeInput n1) g3) as [? g4].
        cbn [snd this dataArray]. rewrite Hi. cbn [option_map].
        intros E. injection E as <-.
        rewrite getByteFrequencyData_ok by (assumption || apply zeros_ok). exact Hs.
      * cbn [snd this dataArray]. rewrite Hi. intros E. injection E as <-. apply zeros_ok.
      * cbn [snd this dataArray]. rewrite Hi. intros E. injection E as <-. apply zeros_ok.
    + cbn [snd]. rewrite Hi. intros E. injection E as <-. apply zeros_ok.
  - cbn [snd]. rewrite Hi. intros E. injection E as <-. apply zeros_ok.
Qed.

Lemma createTestTone_dataArray (w : World) :
  dataArray_ok (snd (createTestTone w)).
Proof.
  intros d. unfold createTestTone.
  pose proof (initAudioContext_dataArray w) as Hi.
  destruct (initAudioContext w) as [ok w1]. cbn [snd] in Hi.
  destruct ok; cbn [negb];
    [|cbn [snd]; rewrite Hi; intros E; injection E as <-; apply zeros_ok].
  destruct (audioContext (this w1)); [destruct (analyser (this w1))|];
    try (cbn [snd]; rewrite Hi; intros E; injection E as <-; apply zeros_ok).
  destruct (match oscillator (this w1) with Some _ => _ | None => _ end) as [? g1].
  destruct (buildTestTone n0 g1) as [oscillators g2].
  cbn [snd this dataArray]. rewrite Hi. intros E. injection E as <-. apply zeros_ok.
Qed.

Lemma connectAudioElement_dataArray (audioElement : nat) (w : World) :
  dataArray_ok (snd (connectAudioElement audioElement w)).
Proof.
  intros d. unfold connectAudioElement.
  pose proof (initAudioContext_dataArray w) as Hi.
  destruct (initAudioContext w) as [ok w1]. cbn [snd] in Hi.
  destruct ok; cbn [negb];
    [|cbn [snd]; rewrite Hi; intros E; injection E as <-; apply zeros_ok].
  destruct (audioContext (this w1)); [destruct (analyser (this w1))|];
    try (cbn [snd]; rewrite Hi; intros E; injection E as <-; apply zeros_ok).
  destruct (match connectedAudioElement (this w1) with Some _ => _ | None => _ end);
    [destruct (mediaElementSource (this w1))|].
  - destruct ((connect n1 (NodeInput n0);;; connect n0 (NodeInput n)) (graph w1)) as [? g1].
    cbn [snd this]. rewrite Hi. intros E. injection E as <-. apply zeros_ok.
  - destruct (createMediaElementSource audioElement (graph w1)) as [[src|] g1].
    + destruct ((connect src (NodeInput n0);;; connect n0 (NodeInput n)) g1) as [? g2].
      cbn [snd this dataArray]. rewrite Hi. intros E. injection E as <-. apply zeros_ok.
    + cbn [snd this]. rewrite Hi. intros E. injection E as <-. apply zeros_ok.
  - destruct (createMediaElementSource audioElement (graph w1)) as [[src|] g1].
    + destruct ((connect src (NodeInput n0);;; connect n0 (NodeInput n)) g1) as [? g2].
      cbn [snd this dataArray]. rewrite Hi. intros E. injection E as <-. apply zeros_ok.
    + cbn [snd this]. rewrite Hi. intros E. injection E as <-. apply zeros_ok.
Qed.

(** Invariant of the reachable states. *)
Lemma reachable_dataArray (w : World) : reachable w -> dataArray_ok w.
Proof.
  induction 1 as [| granted spectrum w _ _ Hs | w _ _ | e w _ _ | w _ _
                  | spectrum w _ IH Hs | spectrum w _ IH Hs].
  - intros d E. discriminate E.
  - now apply requestMicrophoneAccess_dataArray.
  - apply createTestTone_dataArray.
  - apply connectAudioElement_dataArray.
  - intros d E. rewrite (proj1 (cleanup_fields w)) in E. discriminate E.
  - intros d. unfold getFrequencyData.
    destruct (analyser (this w)); [|apply IH].
    destruct (dataArray (this w)) as [d0|] eqn:Ed; [|cbn [snd]; rewrite Ed; discriminate].
    cbn [snd this dataArray]. intros E. injection E as <-.
    rewrite getByteFrequencyData_ok by (assumption || now apply IH). exact Hs.
  - intros d. unfold getFrequencyBands.
    destruct (dataArray (this w)) as [d0|] eqn:Ed; [|cbn [snd]; rewrite Ed; discriminate].
    destruct (analyser (this w)); [|cbn [snd]; rewrite Ed; intros E; injection E as <-; now apply IH].
    cbn [snd this dataArray]. intros E. injection E as <-.
    rewrite getByteFrequencyData_ok by (assumption || now apply IH). exact Hs.
Qed.

(** On a reachable processor with analyser and data array the method
    returns the bands of the reported spectrum. *)
Lemma getFrequencyBands_reachable (w : World) (spectrum : list Z) :
  reachable w -> spectrum_ok spectrum ->
  analyser (this w) <> None -> dataArray (this w) <> None ->
  fst (getFrequencyBands spectrum w) = Analysis.frequencyBands spectrum.
Proof.
  intros Hr [Hs _] Han Hd. apply getFrequencyBands_active; try assumption.
  intros d E. destruct (reachable_dataArray w Hr d E) as [Hl _]. congruence.
Qed.

(** The bands of [threePeaks]: each band is the largest bin between its
    boundaries (band 1 covers bins 2 to 4, which hold 0, 20 and 5), and bin
    800 is outside of the sampled range. *)
Example frequencyBands_threePeaks :
  Analysis.frequencyBands threePeaks = [10; 20; 0; 0; 0; 0; 0; 30]%Z.
Proof.
  rewrite frequencyBands_eval by (vm_compute; lia). vm_compute. reflexivity.
Qed.

Lemma dcOnly_bytes : bytes dcOnly.
Proof. apply bytesb_bytes. vm_compute. reflexivity. Qed.

Lemma dcOnly_length : length dcOnly = 1024%nat.
Proof. vm_compute. reflexivity. Qed.

End MethodFacts.

(* ------------------------------------------------------------------ *)
(** ** C1 *)

(** C1 (the claim as stated fails): on a processor playing the test tone,
    a spectrum with energy in the DC bin only has sum [255], yet all eight
    bands are zero, because the sampled range starts at bin [1]. *)
Lemma C1_dc_only_counterexample :
  bytes dcOnly /\
  ~ (fst (AudioProcessor.getFrequencyBands dcOnly toneWorld) = Js.zeros 8 <->
     Js.sum dcOnly = 0%Z).
Proof.
  split; [exact dcOnly_bytes|].
  intros [H _].
  assert (E : fst (AudioProcessor.getFrequencyBands dcOnly toneWorld) = Js.zeros 8).
  { destruct toneWorld_active as (Ha & Hd & Hl).
    rewrite getFrequencyBands_active by
      (try assumption; intros d Hd'; rewrite dcOnly_length; now apply Hl).
    rewrite frequencyBands_eval by (rewrite dcOnly_length; lia).
    vm_compute. reflexivity. }
  specialize (H E). vm_compute in H. discriminate H.
Qed.

(** C1 (amended): for every frequency byte array the analyser reports,
    [getFrequencyBands] returns exactly 8 values, each in [0, 255]; the
    result is all zero when the sum of the input is zero, and, on a processor
    with analyser and data array, it is all zero if and only if every bin of
    the sampled range, [1 <= j < min(800, length)], is zero. *)
Theorem C1_getFrequencyBands_shape_and_silence (w : AudioProcessor.World)
    (spectrum : list Z) :
  bytes spectrum ->
  (forall d, AudioProcessor.dataArray (AudioProcessor.this w) = Some d ->
             length d = length spectrum) ->
  let bands := fst (AudioProcessor.getFrequencyBands spectrum w) in
  length bands = 8%nat /\
  bytes bands /\
  (Js.sum spectrum = 0%Z -> bands = Js.zeros 8) /\
  (AudioProcessor.analyser (AudioProcessor.this w) <> None ->
   AudioProcessor.dataArray (AudioProcessor.this w) <> None ->
   (bands = Js.zeros 8 <->
    forall j, (1 <= j < Z.min 800 (Z.of_nat (length spectrum)))%Z ->
              nth (Z.to_nat j) spectrum 0%Z = 0%Z)).
Proof.
  intros Hb Hlen bands.
  assert (Hz : Js.sum spectrum = 0%Z -> Analysis.frequencyBands spectrum = Js.zeros 8).
  { intros Hs. apply frequencyBands_zero_iff; [assumption|].
    intros j _. now apply sum_zero_all_zero. }
  split; [|split; [|split]].
  - destruct (getFrequencyBands_cases w spectrum Hlen) as [E|E]; unfold bands; rewrite E.
    + apply length_frequencyBands.
    + apply repeat_length.
  - destruct (getFrequencyBands_cases w spectrum Hlen) as [E|E]; unfold bands; rewrite E.
    + now apply bytes_frequencyBands.
    + apply bytes_zeros.
  - intros Hs.
    destruct (getFrequencyBands_cases w spectrum Hlen) as [E|E]; unfold bands; rewrite E.
    + now apply Hz.
    + reflexivity.
  - intros Han Hd. unfold bands.
    rewrite getFrequencyBands_active by assumption.
    now apply frequencyBands_zero_iff.
Qed.

Lemma C1_getFrequencyBands_shape_and_silence_witness :
  let bands := fst (AudioProcessor.getFrequencyBands dcOnly toneWorld) in
  length bands = 8%nat /\
  bytes bands /\
  (Js.sum dcOnly = 0%Z -> bands = Js.zeros 8) /\
  (AudioProcessor.analyser (AudioProcessor.this toneWorld) <> None ->
   AudioProcessor.dataArray (AudioProcessor.this toneWorld) <> None ->
   (bands = Js.zeros 8 <->
    forall j, (1 <= j < Z.min 800 (Z.of_nat (length dcOnly)))%Z ->
              nth (Z.to_nat j) dcOnly 0%Z = 0%Z)).
Proof.
  apply (C1_getFrequencyBands_shape_and_silence toneWorld dcOnly).
  - apply bytesb_bytes. vm_compute. reflexivity.
  - intros d H. vm_compute in H. injection H as <-. vm_compute. reflexivity.
Defined.

(* ------------------------------------------------------------------ *)
(** ** C2 *)

Section BoundaryClaims.

Local Open Scope R_scope.

(** C2 (the claim as stated fails): the second boundary the code computes is
    the integer [2], not [exp (log 1 + 1 * (log 800 - log 1) / 8)], whose
    eighth power is [800]. *)
Lemma C2_boundary_not_unrounded :
  IZR (nth 1 (Analysis.bandBoundaries silence) 0%Z)
  <> exp (ln 1 + 1 * (ln 800 - ln 1) / 8).
Proof.
  rewrite bandBoundaries_fixed by (unfold silence, Js.zeros; rewrite repeat_length; vm_compute; lia).
  simpl nth. intros H.
  assert (H8 : exp (ln 1 + 1 * (ln 800 - ln 1) / 8) ^ 8 = 800).
  { rewrite <- exp_INR_mult.
    replace (INR 8 * (ln 1 + 1 * (ln 800 - ln 1) / 8)) with (ln 800)
      by (rewrite ln_1; simpl INR; field).
    apply exp_ln. lra. }
  rewrite <- H in H8. lra.
Qed.

(** C2 (amended): on a processor with analyser and data array, for every
    reported spectrum of at least 800 bins (so [startBin = 1],
    [endBin = 800], 8 bands) the 9 boundaries [getFrequencyBands] computes
    are the values [exp (log start + i * (log end - log start) / 8)] rounded
    to the nearest integer, that is 1, 2, 5, 12, 28, 65, 150, 347, 800; they
    are strictly increasing and the same for every such input; and band [i]
    of the result is the peak of the input bins
    [boundary i <= j < boundary (i + 1)]: no bin of the band exceeds it and
    one of them equals it. *)
Theorem C2_boundaries_and_peak (w : AudioProcessor.World) (spectrum : list Z) :
  AudioProcessor.analyser (AudioProcessor.this w) <> None ->
  AudioProcessor.dataArray (AudioProcessor.this w) <> None ->
  (forall d, AudioProcessor.dataArray (AudioProcessor.this w) = Some d ->
             length d = length spectrum) ->
  bytes spectrum -> (800 <= length spectrum)%nat ->
  let bb := Analysis.bandBoundaries spectrum in
  (forall i, (i <= 8)%nat ->
     nth i bb 0%Z = Js.round (exp (ln 1 + (ln 800 - ln 1) / 8 * INR i))) /\
  bb = [1; 2; 5; 12; 28; 65; 150; 347; 800]%Z /\
  (forall i, (i < 8)%nat -> (nth i bb 0 < nth (S i) bb 0)%Z) /\
  (forall other, (800 <= length other)%nat -> Analysis.bandBoundaries other = bb) /\
  (forall i, (i < 8)%nat ->
     let v := nth i (fst (AudioProcessor.getFrequencyBands spectrum w)) 0%Z in
     (forall j, (nth i bb 0 <= j < nth (S i) bb 0)%Z ->
                (nth (Z.to_nat j) spectrum 0 <= v)%Z) /\
     (exists j, (nth i bb 0 <= j < nth (S i) bb 0)%Z /\
                nth (Z.to_nat j) spectrum 0%Z = v)).
Proof.
  intros Han Hd Hfull Hb Hlen bb.
  assert (Hbb : bb = fixedBoundaries) by now apply bandBoundaries_fixed.
  assert (Hincr : forall i, (i < 8)%nat -> (nth i bb 0 < nth (S i) bb 0)%Z).
  { intros i Hi. rewrite Hbb.
    do 8 (destruct i as [|i]; [vm_compute; reflexivity|]). lia. }
  split; [|split; [exact Hbb|split; [exact Hincr|split]]].
  - intros i Hi. unfold bb, Analysis.bandBoundaries.
    rewrite endBin_800 by assumption. rewrite nth_logSpace by (simpl; lia).
    do 2 f_equal. simpl INR. f_equal. f_equal. f_equal. lra.
  - intros other Ho. rewrite Hbb. now apply bandBoundaries_fixed.
  - intros i Hi. rewrite getFrequencyBands_active by assumption.
    apply band_is_peak; [assumption | | assumption | now apply Hincr].
    rewrite endBin_800 by assumption. lia.
Qed.

Lemma C2_boundaries_and_peak_witness :
  let bb := Analysis.bandBoundaries dcOnly in
  (forall i, (i <= 8)%nat ->
     nth i bb 0%Z = Js.round (exp (ln 1 + (ln 800 - ln 1) / 8 * INR i))) /\
  bb = [1; 2; 5; 12; 28; 65; 150; 347; 800]%Z /\
  (forall i, (i < 8)%nat -> (nth i bb 0 < nth (S i) bb 0)%Z) /\
  (forall other, (800 <= length other)%nat -> Analysis.bandBoundaries other = bb) /\
  (forall i, (i < 8)%nat ->
     let v := nth i (fst (AudioProcessor.getFrequencyBands dcOnly toneWorld)) 0%Z in
     (forall j, (nth i bb 0 <= j < nth (S i) bb 0)%Z ->
                (nth (Z.to_nat j) dcOnly 0 <= v)%Z) /\
     (exists j, (nth i bb 0 <= j < nth (S i) bb 0)%Z /\
                nth (Z.to_nat j) dcOnly 0%Z = v)).
Proof.
  apply (C2_boundaries_and_peak toneWorld dcOnly).
  - vm_compute. discriminate.
  - vm_compute. discriminate.
  - intros d H. vm_compute in H. injection H as <-. vm_compute. reflexivity.
  - apply bytesb_bytes. vm_compute. reflexivity.
  - vm_compute. lia.
Defined.

End BoundaryClaims.

(* ------------------------------------------------------------------ *)
(** ** C6: getRawVolume *)

Section VolumeFacts.

Local Open Scope R_scope.

Import Analysis.

Lemma sumOfSquares_acc (l : list Z) (acc : R) :
  fold_left (fun a b => a + amplitude b * amplitude b) l acc =
  acc + fold_right Rplus 0 (map (fun v => v * v) (map normalized l)).
Proof.
  revert acc. induction l as [|b l IH]; intros acc; simpl; [ring|].
  rewrite IH. unfold amplitude, normalized. ring.
Qed.

Lemma rawVolume_rms (timeDomainData : list Z) :
  rawVolume timeDomainData = rootMeanSquare (map normalized timeDomainData).
Proof.
  unfold rawVolume, rootMeanSquare, sumOfSquares.
  rewrite sumOfSquares_acc, length_map. f_equal. f_equal. ring.
Qed.

Lemma amplitude_square_le_1 (b : Z) : byte b -> 0 <= amplitude b * amplitude b <= 1.
Proof.
  intros [H0 H255]. apply IZR_le in H0. apply IZR_le in H255.
  unfold amplitude.
  assert (Ha : -1 <= IZR b / 128 - 1 <= 1) by lra.
  set (a := IZR b / 128 - 1) in *. nra.
Qed.

Lemma sumOfSquares_bounds (l : list Z) :
  bytes l -> 0 <= sumOfSquares l <= INR (length l).
Proof.
  unfold sumOfSquares. intros Hb.
  rewrite sumOfSquares_acc, Rplus_0_l.
  induction Hb as [|b l Hb _ IH].
  - simpl. lra.
  - change (length (b :: l)) with (S (length l)). rewrite S_INR.
    cbn [fold_right map]. pose proof (amplitude_square_le_1 b Hb) as Ha.
    change (amplitude b) with (normalized b) in Ha. lra.
Qed.

Lemma rawVolume_range (timeDomainData : list Z) :
  bytes timeDomainData -> timeDomainData <> [] ->
  0 <= rawVolume timeDomainData <= 1.
Proof.
  intros Hb Hne. unfold rawVolume. split; [apply sqrt_pos|].
  rewrite <- sqrt_1. apply sqrt_le_1_alt.
  pose proof (sumOfSquares_bounds _ Hb) as [_ Hs].
  assert (Hn : 0 < INR (length timeDomainData)).
  { apply lt_0_INR. destruct timeDomainData; [congruence | simpl; lia]. }
  apply (Rmult_le_reg_r (INR (length timeDomainData))); [assumption|].
  unfold Rdiv. rewrite Rmult_assoc, Rinv_l by lra. lra.
Qed.

Lemma rawVolume_silent (timeDomainData : list Z) :
  (forall b, In b timeDomainData -> b = 128%Z) -> rawVolume timeDomainData = 0.
Proof.
  intros H. unfold rawVolume, sumOfSquares.
  assert (E : forall acc,
    fold_left (fun a b => a + amplitude b * amplitude b) timeDomainData acc = acc).
  { induction timeDomainData as [|b l IH]; intros acc; simpl; [reflexivity|].
    rewrite IH by (intros c Hc; apply H; now right).
    rewrite (H b) by now left. unfold amplitude. field. }
  rewrite E. unfold Rdiv. rewrite Rmult_0_l. apply sqrt_0.
Qed.

End VolumeFacts.

(** C6: on a processor with an analyser, for every time-domain byte buffer
    (it has [fftSize] entries), [getRawVolume] is the root mean square of the
    samples normalized as [byte / 128 - 1]; the result lies in [0, 1], and it
    is [0] when every byte of the buffer is 128. *)
Theorem C6_getRawVolume_rms (w : AudioProcessor.World) (samples : list Z) :
  AudioProcessor.analyser (AudioProcessor.this w) <> None ->
  AudioProcessor.dataArray (AudioProcessor.this w) <> None ->
  bytes samples -> length samples = Analysis.fftSize ->
  AudioProcessor.getRawVolume samples w = rootMeanSquare (map normalized samples) /\
  (0 <= AudioProcessor.getRawVolume samples w <= 1)%R /\
  ((forall b, In b samples -> b = 128%Z) ->
   AudioProcessor.getRawVolume samples w = 0%R).
Proof.
  intros Han Hd Hb Hlen. unfold AudioProcessor.getRawVolume.
  destruct (AudioProcessor.analyser (AudioProcessor.this w)); [|congruence].
  destruct (AudioProcessor.dataArray (AudioProcessor.this w)); [|congruence].
  split; [apply rawVolume_rms|]. split; [|apply rawVolume_silent].
  apply rawVolume_range; [assumption|].
  intros ->. discriminate Hlen.
Qed.

Lemma C6_getRawVolume_rms_witness :
  let w := snd (AudioProcessor.createTestTone AudioProcessor.initial) in
  let samples := repeat 128%Z 2048 in
  AudioProcessor.getRawVolume samples w = rootMeanSquare (map normalized samples) /\
  (0 <= AudioProcessor.getRawVolume samples w <= 1)%R /\
  ((forall b, In b samples -> b = 128%Z) ->
   AudioProcessor.getRawVolume samples w = 0%R).
Proof.
  intros w samples.
  apply (C6_getRawVolume_rms w samples).
  - vm_compute. discriminate.
  - vm_compute. discriminate.
  - apply bytesb_bytes. vm_compute. reflexivity.
  - vm_compute. reflexivity.
Defined.

(* ------------------------------------------------------------------ *)
(** ** C3 and C4 *)

(** Every acquisition creates a new analyser and connects its own source to
    it: in every state that completed calls lead to, a granted
    [requestMicrophoneAccess] and [createTestTone] succeed and leave exactly
    one connection into the current analyser, and [connectAudioElement] does
    so whenever it succeeds. *)
Lemma fresh_analyser_has_one_input (w : AudioProcessor.World) :
  reachable w ->
  (forall (tracks : nat) (spectrum : list Z),
     fst (AudioProcessor.requestMicrophoneAccess (Some tracks) spectrum w) = true /\
     analyserInputs
       (snd (AudioProcessor.requestMicrophoneAccess (Some tracks) spectrum w)) = 1%nat) /\
  (fst (AudioProcessor.createTestTone w) = true /\
   analyserInputs (snd (AudioProcessor.createTestTone w)) = 1%nat) /\
  (forall audioElement : nat,
     fst (AudioProcessor.connectAudioElement audioElement w) = true ->
     analyserInputs (snd (AudioProcessor.connectAudioElement audioElement w)) = 1%nat).
Proof.
  intros Hr. pose proof (reachable_processor_ok w Hr) as Hok.
  split; [|split].
  - intros tracks spectrum.
    apply (requestMicrophoneAccess_ok (Some tracks) spectrum w Hok). discriminate.
  - destruct (createTestTone_ok w Hok) as (H1 & H2 & _). now split.
  - intros audioElement. apply (connectAudioElement_ok audioElement w Hok).
Qed.

(** C3 (the code releases only the handle of the mode it starts): each
    acquisition method disconnects at most its own previous handle
    ("Clean up any previous source to avoid duplicate connections",
    "Disconnect any previous connections") and routes its source through a
    new analyser; a source that another start left connected stays
    connected.
    - Through the controls: "Use Sample Music" whose [play()] is rejected,
      then "Use Sample Music" again.  The component is listening, and the
      one element source [2] feeds the analyser [1] of the first attempt and
      the current analyser [3], both connected to the destination [0]: the
      music is routed to the speakers twice.
    - On the processor: the test tone started while a microphone is active.
      The microphone source node [3] is still connected to the analyser [1]
      of the first acquisition and the track [2] is still live.
    - For any two different modes started one after the other on a fresh
      processor, every connection of the first is still in the graph.
    - When two calls overlap ([requestMicrophoneAccess] waits for
      [getUserMedia] while [createTestTone] completes), the microphone
      source [15] and the master gain [3] of the tone both end at the
      current analyser [2]. *)
Theorem C3_previous_source_stays_connected :
  let retried :=
    Controls.handle (Controls.UseSampleMusic true)
      (Controls.handle (Controls.UseSampleMusic false) SoundVisualizer.mounted) in
  (Controls.rendered retried /\
   SoundVisualizer.isListening retried = true /\
   AudioProcessor.analyser
     (AudioProcessor.this (SoundVisualizer.audioProcessor retried)) = Some 3%nat /\
   WebAudio.connections
     (AudioProcessor.graph (SoundVisualizer.audioProcessor retried))
   = [(2, WebAudio.NodeInput 1); (1, WebAudio.NodeInput 0);
      (2, WebAudio.NodeInput 3); (3, WebAudio.NodeInput 0)]%nat) /\
  (fst (AudioProcessor.requestMicrophoneAccess (Some 1%nat) silence
          AudioProcessor.initial) = true /\
   fst (AudioProcessor.createTestTone micWorld) = true /\
   AudioProcessor.sourceNode (AudioProcessor.this micWorld) = Some 3%nat /\
   WebAudio.connections (AudioProcessor.graph micWorld)
     = [(3%nat, WebAudio.NodeInput 1)] /\
   AudioProcessor.analyser (AudioProcessor.this switchedWorld) = Some 4%nat /\
   In (3%nat, WebAudio.NodeInput 1)
      (WebAudio.connections (AudioProcessor.graph switchedWorld)) /\
   WebAudio.liveTracks (AudioProcessor.graph switchedWorld) = [2%nat]) /\
  (forall m1 m2 : Mode, m1 <> m2 ->
     survivors (AudioProcessor.graph (snd (acquire m1 AudioProcessor.initial)))
               (AudioProcessor.graph (snd (switch m1 m2)))
     = WebAudio.connections
         (AudioProcessor.graph (snd (acquire m1 AudioProcessor.initial)))) /\
  (fst (Awaits.overlapped AudioProcessor.initial) = true /\
   AudioProcessor.analyser
     (AudioProcessor.this (snd (Awaits.overlapped AudioProcessor.initial)))
     = Some 2%nat /\
   WebAudio.inputsOf 2
     (AudioProcessor.graph (snd (Awaits.overlapped AudioProcessor.initial)))
   = [(3, WebAudio.NodeInput 2); (15, WebAudio.NodeInput 2)]%nat).
Proof.
  intros retried. split; [|split; [|split]].
  - split.
    + apply Controls.rendered_handle; [|reflexivity | exact I].
      apply Controls.rendered_handle; [|reflexivity | exact I].
      apply Controls.rendered_mounted.
    + do 2 (split; [evaluate|]). evaluate.
  - do 5 (split; [evaluate|]).
    split; [vm_compute; left; reflexivity | evaluate].
  - exact switch_keeps_connections.
  - do 2 (split; [evaluate|]). evaluate.
Qed.

(** C4 (the code stops the main oscillator only): after a test tone on a
    fresh processor, [cleanup] leaves the LFO [3] and the three harmonics
    [7], [9], [11] started and connected; only the fundamental [5] is stopped
    and disconnected.  A second [cleanup] changes nothing. *)
Theorem C4_cleanup_leaves_oscillators_running :
  fst (AudioProcessor.createTestTone AudioProcessor.initial) = true /\
  WebAudio.started (AudioProcessor.graph toneWorld) = [3; 5; 7; 9; 11]%nat /\
  AudioProcessor.oscillator (AudioProcessor.this toneWorld) = Some 5%nat /\
  WebAudio.started (AudioProcessor.graph (AudioProcessor.cleanup toneWorld))
    = [3; 7; 9; 11]%nat /\
  WebAudio.connections (AudioProcessor.graph (AudioProcessor.cleanup toneWorld))
    = [(2, WebAudio.NodeInput 1); (3, WebAudio.NodeInput 4);
       (4, WebAudio.GainParam 2); (6, WebAudio.NodeInput 2);
       (7, WebAudio.NodeInput 8); (8, WebAudio.NodeInput 2);
       (9, WebAudio.NodeInput 10); (10, WebAudio.NodeInput 2);
       (11, WebAudio.NodeInput 12); (12, WebAudio.NodeInput 2)]%nat /\
  AudioProcessor.cleanup (AudioProcessor.cleanup toneWorld)
    = AudioProcessor.cleanup toneWorld.
Proof. do 5 (split; [evaluate|]). evaluate. Qed.

(* ------------------------------------------------------------------ *)
(** ** C10 *)

(** C10 (the claim as stated fails): a microphone request that is denied
    does not succeed, yet it leaves the analyser and the data array
    allocated, so [getFrequencyData] returns the array, not [null]. *)
Lemma C10_denied_request_counterexample :
  fst (AudioProcessor.requestMicrophoneAccess None silence AudioProcessor.initial)
    = false /\
  fst (AudioProcessor.getFrequencyData silence deniedWorld) <> None.
Proof. split; [evaluate | vm_compute; discriminate]. Qed.

(** C10 (amended): on a processor on which no acquisition was attempted
    yet, or after [cleanup], the analysis queries return without failing:
    [getFrequencyData] returns [null], [getRawVolume] returns 0 and
    [getFrequencyBands] returns eight zeros, and the processor is left as it
    was. *)
Theorem C10_queries_without_data (w : AudioProcessor.World)
    (spectrum samples : list Z) :
  w = AudioProcessor.initial \/ (exists w0, w = AudioProcessor.cleanup w0) ->
  AudioProcessor.getFrequencyData spectrum w = (None, w) /\
  AudioProcessor.getRawVolume samples w = 0%R /\
  AudioProcessor.getFrequencyBands spectrum w = (Js.zeros 8, w).
Proof.
  intros H.
  assert (Hd : AudioProcessor.dataArray (AudioProcessor.this w) = None).
  { destruct H as [-> | [w0 ->]]; [reflexivity | apply cleanup_fields]. }
  unfold AudioProcessor.getFrequencyData, AudioProcessor.getRawVolume,
    AudioProcessor.getFrequencyBands.
  rewrite Hd. destruct (AudioProcessor.analyser (AudioProcessor.this w)); auto.
Qed.

Lemma C10_queries_without_data_witness :
  let w := AudioProcessor.cleanup toneWorld in
  AudioProcessor.getFrequencyData silence w = (None, w) /\
  AudioProcessor.getRawVolume (repeat 128%Z 2048) w = 0%R /\
  AudioProcessor.getFrequencyBands silence w = (Js.zeros 8, w).
Proof.
  intros w. apply (C10_queries_without_data w silence (repeat 128%Z 2048)).
  right. exists toneWorld. reflexivity.
Defined.

(* ------------------------------------------------------------------ *)
(** ** The particle field *)

Section ParticleFacts.

Import Three CloudParticles.

Local Open Scope R_scope.

Lemma length_nonneg (v : Vector3) : 0 <= Three.length v.
Proof. apply sqrt_pos. Qed.

Lemma length_square (v : Vector3) :
  Three.length v * Three.length v = x v * x v + y v * y v + z v * z v.
Proof.
  unfold Three.length. apply sqrt_sqrt.
  pose proof (Rle_0_sqr (x v)). pose proof (Rle_0_sqr (y v)).
  pose proof (Rle_0_sqr (z v)). unfold Rsqr in *. lra.
Qed.

(** A vector that is not null, normalized and scaled by [r >= 0], has
    length [r]. *)
Lemma length_scaled_normalize (v : Vector3) (r : R) :
  0 < Three.length v -> 0 <= r ->
  Three.length (multiplyScalar (normalize v) r) = r.
Proof.
  intros Hl Hr. unfold normalize.
  destruct (Req_dec_T (Three.length v) 0) as [E|_]; [lra|].
  pose proof (length_square v) as Hsq.
  set (l := Three.length v) in *.
  unfold Three.length at 1. unfold multiplyScalar. cbn [x y z].
  replace (x v * (1 / l) * r * (x v * (1 / l) * r) +
           y v * (1 / l) * r * (y v * (1 / l) * r) +
           z v * (1 / l) * r * (z v * (1 / l) * r))
    with (r * r).
  - now apply sqrt_square.
  - transitivity ((x v * x v + y v * y v + z v * z v) * (r * r) / (l * l)).
    + rewrite <- Hsq. field. lra.
    + field. lra.
Qed.

(** The bounds check leaves a point within radius 20, and a point beyond it
    is put at radius 10 on its own ray. *)
Lemma bounded_spec (q : Vector3) :
  (20 < Three.length q ->
     bounded q = multiplyScalar (normalize q) 10 /\ Three.length (bounded q) = 10) /\
  (Three.length q <= 20 -> bounded q = q) /\
  Three.length (bounded q) <= 20.
Proof.
  unfold bounded. destruct (Rlt_dec 20 (Three.length q)) as [Hfar|Hnear].
  - assert (E : Three.length (multiplyScalar (normalize q) 10) = 10)
      by (apply length_scaled_normalize; lra).
    split; [intros _; split; [reflexivity | exact E]|].
    split; [intros; lra | rewrite E; lra].
  - split; [intros; lra|]. split; [reflexivity | lra].
Qed.

Lemma nth_error_updateFrom (audioData : list Z) (sensitivity time : R)
    (random : nat -> R) (pts : list Particle) (i k : nat) :
  nth_error (updateFrom audioData sensitivity time i random pts) k =
  option_map (updateParticle audioData sensitivity time (i + k) (random (i + k)%nat))
             (nth_error pts k).
Proof.
  revert i k. induction pts as [|pt pts IH]; intros i k.
  - destruct k; reflexivity.
  - destruct k as [|k]; simpl.
    + now rewrite Nat.add_0_r.
    + rewrite IH. now rewrite Nat.add_succ_r.
Qed.

End ParticleFacts.

(* ------------------------------------------------------------------ *)
(** ** C7 *)




(* ------------------------------------------------------------------ *)
(** ** C8 *)

Section BiasClaims.

Local Open Scope R_scope.

(** C8: for any sensitivity above zero, the bands [255,0,0,0,0,0,0,0] give a
    strictly positive [verticalBias], and the bands [0,0,0,0,0,0,0,255] give
    a strictly positive [radialBias]. *)
Theorem C8_directional_bias (sensitivity : R) :
  0 < sensitivity ->
  CloudParticles.verticalBias [255; 0; 0; 0; 0; 0; 0; 0]%Z sensitivity > 0 /\
  CloudParticles.radialBias [0; 0; 0; 0; 0; 0; 0; 255]%Z sensitivity > 0.
Proof.
  intros Hs.
  unfold CloudParticles.verticalBias, CloudParticles.radialBias,
    CloudParticles.lowFreqIntensity, CloudParticles.highFreqIntensity.
  change (Js.sum (Js.slice [255; 0; 0; 0; 0; 0; 0; 0]%Z 0 2)) with 255%Z.
  change (Js.sum (Js.sliceFrom [255; 0; 0; 0; 0; 0; 0; 0]%Z 5)) with 0%Z.
  change (Js.sum (Js.slice [0; 0; 0; 0; 0; 0; 0; 255]%Z 0 2)) with 0%Z.
  change (Js.sum (Js.sliceFrom [0; 0; 0; 0; 0; 0; 0; 255]%Z 5)) with 255%Z.
  split; lra.
Qed.

Lemma C8_directional_bias_witness :
  CloudParticles.verticalBias [255; 0; 0; 0; 0; 0; 0; 0]%Z 1 > 0 /\
  CloudParticles.radialBias [0; 0; 0; 0; 0; 0; 0; 255]%Z 1 > 0.
Proof. apply (C8_directional_bias 1). lra. Defined.

End BiasClaims.

(* ------------------------------------------------------------------ *)
(** ** C5 *)

Section FrameClaims.

Import Three CloudParticles SoundVisualizer.

Local Open Scope R_scope.

Lemma nth_zeros (n k : nat) : nth k (Js.zeros n) 0%Z = 0%Z.
Proof. unfold Js.zeros. apply nth_repeat. Qed.

(** Positions and colours of the updated points do not depend on the random
    draws; the sizes do, and only through the draw of their own point. *)
Lemma updateFrom_random (audioData : list Z) (sensitivity time : R)
    (random1 random2 : nat -> R) (pts : list Particle) (i : nat) :
  map position (updateFrom audioData sensitivity time i random1 pts) =
  map position (updateFrom audioData sensitivity time i random2 pts) /\
  map color (updateFrom audioData sensitivity time i random1 pts) =
  map color (updateFrom audioData sensitivity time i random2 pts) /\
  ((forall k, (i <= k < i + List.length pts)%nat -> random1 k = random2 k) ->
   updateFrom audioData sensitivity time i random1 pts =
   updateFrom audioData sensitivity time i random2 pts).
Proof.
  revert i. induction pts as [|pt pts IH]; intros i; [repeat split; reflexivity|].
  destruct (IH (S i)) as (Hp & Hc & Hs). cbn [updateFrom map List.length].
  split; [|split].
  - now rewrite Hp.
  - now rewrite Hc.
  - intros H. rewrite (H i) by lia. f_equal. apply Hs.
    intros k Hk. apply H. lia.
Qed.

(** C5 (the claim as stated fails): two runs of one frame from the same
    scene, bands, time and sensitivity give different point sizes when
    [Math.random()] draws 0 in one run and 1/2 in the other. *)
Lemma C5_sizes_depend_on_random :
  renderFrame (Js.zeros 8) 1 0 (fun _ => 0) onePoint <>
  renderFrame (Js.zeros 8) 1 0 (fun _ => / 2) onePoint.
Proof.
  intros H. apply (f_equal particles) in H.
  cbn [renderFrame particles onePoint CloudParticles.useFrame option_map updateFrom] in H.
  injection H as H.
  unfold audioIntensity in H. rewrite nth_zeros in H. lra.
Qed.

(** C5 (amended): the new positions and colours of the points and the whole
    new state of the mesh (scale, rotation, smoothed rotation, material
    values, geometry) are functions of the previous scene, the band array,
    the elapsed time and the sensitivity: they are the same for any two
    sequences of random draws.  The new size of point [i] is
    [(0.05 + r * 0.05) * (1 + 1.5 * intensity)] where [r] is the value
    [Math.random()] returns for that point, so two runs agree on the whole
    scene when they draw the same values. *)
Theorem C5_frame_determined_up_to_random (bands : list Z) (sens elapsedTime : R)
    (random1 random2 : nat -> R) (sc : Scene) :
  let sc1 := renderFrame bands sens elapsedTime random1 sc in
  let sc2 := renderFrame bands sens elapsedTime random2 sc in
  mesh sc1 = mesh sc2 /\
  option_map (map position) (particles sc1) = option_map (map position) (particles sc2) /\
  option_map (map color) (particles sc1) = option_map (map color) (particles sc2) /\
  (forall pts i pt, particles sc = Some pts -> nth_error pts i = Some pt ->
     option_map (map size) (particles sc1) <> None /\
     forall pts1, particles sc1 = Some pts1 ->
       option_map size (nth_error pts1 i) =
       Some ((0.05 + random1 i * 0.05)
             * (1 + audioIntensity bands sens (position pt) * 1.5))) /\
  ((forall i, random1 i = random2 i) -> sc1 = sc2).
Proof.
  intros sc1 sc2. unfold sc1, sc2, renderFrame. cbn [mesh particles].
  split; [reflexivity|].
  destruct (particles sc) as [pts|]; cbn [CloudParticles.useFrame option_map].
  - destruct (updateFrom_random bands sens elapsedTime random1 random2 pts 0)
      as (Hp & Hc & Hs).
    split; [now rewrite Hp|]. split; [now rewrite Hc|]. split.
    + intros pts0 i pt E Hi. injection E as <-. split; [discriminate|].
      intros pts1 E1. injection E1 as <-.
      rewrite nth_error_updateFrom, Hi. reflexivity.
    + intros H. do 2 f_equal. apply Hs. intros k _. apply H.
  - split; [reflexivity|]. split; [reflexivity|]. split; [|reflexivity].
    intros pts i pt E. discriminate E.
Qed.

End FrameClaims.

(* ------------------------------------------------------------------ *)
(** ** C9 *)

Section StopClaims.

Import SoundVisualizer.

Local Open Scope R_scope.

Lemma sumOfSquares_repeat (b : Z) (n : nat) (acc : R) :
  fold_left (fun a c => a + Analysis.amplitude c * Analysis.amplitude c)
            (repeat b n) acc
  = acc + INR n * (Analysis.amplitude b * Analysis.amplitude b).
Proof.
  revert acc. induction n as [|n IH]; intros acc.
  - simpl. ring.
  - change (repeat b (S n)) with (b :: repeat b n). cbn [fold_left].
    rewrite IH, S_INR. ring.
Qed.

(** The volume of a constant buffer is the distance of its level from 128,
    in units of 128. *)
Lemma rawVolume_repeat (b : Z) (n : nat) :
  (0 < n)%nat -> Analysis.rawVolume (repeat b n) = Rabs (Analysis.amplitude b).
Proof.
  intros Hn. unfold Analysis.rawVolume, Analysis.sumOfSquares.
  rewrite sumOfSquares_repeat, repeat_length, Rplus_0_l.
  assert (0 < INR n) by now apply lt_0_INR.
  replace (INR n * (Analysis.amplitude b * Analysis.amplitude b) / INR n)
    with (Rsqr (Analysis.amplitude b)) by (unfold Rsqr; field; lra).
  apply sqrt_Rsqr_abs.
Qed.

Lemma rawVolume_loud : Analysis.rawVolume loud = 127 / 128.
Proof.
  unfold loud. rewrite rawVolume_repeat by (unfold Analysis.fftSize; lia).
  unfold Analysis.amplitude. rewrite Rabs_pos_eq; lra.
Qed.

Lemma polled_listening :
  isListening polled = true /\ microphoneStatus polled = active.
Proof. split; reflexivity. Qed.

Lemma polled_rawVolume : rawVolume polled = 127 / 128.
Proof. rewrite <- rawVolume_loud. reflexivity. Qed.

(** C9 (the claim as stated fails): after the microphone has been polled
    once with a full-scale buffer, the raw volume is 127/128, and
    [stopListening] leaves it there. *)
Lemma C9_rawVolume_survives_stop :
  isListening polled = true /\ rawVolume (stopListening polled) <> 0.
Proof.
  split; [apply polled_listening|].
  change (rawVolume (stopListening polled)) with (rawVolume polled).
  rewrite polled_rawVolume. lra.
Qed.

(** C9 (amended): after [stopListening] the band array is eight zeros, the
    audio level is 0, the status is back to [initial], the component no
    longer listens and the processor has been cleaned up (no data array, no
    microphone stream, main oscillator or microphone source node); the raw
    volume, like the debug information and the sensitivity, keeps the value
    it had. *)
Theorem C9_stopListening_resets (s : State) :
  let s' := stopListening s in
  audioData s' = Js.zeros 8 /\
  audioLevel s' = 0 /\
  microphoneStatus s' = initial /\
  isListening s' = false /\
  animationFrameRef s' = None /\
  audioProcessor s' = AudioProcessor.cleanup (audioProcessor s) /\
  AudioProcessor.dataArray (AudioProcessor.this (audioProcessor s')) = None /\
  rawVolume s' = rawVolume s /\
  debugInfo s' = debugInfo s /\
  sensitivity s' = sensitivity s.
Proof.
  intros s'. unfold s', stopListening. cbn.
  repeat (split; [reflexivity|]).
  split; [apply cleanup_fields|]. repeat split; reflexivity.
Qed.

End StopClaims.

(* ================================================================== *)
(** * Further properties of the code *)

(* ------------------------------------------------------------------ *)
(** ** The bands *)

Section MoreBandFacts.

Local Open Scope Z_scope.

Import Analysis.

Lemma sum_le (a b : list Z) :
  length a = length b -> (forall j, nth j a 0 <= nth j b 0) -> Js.sum a <= Js.sum b.
Proof.
  revert b. induction a as [|x a IH]; intros [|y b] Hl H;
    try discriminate Hl; [apply Z.le_refl|].
  rewrite !sum_cons. pose proof (H 0%nat) as H0. cbn in H0.
  assert (Js.sum a <= Js.sum b).
  { apply IH; [now injection Hl|]. intros j. exact (H (S j)). }
  lia.
Qed.

Lemma endBin_length (a b : list Z) : length a = length b -> endBin a = endBin b.
Proof. unfold endBin. now intros ->. Qed.

(** The peak over the same range is monotone in the array. *)
Lemma bandPeak_slice_le (a b : list Z) (lo hi : Z) :
  length a = length b -> (forall j, nth j a 0 <= nth j b 0) ->
  bytes b -> 0 <= lo <= hi -> hi <= Z.of_nat (length a) ->
  bandPeak (Js.slice a lo hi) <= bandPeak (Js.slice b lo hi).
Proof.
  intros Hl H Hb Hlo Hhi.
  destruct (Js.slice a lo hi) as [|x rest] eqn:E.
  - pose proof (bandPeak_byte (Js.slice b lo hi) (bytes_slice b lo hi Hb)) as Hp.
    unfold byte in Hp. cbn. lia.
  - assert (Hin : In (bandPeak (x :: rest)) (Js.slice a lo hi))
      by (rewrite E; apply bandPeak_attained; discriminate).
    apply in_slice in Hin; [|lia|lia]. destruct Hin as [j [Hj Hx]].
    rewrite <- Hx. etransitivity; [apply H|].
    apply bandPeak_ge. apply in_slice; [lia | lia |]. now exists j.
Qed.

End MoreBandFacts.

(** X1: whenever the data array is not empty, the nine band boundaries
    start at bin 1, end at [endBin = min(800, length)] and never decrease,
    whatever the length of the array. *)
Theorem X1_boundaries_for_any_length (dataArray : list Z) :
  dataArray <> [] ->
  let bb := Analysis.bandBoundaries dataArray in
  length bb = 9%nat /\
  nth 0 bb 0%Z = 1%Z /\
  nth 8 bb 0%Z = Z.min 800 (Z.of_nat (length dataArray)) /\
  forall i, (i < 8)%nat -> (nth i bb 0 <= nth (S i) bb 0)%Z.
Proof.
  intros Hne bb. apply (bandBoundaries_ok dataArray).
  unfold Analysis.endBin. destruct dataArray; [congruence | simpl length; lia].
Qed.

Lemma X1_boundaries_for_any_length_witness :
  let bb := Analysis.bandBoundaries [5; 7; 9]%Z in
  length bb = 9%nat /\
  nth 0 bb 0%Z = 1%Z /\
  nth 8 bb 0%Z = Z.min 800 (Z.of_nat (length [5; 7; 9]%Z)) /\
  forall i, (i < 8)%nat -> (nth i bb 0 <= nth (S i) bb 0)%Z.
Proof. apply (X1_boundaries_for_any_length [5; 7; 9]%Z). discriminate. Defined.

(** X2: the bands are monotone in the spectrum: when one byte array is
    bin by bin at most another of the same length, each of its bands is at
    most the corresponding band of the other. *)
Theorem X2_bands_monotone (a b : list Z) :
  bytes a -> bytes b -> length a = length b ->
  (forall j, (nth j a 0 <= nth j b 0)%Z) ->
  forall i, (nth i (Analysis.frequencyBands a) 0 <= nth i (Analysis.frequencyBands b) 0)%Z.
Proof.
  intros Ha Hb Hl H i.
  assert (Hnonneg : forall l k, bytes l -> (0 <= nth k l 0)%Z).
  { intros l k Hbl. destruct (Nat.lt_ge_cases k (length l)) as [Hk|Hk].
    - unfold bytes in Hbl. rewrite Forall_forall in Hbl.
      apply (Hbl (nth k l 0%Z)), nth_In, Hk.
    - rewrite nth_overflow by assumption. lia. }
  destruct (Nat.lt_ge_cases i 8) as [Hi|Hi].
  2:{ rewrite !nth_overflow by (rewrite length_frequencyBands; lia). lia. }
  destruct (Z.ltb_spec 0 (Js.sum a)) as [Hs|Hs].
  - assert (Hs' : (0 < Js.sum b)%Z) by (pose proof (sum_le a b Hl H); lia).
    rewrite (frequencyBands_signal a Hs), (frequencyBands_signal b Hs').
    rewrite !nth_map_seq by assumption.
    pose proof (signal_nonempty a Hs) as HE.
    pose proof (bandBoundaries_ok a HE) as Hok.
    pose proof (boundaries_ok_range _ _ i Hok ltac:(lia)) as Hlo.
    pose proof (boundaries_ok_range _ _ (S i) Hok ltac:(lia)) as Hhi.
    assert (Hm : (nth i (Analysis.bandBoundaries a) 0
                  <= nth (S i) (Analysis.bandBoundaries a) 0)%Z)
      by (destruct Hok as (_ & _ & _ & Hmono); now apply Hmono).
    pose proof (endBin_le_length a) as Hlen.
    assert (Ebb : Analysis.bandBoundaries b = Analysis.bandBoundaries a).
    { unfold Analysis.bandBoundaries. now rewrite (endBin_length b a). }
    unfold bandBins. rewrite Ebb.
    apply bandPeak_slice_le; try assumption; lia.
  - assert (E : Analysis.frequencyBands a = Js.zeros 8).
    { unfold Analysis.frequencyBands.
      destruct (Z.ltb_spec 0 (Js.sum a)); [lia | reflexivity]. }
    rewrite E, nth_zeros. apply Hnonneg. now apply bytes_frequencyBands.
Qed.

Lemma X2_bands_monotone_witness :
  (nth 0 (Analysis.frequencyBands [0; 1; 2]) 0
   <= nth 0 (Analysis.frequencyBands [0; 5; 2]) 0)%Z.
Proof.
  refine (X2_bands_monotone [0; 1; 2]%Z [0; 5; 2]%Z _ _ _ _ 0%nat).
  - apply bytesb_bytes. reflexivity.
  - apply bytesb_bytes. reflexivity.
  - reflexivity.
  - intros j. destruct j as [|[|[|[|j]]]]; vm_compute; discriminate.
Defined.

(** X3: no sampled energy is lost and none is invented: every bin of the
    sampled range, [1 <= j < endBin], is at most the band it falls into, and
    every band is zero or the value of a bin of the sampled range. *)
Theorem X3_bands_cover_sampled_bins (dataArray : list Z) :
  bytes dataArray ->
  (forall j, (1 <= j < Analysis.endBin dataArray)%Z ->
     exists i, (i < 8)%nat /\
       (nth (Z.to_nat j) dataArray 0 <= nth i (Analysis.frequencyBands dataArray) 0)%Z) /\
  (forall i, (i < 8)%nat ->
     nth i (Analysis.frequencyBands dataArray) 0%Z = 0%Z \/
     exists j, (1 <= j < Analysis.endBin dataArray)%Z /\
       nth i (Analysis.frequencyBands dataArray) 0%Z = nth (Z.to_nat j) dataArray 0%Z).
Proof.
  intros Hb. destruct (Z.ltb_spec 0 (Js.sum dataArray)) as [Hs|Hs].
  - pose proof (signal_nonempty _ Hs) as HE.
    pose proof (bandBoundaries_ok _ HE) as Hok.
    pose proof (endBin_le_length dataArray) as Hlen.
    rewrite (frequencyBands_signal _ Hs). split.
    + intros j Hj.
      destruct (chain_interval (fun i => nth i (Analysis.bandBoundaries dataArray) 0%Z) 8 j)
        as [i [Hi Hij]].
      { destruct Hok as (_ & H0 & H8 & _). cbv beta. lia. }
      cbv beta in Hij. exists i. split; [exact Hi|].
      rewrite nth_map_seq by assumption.
      pose proof (boundaries_ok_range _ _ i Hok ltac:(lia)).
      pose proof (boundaries_ok_range _ _ (S i) Hok ltac:(lia)).
      apply bandPeak_ge. unfold bandBins. apply in_slice; [lia | lia |].
      exists j. split; [lia | reflexivity].
    + intros i Hi. rewrite nth_map_seq by assumption.
      pose proof (boundaries_ok_range _ _ i Hok ltac:(lia)).
      pose proof (boundaries_ok_range _ _ (S i) Hok ltac:(lia)).
      assert (Hm : (nth i (Analysis.bandBoundaries dataArray) 0
                    <= nth (S i) (Analysis.bandBoundaries dataArray) 0)%Z)
        by (destruct Hok as (_ & _ & _ & Hmono); now apply Hmono).
      destruct (bandBins (Analysis.bandBoundaries dataArray) dataArray i) as [|x rest] eqn:E;
        [left; reflexivity|].
      right.
      assert (Hin : In (Analysis.bandPeak (x :: rest))
                       (bandBins (Analysis.bandBoundaries dataArray) dataArray i))
        by (rewrite E; apply bandPeak_attained; discriminate).
      unfold bandBins in Hin. apply in_slice in Hin; [|lia|lia].
      destruct Hin as [j [Hj Hx]]. exists j. split; [lia | now rewrite Hx].
  - assert (Hz : Js.sum dataArray = 0%Z) by (pose proof (sum_nonneg _ Hb); lia).
    assert (E : Analysis.frequencyBands dataArray = Js.zeros 8).
    { unfold Analysis.frequencyBands.
      destruct (Z.ltb_spec 0 (Js.sum dataArray)); [lia | reflexivity]. }
    rewrite E. split.
    + intros j _. exists 0%nat. split; [lia|].
      rewrite (sum_zero_all_zero _ Hb Hz), nth_zeros. lia.
    + intros i _. left. apply nth_zeros.
Qed.

Lemma X3_bands_cover_sampled_bins_witness :
  (forall j, (1 <= j < Analysis.endBin threePeaks)%Z ->
     exists i, (i < 8)%nat /\
       (nth (Z.to_nat j) threePeaks 0 <= nth i (Analysis.frequencyBands threePeaks) 0)%Z) /\
  (forall i, (i < 8)%nat ->
     nth i (Analysis.frequencyBands threePeaks) 0%Z = 0%Z \/
     exists j, (1 <= j < Analysis.endBin threePeaks)%Z /\
       nth i (Analysis.frequencyBands threePeaks) 0%Z = nth (Z.to_nat j) threePeaks 0%Z).
Proof.
  apply (X3_bands_cover_sampled_bins threePeaks).
  apply bytesb_bytes. vm_compute. reflexivity.
Defined.

(* ------------------------------------------------------------------ *)
(** ** The volume *)

Section MoreVolumeFacts.

Local Open Scope R_scope.

Import Analysis.

Lemma sumOfSquares_map (l : list Z) :
  sumOfSquares l = fold_right Rplus 0 (map (fun b => amplitude b * amplitude b) l).
Proof.
  unfold sumOfSquares. rewrite sumOfSquares_acc, Rplus_0_l, map_map. reflexivity.
Qed.

Lemma squares_between (l : list Z) :
  bytes l ->
  0 <= fold_right Rplus 0 (map (fun b => amplitude b * amplitude b) l)
    <= INR (length l).
Proof. intros Hb. rewrite <- sumOfSquares_map. now apply sumOfSquares_bounds. Qed.

Lemma squares_sum_zero (l : list Z) :
  bytes l ->
  fold_right Rplus 0 (map (fun b => amplitude b * amplitude b) l) = 0 ->
  forall b, In b l -> amplitude b = 0.
Proof.
  induction 1 as [|x l Hx Hl IH]; intros Hs b Hin; [contradiction|].
  cbn [map fold_right] in Hs.
  pose proof (amplitude_square_le_1 x Hx) as Hx2.
  pose proof (squares_between l Hl) as Hrest.
  destruct Hin as [<- |Hin].
  - assert (E : amplitude x * amplitude x = 0) by lra. nra.
  - apply IH; [lra | assumption].
Qed.

Lemma squares_sum_full (l : list Z) :
  bytes l ->
  fold_right Rplus 0 (map (fun b => amplitude b * amplitude b) l) = INR (length l) ->
  forall b, In b l -> amplitude b * amplitude b = 1.
Proof.
  induction 1 as [|x l Hx Hl IH]; intros Hs b Hin; [contradiction|].
  change (length (x :: l)) with (S (length l)) in Hs. rewrite S_INR in Hs.
  cbn [map fold_right] in Hs.
  pose proof (amplitude_square_le_1 x Hx) as Hx2.
  pose proof (squares_between l Hl) as Hrest.
  destruct Hin as [<- |Hin]; [lra|].
  apply IH; [lra | assumption].
Qed.

Lemma all_equal_repeat (l : list Z) (v : Z) :
  (forall b, In b l -> b = v) -> l = repeat v (length l).
Proof.
  induction l as [|x l IH]; intros H; [reflexivity|].
  cbn. rewrite (H x) by now left. f_equal. apply IH. intros b Hb. apply H. now right.
Qed.

End MoreVolumeFacts.

(** X4: for a time-domain buffer of bytes that is not empty, the volume is
    0 exactly when every sample is 128, and it is 1 exactly when every sample
    is 0. *)
Theorem X4_volume_extremes (timeDomainData : list Z) :
  bytes timeDomainData -> timeDomainData <> [] ->
  (Analysis.rawVolume timeDomainData = 0%R <->
   forall b, In b timeDomainData -> b = 128%Z) /\
  (Analysis.rawVolume timeDomainData = 1%R <->
   forall b, In b timeDomainData -> b = 0%Z).
Proof.
  intros Hb Hne.
  assert (Hn : (0 < INR (length timeDomainData))%R).
  { apply lt_0_INR. destruct timeDomainData; [congruence | simpl; lia]. }
  pose proof (squares_between _ Hb) as [Hlo Hhi].
  assert (Hq : (0 <= Analysis.sumOfSquares timeDomainData
                     / INR (length timeDomainData))%R).
  { rewrite sumOfSquares_map. apply Rmult_le_pos; [exact Hlo|].
    left. now apply Rinv_0_lt_compat. }
  split; split.
  - intros H0 b Hin. unfold Analysis.rawVolume in H0.
    apply sqrt_eq_0 in H0; [|exact Hq].
    assert (Hs : Analysis.sumOfSquares timeDomainData = 0%R).
    { apply (Rmult_eq_compat_r (INR (length timeDomainData))) in H0.
      unfold Rdiv in H0. rewrite Rmult_assoc, Rinv_l, Rmult_1_r, Rmult_0_l in H0 by lra.
      exact H0. }
    rewrite sumOfSquares_map in Hs.
    pose proof (squares_sum_zero _ Hb Hs b Hin) as Ha. unfold Analysis.amplitude in Ha.
    apply eq_IZR. lra.
  - apply rawVolume_silent.
  - intros H1 b Hin. unfold Analysis.rawVolume in H1.
    assert (Hs : Analysis.sumOfSquares timeDomainData = INR (length timeDomainData)).
    { pose proof (sqrt_sqrt _ Hq) as Hsq. rewrite H1 in Hsq.
      assert (Hs : Analysis.sumOfSquares timeDomainData
                   = (Analysis.sumOfSquares timeDomainData
                      / INR (length timeDomainData) * INR (length timeDomainData))%R)
        by (field; lra).
      rewrite <- Hsq in Hs. lra. }
    rewrite sumOfSquares_map in Hs.
    pose proof (squares_sum_full _ Hb Hs b Hin) as Ha. unfold Analysis.amplitude in Ha.
    unfold bytes in Hb. rewrite Forall_forall in Hb. destruct (Hb b Hin) as [H0 H255].
    apply IZR_le in H0. apply IZR_le in H255.
    apply eq_IZR.
    assert (Hcase : (IZR b / 128 - 1 = 1 \/ IZR b / 128 - 1 = -1)%R) by nra.
    destruct Hcase; lra.
  - intros H. rewrite (all_equal_repeat _ _ H).
    rewrite rawVolume_repeat by (destruct timeDomainData; [congruence | simpl; lia]).
    unfold Analysis.amplitude. rewrite Rabs_left; lra.
Qed.

Lemma X4_volume_extremes_witness :
  (Analysis.rawVolume [128; 128]%Z = 0%R <->
   forall b, In b [128; 128]%Z -> b = 128%Z) /\
  (Analysis.rawVolume [128; 128]%Z = 1%R <->
   forall b, In b [128; 128]%Z -> b = 0%Z).
Proof.
  apply (X4_volume_extremes [128; 128]%Z).
  - apply bytesb_bytes. reflexivity.
  - discriminate.
Defined.

(* ------------------------------------------------------------------ *)
(** ** The processor and its graph *)

Section MoreGraphFacts.

Import WebAudio AudioProcessor Calls.

(** [initAudioContext] on any processor: it succeeds, allocates nodes only,
    keeps an existing context and every handle. *)
Lemma initAudioContext_shape (w : World) :
  exists ctx an g,
    initAudioContext w =
      (true,
       {| this :=
            {| audioContext := Some ctx; analyser := Some an;
               dataArray := Some (Js.zeros Analysis.frequencyBinCount);
               microphoneStream := microphoneStream (this w);
               oscillator := oscillator (this w);
               sourceNode := sourceNode (this w);
               mediaElementSource := mediaElementSource (this w);
               connectedAudioElement := connectedAudioElement (this w) |};
          graph := g |}) /\
    connections g = connections (graph w) /\
    started g = started (graph w) /\
    liveTracks g = liveTracks (graph w) /\
    boundElements g = boundElements (graph w) /\
    nextId (graph w) <= an /\ nextId g = S an /\
    (forall c, audioContext (this w) = Some c -> ctx = c).
Proof.
  unfold initAudioContext. destruct (audioContext (this w)) as [c|].
  - exists c, (nextId (graph w)), (snd (createNode (graph w))). cbn.
    repeat split; try reflexivity; try lia. intros c' E. now injection E.
  - exists (nextId (graph w)), (S (nextId (graph w))),
           (snd (createNode (snd (createNode (graph w))))). cbn.
    repeat split; try reflexivity; try lia. intros c' E. discriminate E.
Qed.

Lemma filter_filter {A : Type} (f g : A -> bool) (l : list A) :
  filter f (filter g l) = filter (fun x => g x && f x) l.
Proof.
  induction l as [|a l IH]; [reflexivity|].
  cbn. destruct (g a); cbn; [destruct (f a); now rewrite IH | exact IH].
Qed.

(** [stopTracks] stops the given tracks and nothing else. *)
Lemma stopTracks_spec (ts : list nat) (g : Graph) :
  nextId (snd (stopTracks ts g)) = nextId g /\
  connections (snd (stopTracks ts g)) = connections g /\
  started (snd (stopTracks ts g)) = started g /\
  boundElements (snd (stopTracks ts g)) = boundElements g /\
  forall t, In t (liveTracks (snd (stopTracks ts g))) <->
            In t (liveTracks g) /\ ~ In t ts.
Proof.
  revert g. induction ts as [|u ts IH]; intros g.
  - cbn. repeat split; try reflexivity; tauto.
  - cbn [stopTracks]. unfold bind.
    destruct (IH (snd (stopTrack u g))) as (H1 & H2 & H3 & H4 & H5).
    change (stopTrack u g) with (tt, snd (stopTrack u g)).
    cbn [snd] in *. rewrite H1, H2, H3, H4. cbn.
    do 4 (split; [reflexivity|]). intros t. rewrite H5. cbn.
    rewrite filter_In, negb_true_iff, Nat.eqb_neq. split.
    + intros [[Hin Hne] Hn]. split; [exact Hin|].
      intros [E|Hts]; [congruence | tauto].
    + intros [Hin Hn]. split; [split; [exact Hin|] | tauto].
      intros E. apply Hn. left. congruence.
Qed.

Lemma in_disconnect (node : nat) (g : Graph) (c : connection) :
  In c (connections (snd (disconnect node g))) <->
  In c (connections g) /\ fst c <> node.
Proof.
  cbn. rewrite filter_In, negb_true_iff, Nat.eqb_neq. tauto.
Qed.

End MoreGraphFacts.

Section CleanupFacts.

Import WebAudio AudioProcessor Calls.

(** What [cleanup] does to the graph, element by element. *)
Lemma cleanup_graph (w : World) :
  nextId (graph (cleanup w)) = nextId (graph w) /\
  boundElements (graph (cleanup w)) = boundElements (graph w) /\
  (forall c, In c (connections (graph (cleanup w))) <->
             In c (connections (graph w)) /\ ~ In (fst c) (released w)) /\
  (forall o, In o (started (graph (cleanup w))) <->
             In o (started (graph w)) /\ oscillator (this w) <> Some o) /\
  (forall t, In t (liveTracks (graph (cleanup w))) <->
             In t (liveTracks (graph w)) /\
             forall ts, microphoneStream (this w) = Some ts -> ~ In t ts).
Proof.
  destruct w as [f g]. destruct f as [ctx an d ms osc src mes el].
  unfold cleanup, released. cbn [this graph microphoneStream oscillator sourceNode
                                  mediaElementSource analyser audioContext
                                  connectedAudioElement].
  assert (Hms : exists g1,
            match ms with
            | Some tracks => stopTracks tracks g
            | None => (tt, g)
            end = (tt, g1) /\
            nextId g1 = nextId g /\ connections g1 = connections g /\
            started g1 = started g /\ boundElements g1 = boundElements g /\
            forall t, In t (liveTracks g1) <->
                      In t (liveTracks g) /\ forall ts, ms = Some ts -> ~ In t ts).
  { destruct ms as [ts|].
    - exists (snd (stopTracks ts g)).
      destruct (stopTracks_spec ts g) as (H1 & H2 & H3 & H4 & H5).
      split; [now destruct (stopTracks ts g) as [[] g1]|].
      do 4 (split; [assumption|]). intros t. rewrite H5. split.
      + intros [Hin Hn]. split; [exact Hin|]. intros ts' E. now injection E as <-.
      + intros [Hin Hn]. split; [exact Hin|]. now apply Hn.
    - exists g. split; [reflexivity|]. do 4 (split; [reflexivity|]).
      intros t. split; [intros Hin; split; [exact Hin | discriminate] | tauto]. }
  destruct Hms as (g1 & E & H1 & H2 & H3 & H4 & H5). rewrite E.
  destruct osc as [o'|], src as [s'|], mes as [m'|], an as [a'|];
    cbn; rewrite ?H1, ?H2, ?H3, ?H4;
    (split; [reflexivity|]); (split; [reflexivity|]);
    (split; [|split; [|exact H5]]);
    intros x; repeat rewrite filter_In; repeat rewrite negb_true_iff;
    repeat rewrite Nat.eqb_neq; intuition congruence.
Qed.

End CleanupFacts.

(** X5: [cleanup] is idempotent on every processor, whatever it holds: a
    second call changes neither the fields nor the graph. *)
Theorem X5_cleanup_idempotent (w : AudioProcessor.World) :
  AudioProcessor.cleanup (AudioProcessor.cleanup w) = AudioProcessor.cleanup w.
Proof. apply cleanup_idempotent. Qed.

(** X6: what [cleanup] releases, and only that: the connections that
    remain are those not leaving the stored oscillator, the microphone
    source node, the media element source or the analyser; the oscillators
    that remain started are all but the stored one; the tracks that remain
    live are those not in the stored microphone stream; no node is created
    and no element binding is dropped. *)
Theorem X6_cleanup_releases_its_handles (w : AudioProcessor.World) :
  let g := AudioProcessor.graph w in
  let g' := AudioProcessor.graph (AudioProcessor.cleanup w) in
  WebAudio.nextId g' = WebAudio.nextId g /\
  WebAudio.boundElements g' = WebAudio.boundElements g /\
  (forall c, In c (WebAudio.connections g') <->
             In c (WebAudio.connections g) /\ ~ In (fst c) (Calls.released w)) /\
  (forall o, In o (WebAudio.started g') <->
             In o (WebAudio.started g) /\
             AudioProcessor.oscillator (AudioProcessor.this w) <> Some o) /\
  (forall t, In t (WebAudio.liveTracks g') <->
             In t (WebAudio.liveTracks g) /\
             forall ts, AudioProcessor.microphoneStream (AudioProcessor.this w) = Some ts ->
                        ~ In t ts).
Proof. apply cleanup_graph. Qed.

Section AcquisitionFacts.

Import WebAudio AudioProcessor Calls.

(** When [connectAudioElement] succeeds, and what it then holds. *)
Lemma connectAudioElement_result (audioElement : nat) (w : World) :
  (fst (connectAudioElement audioElement w) = true <->
   (connectedAudioElement (this w) = Some audioElement /\
    mediaElementSource (this w) <> None) \/
   existsb (Nat.eqb audioElement) (boundElements (graph w)) = false) /\
  (fst (connectAudioElement audioElement w) = true ->
   connectedAudioElement (this (snd (connectAudioElement audioElement w)))
     = Some audioElement /\
   mediaElementSource (this (snd (connectAudioElement audioElement w))) <> None) /\
  (connectedAudioElement (this w) = Some audioElement ->
   mediaElementSource (this w) <> None ->
   mediaElementSource (this (snd (connectAudioElement audioElement w)))
     = mediaElementSource (this w) /\
   boundElements (graph (snd (connectAudioElement audioElement w)))
     = boundElements (graph w)).
Proof.
  destruct (initAudioContext_shape w)
    as (ctx & an & g & E & Hc & Hs & Hl & Hb & _ & _ & _).
  unfold connectAudioElement. rewrite E.
  cbn [negb this graph audioContext analyser connectedAudioElement mediaElementSource].
  assert (Hcon : forall a b g0, boundElements (snd ((connect a b;;; connect an (NodeInput ctx)) g0))
                           = boundElements g0) by reflexivity.
  destruct (connectedAudioElement (this w)) as [e|].
  - destruct (Nat.eqb_spec e audioElement) as [-> |Hne].
    + destruct (mediaElementSource (this w)) as [src|].
      * specialize (Hcon src (NodeInput an) g).
        destruct ((connect src (NodeInput an);;; connect an (NodeInput ctx)) g)
          as [u g1].
        cbn [fst snd this graph connectedAudioElement mediaElementSource] in *.
        rewrite Hcon, Hb.
        repeat split; intros; try reflexivity; try discriminate.
        left; split; [reflexivity | discriminate].
      * unfold createMediaElementSource. rewrite Hb.
        destruct (existsb (Nat.eqb audioElement) (boundElements (graph w))).
        -- cbn [fst snd this graph connectedAudioElement mediaElementSource].
           repeat split; intros; try reflexivity; try discriminate; try congruence.
           destruct H as [[_ H]|H]; [congruence | discriminate].
        -- cbn [fst snd this graph connectedAudioElement mediaElementSource].
           repeat split; intros; try reflexivity; try discriminate; try congruence.
           right; reflexivity.
    + unfold createMediaElementSource. rewrite Hb.
      destruct (existsb (Nat.eqb audioElement) (boundElements (graph w))).
      * cbn [fst snd this graph connectedAudioElement mediaElementSource].
        repeat split; intros; try reflexivity; try discriminate; try congruence.
        destruct H as [[H _]|H]; [congruence | discriminate].
      * cbn [fst snd this graph connectedAudioElement mediaElementSource].
        repeat split; intros; try reflexivity; try discriminate; try congruence.
        right; reflexivity.
  - unfold createMediaElementSource. rewrite Hb.
    destruct (existsb (Nat.eqb audioElement) (boundElements (graph w))).
    + cbn [fst snd this graph connectedAudioElement mediaElementSource].
      repeat split; intros; try reflexivity; try discriminate; try congruence.
      destruct H as [[H _]|H]; discriminate.
    + cbn [fst snd this graph connectedAudioElement mediaElementSource].
      repeat split; intros; try reflexivity; try discriminate; try congruence.
      right; reflexivity.
Qed.

End AcquisitionFacts.

Section ProcessorFacts.

Import WebAudio AudioProcessor Calls.

(** What [cleanup] keeps: the context, the analyser, and the element source
    with its element. *)
Lemma cleanup_kept (w : World) :
  audioContext (this (cleanup w)) = audioContext (this w) /\
  analyser (this (cleanup w)) = analyser (this w) /\
  mediaElementSource (this (cleanup w)) = mediaElementSource (this w) /\
  connectedAudioElement (this (cleanup w)) = connectedAudioElement (this w).
Proof.
  unfold cleanup.
  destruct (match microphoneStream (this w) with Some _ => _ | None => _ end) as [? g1].
  destruct (match oscillator (this w) with Some _ => _ | None => _ end) as [? g2].
  destruct (match sourceNode (this w) with Some _ => _ | None => _ end) as [? g3].
  destruct (match mediaElementSource (this w) with Some _ => _ | None => _ end) as [? g4].
  destruct (match analyser (this w) with Some _ => _ | None => _ end) as [? g5].
  simpl. auto.
Qed.

(** A granted stream: [n] tracks with the next [n] identifiers, all live. *)
Lemma newTracks_spec (n : nat) (g : Graph) :
  fst (newTracks n g) = seq (nextId g) n /\
  nextId (snd (newTracks n g)) = nextId g + n /\
  connections (snd (newTracks n g)) = connections g /\
  started (snd (newTracks n g)) = started g /\
  liveTracks (snd (newTracks n g)) = liveTracks g ++ seq (nextId g) n /\
  boundElements (snd (newTracks n g)) = boundElements g.
Proof.
  revert g. induction n as [|n IH]; intros g.
  - cbn. rewrite Nat.add_0_r, app_nil_r. repeat split; reflexivity.
  - cbn [newTracks]. unfold bind, ret.
    set (g1 := {| nextId := S (nextId g); connections := connections g;
                  started := started g;
                  liveTracks := liveTracks g ++ [nextId g];
                  boundElements := boundElements g |}).
    destruct (IH g1) as (H1 & H2 & H3 & H4 & H5 & H6).
    destruct (newTracks n g1) as [ts g2]. cbn [fst snd] in *.
    subst ts. rewrite H2, H3, H4, H5, H6. subst g1. cbn.
    rewrite <- app_assoc. cbn. repeat split; try reflexivity. lia.
Qed.

(** [requestMicrophoneAccess] with the stream granted. *)
Lemma requestMicrophoneAccess_granted (n : nat) (spectrum : list Z) (w : World) :
  let r := requestMicrophoneAccess (Some n) spectrum w in
  fst r = true /\
  (exists first, nextId (graph w) < first /\
     microphoneStream (this (snd r)) = Some (seq first n) /\
     liveTracks (graph (snd r)) = liveTracks (graph w) ++ seq first n) /\
  started (graph (snd r)) = started (graph w) /\
  boundElements (graph (snd r)) = boundElements (graph w) /\
  oscillator (this (snd r)) = oscillator (this w) /\
  sourceNode (this (snd r)) <> None.
Proof.
  destruct (initAudioContext_shape w)
    as (ctx & an & g & E & Hc & Hs & Hl & Hb & Hlo & Hn & _).
  unfold requestMicrophoneAccess. rewrite E.
  cbn [negb this graph audioContext analyser sourceNode].
  destruct (newTracks_spec n g) as (T1 & T2 & T3 & T4 & T5 & T6).
  destruct (newTracks n g) as [stream g1]. cbn [fst snd] in *.
  assert (D : exists g2,
            match sourceNode (this w) with
            | Some old => disconnect old g1
            | None => (tt, g1)
            end = (tt, g2) /\
            started g2 = started g1 /\ liveTracks g2 = liveTracks g1 /\
            boundElements g2 = boundElements g1).
  { destruct (sourceNode (this w)); eexists; (split; [reflexivity|]); auto. }
  destruct D as (g2 & -> & D1 & D2 & D3).
  cbn [createNode connect fst snd this graph microphoneStream oscillator sourceNode
       started liveTracks boundElements].
  rewrite D1, D2, D3, T4, T5, T6, Hs, Hl, Hb, T1.
  split; [reflexivity|]. split.
  - exists (nextId g). split; [lia|]. split; reflexivity.
  - repeat split; try reflexivity. discriminate.
Qed.

(** [requestMicrophoneAccess] with the stream denied. *)
Lemma requestMicrophoneAccess_denied (spectrum : list Z) (w : World) :
  let r := requestMicrophoneAccess None spectrum w in
  fst r = false /\
  microphoneStream (this (snd r)) = microphoneStream (this w) /\
  oscillator (this (snd r)) = oscillator (this w) /\
  sourceNode (this (snd r)) = sourceNode (this w) /\
  mediaElementSource (this (snd r)) = mediaElementSource (this w) /\
  connectedAudioElement (this (snd r)) = connectedAudioElement (this w) /\
  connections (graph (snd r)) = connections (graph w) /\
  started (graph (snd r)) = started (graph w) /\
  liveTracks (graph (snd r)) = liveTracks (graph w) /\
  boundElements (graph (snd r)) = boundElements (graph w) /\
  dataArray (this (snd r)) = Some (Js.zeros Analysis.frequencyBinCount) /\
  exists an, analyser (this (snd r)) = Some an /\ nextId (graph w) <= an.
Proof.
  destruct (initAudioContext_shape w)
    as (ctx & an & g & E & Hc & Hs & Hl & Hb & Hlo & Hn & _).
  unfold requestMicrophoneAccess. rewrite E. cbn.
  repeat split; try assumption. exists an. auto.
Qed.



(** Reading the analyser twice in a row changes nothing the second time. *)
Lemma getByteFrequencyData_twice (spectrum array : list Z) :
  getByteFrequencyData spectrum (getByteFrequencyData spectrum array)
  = getByteFrequencyData spectrum array.
Proof.
  unfold getByteFrequencyData.
  destruct (Nat.le_gt_cases (length array) (length spectrum)) as [H|H].
  - rewrite (skipn_all2 array) by exact H. rewrite !app_nil_r.
    rewrite length_firstn, Nat.min_l by exact H.
    rewrite skipn_all2
      by (rewrite length_firstn; apply Nat.le_trans with (length array);
          [apply Nat.le_min_l | exact H]).
    apply app_nil_r.
  - rewrite (firstn_all2 (n:=length array) spectrum) by lia.
    rewrite length_app, length_skipn.
    replace (length spectrum + (length array - length spectrum))
      with (length array) by lia.
    rewrite (firstn_all2 spectrum) by lia.
    rewrite skipn_app, skipn_all, Nat.sub_diag. reflexivity.
Qed.

Lemma length_getByteFrequencyData (spectrum array : list Z) :
  length (getByteFrequencyData spectrum array) = length array.
Proof.
  unfold getByteFrequencyData.
  rewrite length_app, length_firstn, length_skipn. lia.
Qed.

End ProcessorFacts.

Section AwaitFacts.

Import WebAudio AudioProcessor.

(** Each acquisition method is [initAudioContext] followed by the part of
    the method that runs once its promise has settled. *)
Lemma requestMicrophoneAccess_split (granted : option nat) (spectrum : list Z)
    (w : World) :
  requestMicrophoneAccess granted spectrum w
  = Awaits.requestMicrophoneAccessFrom granted spectrum (snd (initAudioContext w)).
Proof.
  destruct (initAudioContext_shape w) as (ctx & an & g & E & _).
  unfold requestMicrophoneAccess. rewrite E. reflexivity.
Qed.

Lemma createTestTone_split (w : World) :
  createTestTone w = Awaits.createTestToneFrom (snd (initAudioContext w)).
Proof.
  destruct (initAudioContext_shape w) as (ctx & an & g & E & _).
  unfold createTestTone. rewrite E. reflexivity.
Qed.

Lemma connectAudioElement_split (audioElement : nat) (w : World) :
  connectAudioElement audioElement w
  = Awaits.connectAudioElementFrom audioElement (snd (initAudioContext w)).
Proof.
  destruct (initAudioContext_shape w) as (ctx & an & g & E & _).
  unfold connectAudioElement. rewrite E. reflexivity.
Qed.

End AwaitFacts.

Section ProcessorClaims.

Import WebAudio AudioProcessor Calls.

(** X7: [connectAudioElement], on a platform that may refuse an audio
    context, reports success exactly when the processor holds a context or
    the platform grants one, and moreover it can reuse the source node it
    holds for this very element or the element is not yet bound to a source
    node.  An element that is bound but no longer the connected one is
    refused, and a refused context leaves the processor as it was. *)
Theorem X7_connectAudioElement_success (available : bool) (audioElement : nat)
    (w : World) :
  (fst (Awaits.connectAudioElementOn available audioElement w) = true <->
   (audioContext (this w) <> None \/ available = true) /\
   ((connectedAudioElement (this w) = Some audioElement /\
     mediaElementSource (this w) <> None) \/
    existsb (Nat.eqb audioElement) (boundElements (graph w)) = false)) /\
  (audioContext (this w) = None -> available = false ->
   Awaits.connectAudioElementOn available audioElement w = (false, w)).
Proof.
  pose proof (proj1 (connectAudioElement_result audioElement w)) as Hr.
  pose proof (connectAudioElement_split audioElement w) as Hs.
  destruct (initAudioContext_shape w) as (ctx & an & g & E & _).
  unfold Awaits.connectAudioElementOn, Awaits.initAudioContextOn.
  destruct (audioContext (this w)) as [c|] eqn:Ec; [|destruct available].
  - rewrite E in *. cbn [negb snd] in *. rewrite <- Hs, Hr.
    split; [|discriminate]. split.
    + intros H. split; [left; discriminate | exact H].
    + intros [_ H]. exact H.
  - rewrite E in *. cbn [negb snd] in *. rewrite <- Hs, Hr.
    split; [|discriminate]. split.
    + intros H. split; [right; reflexivity | exact H].
    + intros [_ H]. exact H.
  - cbn [negb fst]. split; [|reflexivity]. split; [discriminate|].
    intros [[H|H] _]; [now contradiction H | discriminate H].
Qed.

(** X8: connect, release, connect again.  After a successful
    [connectAudioElement] and a [cleanup], connecting the same element again
    succeeds and reuses the source node: no second node is created for the
    element and no new binding is made. *)
Theorem X8_reconnect_after_cleanup (audioElement : nat) (w : World) :
  fst (connectAudioElement audioElement w) = true ->
  let w1 := snd (connectAudioElement audioElement w) in
  let again := connectAudioElement audioElement (cleanup w1) in
  fst again = true /\
  mediaElementSource (this (snd again)) = mediaElementSource (this w1) /\
  boundElements (graph (snd again)) = boundElements (graph w1).
Proof.
  intros Hok w1 again.
  destruct (connectAudioElement_result audioElement w) as (_ & H2 & _).
  destruct (H2 Hok) as [He Hm]. fold w1 in He, Hm.
  destruct (cleanup_kept w1) as (_ & _ & Km & Ke).
  destruct (cleanup_graph w1) as (_ & Kb & _).
  destruct (connectAudioElement_result audioElement (cleanup w1)) as (R1 & _ & R3).
  assert (He' : connectedAudioElement (this (cleanup w1)) = Some audioElement)
    by congruence.
  assert (Hm' : mediaElementSource (this (cleanup w1)) <> None) by congruence.
  destruct (R3 He' Hm') as [S1 S2]. fold again in S1, S2.
  split; [|split].
  - apply R1. left. split; assumption.
  - congruence.
  - congruence.
Qed.

Lemma X8_reconnect_after_cleanup_witness :
  let w1 := snd (connectAudioElement 0 initial) in
  let again := connectAudioElement 0 (cleanup w1) in
  fst again = true /\
  mediaElementSource (this (snd again)) = mediaElementSource (this w1) /\
  boundElements (graph (snd again)) = boundElements (graph w1).
Proof. apply (X8_reconnect_after_cleanup 0 initial). reflexivity. Defined.

(** X9: the audio context is created once.  Whatever public method is
    called on a processor that has a context, the processor has the same
    context afterwards; [cleanup] does not close it and no acquisition
    replaces it. *)
Theorem X9_audio_context_kept (call : Call) (w : World) (c : nat) :
  audioContext (this w) = Some c ->
  audioContext (this (perform call w)) = Some c.
Proof.
  intros Hc.
  destruct (initAudioContext_shape w)
    as (ctx & an & g & E & _ & _ & _ & _ & _ & _ & Hctx).
  specialize (Hctx c Hc). subst ctx.
  destruct call as [granted spectrum| |audioElement| |spectrum|spectrum];
    cbn [perform].
  - unfold requestMicrophoneAccess. rewrite E.
    cbn [negb this graph audioContext analyser sourceNode].
    destruct granted as [n|]; [|reflexivity].
    destruct (newTracks n g) as [stream g1].
    destruct (match sourceNode (this w) with Some _ => _ | None => _ end) as [? g2].
    reflexivity.
  - unfold createTestTone. rewrite E.
    cbn [negb this graph audioContext analyser oscillator].
    destruct (match oscillator (this w) with Some _ => _ | None => _ end) as [? g1].
    destruct (buildTestTone an g1) as [oscs g2]. reflexivity.
  - unfold connectAudioElement. rewrite E.
    cbn [negb this graph audioContext analyser connectedAudioElement
         mediaElementSource].
    unfold createMediaElementSource.
    destruct (connectedAudioElement (this w)) as [e|];
      [destruct (Nat.eqb e audioElement)|];
      destruct (mediaElementSource (this w)) as [src|];
      destruct (existsb (Nat.eqb audioElement) (boundElements g));
      reflexivity.
  - rewrite (proj1 (cleanup_kept w)). exact Hc.
  - unfold getFrequencyData.
    destruct (analyser (this w)); [|exact Hc].
    destruct (dataArray (this w)); exact Hc.
  - unfold getFrequencyBands.
    destruct (dataArray (this w)); [|exact Hc].
    destruct (analyser (this w)); exact Hc.
Qed.

Lemma X9_audio_context_kept_witness :
  audioContext (this (perform Cleanup toneWorld)) = Some 0.
Proof. apply (X9_audio_context_kept Cleanup toneWorld 0). reflexivity. Defined.

End ProcessorClaims.

Section ReachableFacts.

Import WebAudio AudioProcessor Calls.

(** Every acquisition method leaves an analyser, whatever its result. *)
Lemma requestMicrophoneAccess_analyser (granted : option nat)
    (spectrum : list Z) (w : World) :
  analyser (this (snd (requestMicrophoneAccess granted spectrum w))) <> None.
Proof.
  destruct (initAudioContext_shape w) as (ctx & an & g & E & _).
  unfold requestMicrophoneAccess. rewrite E.
  cbn [negb this graph audioContext analyser sourceNode].
  destruct granted as [n|]; [|discriminate].
  destruct (newTracks n g) as [stream g1].
  destruct (match sourceNode (this w) with Some _ => _ | None => _ end) as [? g2].
  discriminate.
Qed.

Lemma createTestTone_analyser (w : World) :
  analyser (this (snd (createTestTone w))) <> None.
Proof.
  destruct (initAudioContext_shape w) as (ctx & an & g & E & _).
  unfold createTestTone. rewrite E.
  cbn [negb this graph audioContext analyser oscillator].
  destruct (match oscillator (this w) with Some _ => _ | None => _ end) as [? g1].
  destruct (buildTestTone an g1) as [oscs g2]. discriminate.
Qed.

Lemma connectAudioElement_analyser (audioElement : nat) (w : World) :
  analyser (this (snd (connectAudioElement audioElement w))) <> None.
Proof.
  destruct (initAudioContext_shape w) as (ctx & an & g & E & _).
  unfold connectAudioElement. rewrite E.
  cbn [negb this graph audioContext analyser connectedAudioElement
       mediaElementSource].
  unfold createMediaElementSource.
  destruct (connectedAudioElement (this w)) as [e|];
    [destruct (Nat.eqb e audioElement)|];
    destruct (mediaElementSource (this w)) as [src|];
    destruct (existsb (Nat.eqb audioElement) (boundElements g));
    discriminate.
Qed.

(** A processor that holds a data array holds an analyser. *)
Lemma reachable_analyser (w : World) :
  reachable w -> dataArray (this w) <> None -> analyser (this w) <> None.
Proof.
  induction 1 as [| granted spectrum w _ _ _ | w _ _ | e w _ _ | w _ _
                  | spectrum w _ IH _ | spectrum w _ IH _].
  - intros H. now contradiction H.
  - intros _. apply requestMicrophoneAccess_analyser.
  - intros _. apply createTestTone_analyser.
  - intros _. apply connectAudioElement_analyser.
  - intros H. contradiction H. apply cleanup_fields.
  - unfold getFrequencyData.
    destruct (analyser (this w)) eqn:Ea; [|cbn [snd]; rewrite Ea; exact IH].
    destruct (dataArray (this w)) eqn:Ed; cbn [snd this analyser];
      [discriminate | rewrite Ea; discriminate].
  - unfold getFrequencyBands.
    destruct (dataArray (this w)) eqn:Ed; [|cbn [snd]; rewrite Ed; exact IH].
    destruct (analyser (this w)) eqn:Ea; cbn [snd this analyser];
      [discriminate | intros _; exfalso; apply IH; [discriminate | reflexivity]].
Qed.

End ReachableFacts.

Section QueryClaims.

Import WebAudio AudioProcessor Calls.

(** X10: in every state that calls of the public methods lead to, the three
    queries are decided by the data array alone.  Without one they return
    null, eight zeros and 0; with one they return the spectrum the analyser
    reports, its bands, and the volume of the samples it reports, whatever
    was read before. *)
Theorem X10_queries_follow_the_data_array (w : World)
    (spectrum samples : list Z) :
  reachable w -> spectrum_ok spectrum ->
  (dataArray (this w) = None ->
     fst (getFrequencyData spectrum w) = None /\
     fst (getFrequencyBands spectrum w) = Js.zeros 8 /\
     getRawVolume samples w = 0%R) /\
  (dataArray (this w) <> None ->
     fst (getFrequencyData spectrum w) = Some spectrum /\
     fst (getFrequencyBands spectrum w) = Analysis.frequencyBands spectrum /\
     getRawVolume samples w = Analysis.rawVolume samples).
Proof.
  intros Hr Hs. split; intros Hd.
  - unfold getFrequencyData, getFrequencyBands, getRawVolume. rewrite Hd.
    destruct (analyser (this w)); auto.
  - pose proof (reachable_analyser w Hr Hd) as Ha.
    pose proof (reachable_dataArray w Hr) as Hok.
    unfold getFrequencyData, getFrequencyBands, getRawVolume.
    unfold dataArray_ok in Hok.
    destruct (dataArray (this w)) as [d|]; [|congruence].
    destruct (analyser (this w)); [|congruence].
    cbn [fst]. rewrite (getByteFrequencyData_ok spectrum d Hs (Hok d eq_refl)).
    auto.
Qed.

Lemma X10_queries_follow_the_data_array_witness :
  (dataArray (this toneWorld) = None ->
     fst (getFrequencyData threePeaks toneWorld) = None /\
     fst (getFrequencyBands threePeaks toneWorld) = Js.zeros 8 /\
     getRawVolume loud toneWorld = 0%R) /\
  (dataArray (this toneWorld) <> None ->
     fst (getFrequencyData threePeaks toneWorld) = Some threePeaks /\
     fst (getFrequencyBands threePeaks toneWorld)
       = Analysis.frequencyBands threePeaks /\
     getRawVolume loud toneWorld = Analysis.rawVolume loud).
Proof.
  apply (X10_queries_follow_the_data_array toneWorld threePeaks loud).
  - apply (reach_tone initial). apply reach_initial.
  - split; [vm_compute; reflexivity | apply bytesb_bytes; vm_compute; reflexivity].
Defined.

(** X11: a denied microphone request reports failure and acquires nothing:
    the connections, the started oscillators, the live tracks, the element
    bindings and the stored source handles are those from before.  It has
    still replaced the analyser by a new node and the data array by 1024
    zeros. *)
Theorem X11_denied_request (spectrum : list Z) (w : World) :
  let r := requestMicrophoneAccess None spectrum w in
  fst r = false /\
  microphoneStream (this (snd r)) = microphoneStream (this w) /\
  oscillator (this (snd r)) = oscillator (this w) /\
  sourceNode (this (snd r)) = sourceNode (this w) /\
  mediaElementSource (this (snd r)) = mediaElementSource (this w) /\
  connectedAudioElement (this (snd r)) = connectedAudioElement (this w) /\
  connections (graph (snd r)) = connections (graph w) /\
  started (graph (snd r)) = started (graph w) /\
  liveTracks (graph (snd r)) = liveTracks (graph w) /\
  boundElements (graph (snd r)) = boundElements (graph w) /\
  dataArray (this (snd r)) = Some (Js.zeros Analysis.frequencyBinCount) /\
  exists an, analyser (this (snd r)) = Some an /\ nextId (graph w) <= an.
Proof. apply requestMicrophoneAccess_denied. Qed.

(** X12: the queries only read.  [getFrequencyData] and [getFrequencyBands]
    leave the graph and every field but the data array as they are, the data
    array keeps its length, and a second read of the same spectrum changes
    nothing more and returns the same bands. *)
Theorem X12_queries_only_read (spectrum : list Z) (w : World) :
  let w1 := snd (getFrequencyData spectrum w) in
  let w2 := snd (getFrequencyBands spectrum w) in
  w1 = w2 /\
  graph w2 = graph w /\
  audioContext (this w2) = audioContext (this w) /\
  analyser (this w2) = analyser (this w) /\
  microphoneStream (this w2) = microphoneStream (this w) /\
  oscillator (this w2) = oscillator (this w) /\
  sourceNode (this w2) = sourceNode (this w) /\
  mediaElementSource (this w2) = mediaElementSource (this w) /\
  connectedAudioElement (this w2) = connectedAudioElement (this w) /\
  option_map (@length Z) (dataArray (this w2))
    = option_map (@length Z) (dataArray (this w)) /\
  getFrequencyBands spectrum w2 = (fst (getFrequencyBands spectrum w), w2).
Proof.
  destruct w as [f g]. destruct f as [ctx an d ms osc src mes el].
  unfold getFrequencyData, getFrequencyBands.
  cbn [this graph audioContext analyser dataArray microphoneStream oscillator
       sourceNode mediaElementSource connectedAudioElement].
  destruct d as [d|], an as [an|]; cbn [fst snd this graph audioContext analyser
       dataArray microphoneStream oscillator sourceNode mediaElementSource
       connectedAudioElement option_map];
    rewrite ?getByteFrequencyData_twice, ?length_getByteFrequencyData;
    repeat split; reflexivity.
Qed.

End QueryClaims.

Section MicrophoneClaims.

Import WebAudio AudioProcessor Calls.

(** X13: acquire the microphone, then release it.  A granted request
    succeeds and stores a stream of the granted number of tracks, all of
    them live; after [cleanup] none of them is live and no stream is
    stored. *)
Theorem X13_microphone_round_trip (n : nat) (spectrum : list Z) (w : World) :
  let r := requestMicrophoneAccess (Some n) spectrum w in
  fst r = true /\
  exists ts,
    microphoneStream (this (snd r)) = Some ts /\ length ts = n /\
    (forall t, In t ts -> In t (liveTracks (graph (snd r)))) /\
    (forall t, In t ts -> ~ In t (liveTracks (graph (cleanup (snd r))))) /\
    microphoneStream (this (cleanup (snd r))) = None.
Proof.
  intros r.
  destruct (requestMicrophoneAccess_granted n spectrum w)
    as (Hok & (first & _ & Hms & Hlive) & _).
  fold r in Hok, Hms, Hlive.
  split; [exact Hok|]. exists (seq first n).
  split; [exact Hms|]. split; [apply length_seq|]. split; [|split].
  - intros t Ht. rewrite Hlive. apply in_or_app. now right.
  - intros t Ht Hin.
    destruct (cleanup_graph (snd r)) as (_ & _ & _ & _ & Hl).
    apply Hl in Hin. destruct Hin as [_ Hn]. exact (Hn _ Hms Ht).
  - apply cleanup_fields.
Qed.

(** X14: a stream that a second granted request replaces is never stopped.
    A track that is live when [requestMicrophoneAccess] is granted again is
    still live after the request and after the [cleanup] that follows:
    [cleanup] stops the tracks of the stored stream only. *)
Theorem X14_replaced_stream_stays_live (n : nat) (spectrum : list Z)
    (w : World) (t : nat) :
  In t (liveTracks (graph w)) -> t < nextId (graph w) ->
  In t (liveTracks
          (graph (cleanup (snd (requestMicrophoneAccess (Some n) spectrum w))))).
Proof.
  intros Hin Hlt.
  destruct (requestMicrophoneAccess_granted n spectrum w)
    as (_ & (first & Hfirst & Hms & Hlive) & _).
  destruct (cleanup_graph (snd (requestMicrophoneAccess (Some n) spectrum w)))
    as (_ & _ & _ & _ & Hl).
  apply Hl. split.
  - rewrite Hlive. apply in_or_app. now left.
  - intros ts E. rewrite Hms in E. injection E as <-.
    rewrite in_seq. lia.
Qed.

Lemma X14_replaced_stream_stays_live_witness :
  In 2 (liveTracks
          (graph (cleanup (snd (requestMicrophoneAccess (Some 1) silence micWorld))))).
Proof.
  apply (X14_replaced_stream_stays_live 1 silence micWorld 2).
  - left. reflexivity.
  - vm_compute. lia.
Defined.

End MicrophoneClaims.

(* ------------------------------------------------------------------ *)
(** ** The component and its controls *)

Section ControlFacts.

Import WebAudio AudioProcessor SoundVisualizer Controls.

Local Open Scope R_scope.

(** What a start handler leaves, by the result of the acquisition. *)
Lemma started_state (s : State) (r : bool * World) (mode : MicrophoneStatus)
    (el : option AudioElement) :
  audioProcessor (started s r mode el) = snd r /\
  isListening (started s r mode el) = (if fst r then true else isListening s) /\
  microphoneStatus (started s r mode el) = (if fst r then mode else error) /\
  audioData (started s r mode el) = audioData s /\
  audioLevel (started s r mode el) = audioLevel s /\
  rawVolume (started s r mode el) = rawVolume s /\
  sensitivity (started s r mode el) = sensitivity s.
Proof. destruct r as [ok w]. cbn. repeat split; reflexivity. Qed.

Lemma startSampleMusic_state (playable : bool) (s : State) :
  exists audioElement,
    let r := connectAudioElement audioElement (audioProcessor s) in
    let s' := startSampleMusic playable s in
    audioProcessor s' = snd r /\
    isListening s' = (if fst r && playable then true else isListening s) /\
    microphoneStatus s' = (if fst r && playable then sample else error) /\
    audioData s' = audioData s /\
    audioLevel s' = audioLevel s /\
    rawVolume s' = rawVolume s /\
    sensitivity s' = sensitivity s.
Proof.
  unfold startSampleMusic.
  exists (element match audioElementRef s with Some e => e | None => sampleElement end).
  cbn zeta.
  destruct (connectAudioElement _ (audioProcessor s)) as [ok w].
  cbn [fst snd]. destruct (ok && playable); cbn; repeat split; reflexivity.
Qed.

(** What a firing timer leaves. *)
Lemma timerFires_state (captured : bool) (spectrum samples spectrum' : list Z)
    (timer : nat) (s : State) :
  let s' := timerFires captured spectrum samples spectrum' timer s in
  isListening s' = isListening s /\
  microphoneStatus s' = microphoneStatus s /\
  sensitivity s' = sensitivity s /\
  (captured = false ->
     audioProcessor s' = audioProcessor s /\ audioData s' = audioData s /\
     audioLevel s' = audioLevel s /\ rawVolume s' = rawVolume s) /\
  (captured = true ->
     let w1 := snd (getFrequencyData spectrum (audioProcessor s)) in
     let frequencyBands := fst (getFrequencyBands spectrum' w1) in
     audioProcessor s' = snd (getFrequencyBands spectrum' w1) /\
     rawVolume s' = getRawVolume samples w1 /\
     ((existsb (fun v => (1 <? v)%Z) frequencyBands = true /\
       audioData s' = frequencyBands /\
       audioLevel s' = scaledLevel frequencyBands) \/
      (existsb (fun v => (1 <? v)%Z) frequencyBands = false /\
       audioData s' = Js.zeros 8 /\
       audioLevel s' = audioLevel s))).
Proof.
  unfold timerFires, updateAudioData, withListening.
  destruct captured; cbn [isListening audioProcessor].
  - destruct (getFrequencyData spectrum (audioProcessor s)) as [rawData w1].
    cbn [snd].
    destruct (getFrequencyBands spectrum' w1) as [bands w2].
    cbn [fst snd isListening microphoneStatus sensitivity audioProcessor
         audioData audioLevel rawVolume].
    do 3 (split; [reflexivity|]). split; [discriminate|]. intros _.
    split; [reflexivity|]. split; [reflexivity|].
    destruct (existsb (fun v => (1 <? v)%Z) bands); [left | right];
      repeat split; reflexivity.
  - cbn. repeat split; try reflexivity; discriminate.
Qed.

(** The processor of a rendered component is in a state that calls of its
    public methods lead to. *)
Lemma rendered_reachable (s : State) :
  rendered s -> reachable (audioProcessor s).
Proof.
  induction 1 as [|e s _ IH Hoff Hans].
  - apply reach_initial.
  - destruct e as [granted spectrum| |playable| |value
                   |captured spectrum samples spectrum' timer];
      cbn [handle answered] in *.
    + unfold startListening. rewrite (proj1 (started_state _ _ _ _)).
      now apply reach_microphone.
    + unfold startTestTone. rewrite (proj1 (started_state _ _ _ _)).
      now apply reach_tone.
    + destruct (startSampleMusic_state playable s) as (el & -> & _).
      now apply reach_element.
    + apply reach_cleanup. exact IH.
    + exact IH.
    + destruct (timerFires_state captured spectrum samples spectrum' timer s)
        as (_ & _ & _ & Hf & Ht).
      destruct captured.
      * destruct (Ht eq_refl) as (-> & _).
        apply reach_bands; [|apply Hans]. apply reach_data; [exact IH | apply Hans].
      * destruct (Hf eq_refl) as (-> & _). exact IH.
Qed.

(** The level indicator is between 0 and 1. *)
Lemma scaledLevel_range (frequencyBands : list Z) :
  0 <= scaledLevel frequencyBands <= 1.
Proof.
  unfold scaledLevel. split.
  - apply Rmin_glb; [lra | apply sqrt_pos].
  - apply Rmin_l.
Qed.

(** What the queries return on a reachable processor. *)
Lemma getFrequencyBands_bytes (w : World) (spectrum : list Z) :
  reachable w -> spectrum_ok spectrum ->
  length (fst (getFrequencyBands spectrum w)) = 8%nat /\
  bytes (fst (getFrequencyBands spectrum w)).
Proof.
  intros Hr Hs.
  assert (Hl : forall d, dataArray (this w) = Some d -> length d = length spectrum).
  { intros d E. destruct (reachable_dataArray w Hr d E) as [Hd _].
    destruct Hs as [Hs _]. congruence. }
  destruct (getFrequencyBands_cases w spectrum Hl) as [-> | ->].
  - split; [apply length_frequencyBands | apply bytes_frequencyBands, Hs].
  - split; [apply repeat_length | apply bytes_zeros].
Qed.

Lemma getRawVolume_range (w : World) (samples : list Z) :
  bytes samples -> samples <> [] -> 0 <= getRawVolume samples w <= 1.
Proof.
  intros Hb Hne. unfold getRawVolume.
  destruct (analyser (this w)); [|lra].
  destruct (dataArray (this w)); [|lra].
  now apply rawVolume_range.
Qed.

End ControlFacts.

Section ControlInvariants.

Import WebAudio AudioProcessor SoundVisualizer Controls.

Local Open Scope R_scope.




(** Without a data array the queries return nothing and change nothing. *)
Lemma queries_without_dataArray (spectrum samples : list Z) (w : World) :
  dataArray (this w) = None ->
  getFrequencyData spectrum w = (None, w) /\
  getFrequencyBands spectrum w = (Js.zeros 8, w) /\
  getRawVolume samples w = 0.
Proof.
  intros Hd. unfold getFrequencyData, getFrequencyBands, getRawVolume.
  rewrite Hd. destruct (analyser (this w)); auto.
Qed.


(** The listening flag and the status go together. *)
Lemma rendered_status (s : State) :
  rendered s ->
  (isListening s = true /\
   (microphoneStatus s = active \/ microphoneStatus s = test \/
    microphoneStatus s = sample)) \/
  (isListening s = false /\
   (microphoneStatus s = initial \/ microphoneStatus s = error)).
Proof.
  induction 1 as [|e s _ IH Hoff _].
  - right. split; [reflexivity | left; reflexivity].
  - destruct e as [granted spectrum| |playable| |value
                   |captured spectrum samples spectrum' timer];
      cbn [handle offered] in *.
    + apply negb_true_iff in Hoff. unfold startListening.
      destruct (started_state s
                  (requestMicrophoneAccess granted spectrum (audioProcessor s))
                  active (audioElementRef s)) as (_ & -> & -> & _).
      destruct (fst _); [left | right]; auto.
    + apply negb_true_iff in Hoff. unfold startTestTone.
      destruct (started_state s (createTestTone (audioProcessor s)) test
                  (audioElementRef s)) as (_ & -> & -> & _).
      destruct (fst _); [left | right]; auto.
    + apply negb_true_iff in Hoff.
      destruct (startSampleMusic_state playable s) as (el & _ & -> & -> & _).
      destruct (_ && _); [left | right]; auto.
    + right. split; [reflexivity | left; reflexivity].
    + exact IH.
    + destruct (timerFires_state captured spectrum samples spectrum' timer s)
        as (-> & -> & _). exact IH.
Qed.

(** The values the scene is drawn from stay in their ranges. *)
Lemma rendered_ranges (s : State) :
  rendered s ->
  length (audioData s) = 8%nat /\ bytes (audioData s) /\
  0 <= audioLevel s <= 1 /\ 0 <= rawVolume s <= 1 /\
  0.1 <= sensitivity s <= 3.
Proof.
  induction 1 as [|e s Hr (IH1 & IH2 & IH3 & IH4 & IH5) Hoff Hans].
  - split; [reflexivity|]. split; [exact (bytes_zeros 8)|]. cbn. lra.
  - destruct e as [granted spectrum| |playable| |value
                   |captured spectrum samples spectrum' timer];
      cbn [handle offered answered] in *.
    + unfold startListening.
      destruct (started_state s
                  (requestMicrophoneAccess granted spectrum (audioProcessor s))
                  active (audioElementRef s)) as (_ & _ & _ & -> & -> & -> & ->).
      auto.
    + unfold startTestTone.
      destruct (started_state s (createTestTone (audioProcessor s)) test
                  (audioElementRef s)) as (_ & _ & _ & -> & -> & -> & ->).
      auto.
    + destruct (startSampleMusic_state playable s)
        as (el & _ & _ & _ & -> & -> & -> & ->).
      auto.
    + split; [reflexivity|]. split; [exact (bytes_zeros 8)|].
      cbn. split; [lra|]. auto.
    + cbn. auto.
    + destruct Hans as (Hs & Hs' & Hb & Hl).
      destruct (timerFires_state captured spectrum samples spectrum' timer s)
        as (_ & _ & -> & Hf & Ht).
      destruct captured.
      * destruct (Ht eq_refl) as (_ & -> & Hcase).
        pose proof (rendered_reachable s Hr) as Hreach.
        assert (Hw1 : reachable (snd (getFrequencyData spectrum (audioProcessor s))))
          by now apply reach_data.
        destruct (getFrequencyBands_bytes _ spectrum' Hw1 Hs') as [Hlen Hbytes].
        assert (Hne : samples <> []).
        { intros ->. discriminate Hl. }
        pose proof (getRawVolume_range
                      (snd (getFrequencyData spectrum (audioProcessor s)))
                      samples Hb Hne) as Hv.
        destruct Hcase as [(_ & -> & ->) | (_ & -> & ->)].
        -- split; [exact Hlen|]. split; [exact Hbytes|].
           split; [apply scaledLevel_range|]. auto.
        -- split; [apply repeat_length|]. split; [apply bytes_zeros|]. auto.
      * destruct (Hf eq_refl) as (_ & -> & -> & ->). auto.
Qed.

End ControlInvariants.

Section PendingFacts.

Import WebAudio AudioProcessor SoundVisualizer Controls Pending.

Local Open Scope R_scope.

(** While a handler waits the component is not listening and shows
    requesting; otherwise the status goes with the listening flag. *)
Lemma displayed_status (sc : Screen) :
  displayed sc ->
  match pending sc with
  | Some _ =>
      isListening (hooks sc) = false /\ microphoneStatus (hooks sc) = requesting
  | None =>
      (isListening (hooks sc) = true /\
       (microphoneStatus (hooks sc) = active \/
        microphoneStatus (hooks sc) = test \/
        microphoneStatus (hooks sc) = sample)) \/
      (isListening (hooks sc) = false /\
       (microphoneStatus (hooks sc) = initial \/
        microphoneStatus (hooks sc) = error))
  end.
Proof.
  induction 1 as [|e sc _ IH Hen].
  - right. split; [reflexivity | left; reflexivity].
  - destruct e as [b available|granted spectrum|playable| |value
                   |captured spectrum samples spectrum' timer];
      cbn [step enabled] in *.
    + apply andb_true_iff in Hen. destruct Hen as [Hl _].
      apply negb_true_iff in Hl. unfold click.
      destruct (Awaits.initAudioContextOn available (audioProcessor (hooks sc)))
        as [ok w1].
      cbn. split; [exact Hl | reflexivity].
    + unfold sourceSettles.
      destruct (pending sc) as [[b i|]|]; try discriminate Hen.
      destruct IH as [Hl Hs].
      destruct b, i; cbn zeta;
        try match goal with
            | |- context [Awaits.requestMicrophoneAccessFrom ?a ?b ?c] =>
                destruct (Awaits.requestMicrophoneAccessFrom a b c) as [[|] w]
            | |- context [Awaits.createTestToneFrom ?c] =>
                destruct (Awaits.createTestToneFrom c) as [[|] w]
            | |- context [Awaits.connectAudioElementFrom ?a ?c] =>
                destruct (Awaits.connectAudioElementFrom a c) as [[|] w]
            end; cbn; auto.
    + unfold playSettles.
      destruct (pending sc) as [[b i|]|]; try discriminate Hen.
      destruct IH as [Hl Hs].
      destruct playable; cbn; auto.
    + destruct (pending sc) as [a|].
      * destruct IH as [Hl _]. congruence.
      * cbn. right. split; [reflexivity | left; reflexivity].
    + destruct (pending sc) as [a|]; exact IH.
    + destruct (timerFires_state captured spectrum samples spectrum' timer (hooks sc))
        as (Hl & Hs & _).
      cbn [hooks pending]. rewrite Hl, Hs. exact IH.
Qed.

(** A handler that runs from the click to its end without anything in
    between is a run of the steps: the states [rendered] are screens the
    component can show. *)
Lemma initAudioContextOn_available (w : World) :
  Awaits.initAudioContextOn true w = initAudioContext w.
Proof. unfold Awaits.initAudioContextOn. now destruct (audioContext (this w)). Qed.

Lemma rendered_displayed (s : State) :
  rendered s -> displayed {| hooks := s; pending := None |}.
Proof.
  induction 1 as [|e s Hr IH Hoff Hans].
  - apply displayed_mounted.
  - assert (Hreq : isListening s = false ->
                   enabled (Click Microphone true) {| hooks := s; pending := None |}
                   = true).
    { intros Hl. cbn. rewrite Hl.
      destruct (rendered_status s Hr) as [[_ Hs] | [_ Hs]];
        [destruct Hs as [E|[E|E]] | destruct Hs as [E|E]]; rewrite E; reflexivity. }
    destruct e as [granted spectrum| |playable| |value
                   |captured spectrum samples spectrum' timer];
      cbn [handle offered] in *.
    + apply negb_true_iff in Hoff.
      assert (E : {| hooks := startListening granted spectrum s; pending := None |}
                  = step (SourceSettles granted spectrum)
                      (step (Click Microphone true) {| hooks := s; pending := None |})).
      { cbn [step]. unfold click. cbn [hooks].
        rewrite initAudioContextOn_available.
        unfold startListening. rewrite requestMicrophoneAccess_split.
        destruct (initAudioContext_shape (audioProcessor s)) as (ctx & an & g & Ei & _).
        rewrite Ei. cbn [snd]. unfold sourceSettles. cbn [pending hooks written audioProcessor].
        destruct (Awaits.requestMicrophoneAccessFrom granted spectrum _) as [ok w].
        reflexivity. }
      rewrite E. apply displayed_step.
      * apply displayed_step; [exact IH | exact (Hreq Hoff)].
      * cbn [step]. unfold click. cbn [hooks].
        destruct (Awaits.initAudioContextOn true (audioProcessor s)). reflexivity.
    + apply negb_true_iff in Hoff.
      assert (E : {| hooks := startTestTone s; pending := None |}
                  = step (SourceSettles None [])
                      (step (Click Synthetic true) {| hooks := s; pending := None |})).
      { cbn [step]. unfold click. cbn [hooks].
        rewrite initAudioContextOn_available.
        unfold startTestTone. rewrite createTestTone_split.
        destruct (initAudioContext_shape (audioProcessor s)) as (ctx & an & g & Ei & _).
        rewrite Ei. cbn [snd]. unfold sourceSettles. cbn [pending hooks written audioProcessor].
        destruct (Awaits.createTestToneFrom _) as [ok w].
        reflexivity. }
      rewrite E. apply displayed_step.
      * apply displayed_step; [exact IH | exact (Hreq Hoff)].
      * cbn [step]. unfold click. cbn [hooks].
        destruct (Awaits.initAudioContextOn true (audioProcessor s)). reflexivity.
    + apply negb_true_iff in Hoff.
      set (sc1 := step (SourceSettles None [])
                    (step (Click SampleMusic true) {| hooks := s; pending := None |})).
      assert (D1 : displayed sc1).
      { apply displayed_step.
        - apply displayed_step; [exact IH | exact (Hreq Hoff)].
        - cbn [step]. unfold click. cbn [hooks].
          destruct (Awaits.initAudioContextOn true (audioProcessor s)). reflexivity. }
      assert (E : {| hooks := startSampleMusic playable s; pending := None |} = sc1 \/
                  ({| hooks := startSampleMusic playable s; pending := None |}
                   = step (PlaySettles playable) sc1 /\
                   enabled (PlaySettles playable) sc1 = true)).
      { unfold sc1. cbn [step]. unfold click. cbn [hooks].
        rewrite initAudioContextOn_available.
        unfold startSampleMusic. fold (sampleOf s).
        rewrite connectAudioElement_split.
        destruct (initAudioContext_shape (audioProcessor s)) as (ctx & an & g & Ei & _).
        rewrite Ei. cbn [snd]. unfold sourceSettles.
        cbn [pending hooks written audioProcessor audioElementRef sampleOf].
        destruct (Awaits.connectAudioElementFrom (element (sampleOf s)) _) as [[|] w].
        - right. cbn [andb]. unfold playSettles.
          cbn [pending hooks written audioProcessor audioElementRef sampleOf enabled].
          split; [|reflexivity]. destruct playable; reflexivity.
        - left. reflexivity. }
      destruct E as [-> | [-> En]]; [exact D1 | now apply displayed_step].
    + exact (displayed_step ClickStop _ IH Hoff).
    + exact (displayed_step (Slide value) _ IH Hoff).
    + exact (displayed_step (Timer captured spectrum samples spectrum' timer) _ IH
               eq_refl).
Qed.

End PendingFacts.

Section ControlClaims.

Import WebAudio AudioProcessor SoundVisualizer Controls.

Local Open Scope R_scope.



(** X16: the status shown goes with the listening flag, also while a
    start handler waits.  On every screen the component can show, it is
    listening exactly when the status is active, test or sample; the status
    is requesting exactly while a start handler has not returned; it is
    initial or error exactly when the component is not listening and no
    handler waits.  While the status is requesting the component is not
    listening and no control is enabled (the start buttons are disabled,
    the stop button and the slider are not rendered), so no second start
    and no stop can run into a pending acquisition. *)
Theorem X16_status_follows_listening (sc : Pending.Screen) :
  Pending.displayed sc ->
  let s := Pending.hooks sc in
  (isListening s = true <->
   microphoneStatus s = active \/ microphoneStatus s = test \/
   microphoneStatus s = sample) /\
  (Pending.pending sc <> None <-> microphoneStatus s = requesting) /\
  (isListening s = false /\ Pending.pending sc = None <->
   microphoneStatus s = initial \/ microphoneStatus s = error) /\
  (microphoneStatus s = requesting ->
   isListening s = false /\
   (forall b available,
      Pending.enabled (Pending.Click b available) sc = false) /\
   Pending.enabled Pending.ClickStop sc = false /\
   (forall value, Pending.enabled (Pending.Slide value) sc = false)).
Proof.
  intros Hd s. pose proof (displayed_status sc Hd) as H. fold s in H.
  unfold Pending.enabled. fold s.
  destruct (Pending.pending sc) as [a|].
  - destruct H as [Hl Hs]. rewrite Hl, Hs. cbn.
    split; [split; [discriminate | intros [E|[E|E]]; discriminate E]|].
    split; [split; [reflexivity | discriminate]|].
    split; [split; [intros [_ E]; discriminate E | intros [E|E]; discriminate E]|].
    intros _. repeat split; reflexivity.
  - destruct H as [[Hl Hs] | [Hl Hs]]; rewrite Hl.
    + split; [tauto|].
      split; [split; [intros E; now contradiction E
                     | intros E; destruct Hs as [H|[H|H]]; congruence]|].
      split; [split; [intros [E _]; discriminate E
                     | intros [E|E]; destruct Hs as [H|[H|H]]; congruence]|].
      intros E. destruct Hs as [H|[H|H]]; congruence.
    + split; [split; [discriminate
                     | intros [E|[E|E]]; destruct Hs as [H|H]; congruence]|].
      split; [split; [intros E; now contradiction E
                     | intros E; destruct Hs as [H|H]; congruence]|].
      split; [tauto|].
      intros E. destruct Hs as [H|H]; congruence.
Qed.

Lemma X16_status_follows_listening_witness :
  let sc := Pending.step (Pending.Click Pending.Microphone true)
              {| Pending.hooks := mounted; Pending.pending := None |} in
  let s := Pending.hooks sc in
  (isListening s = true <->
   microphoneStatus s = active \/ microphoneStatus s = test \/
   microphoneStatus s = sample) /\
  (Pending.pending sc <> None <-> microphoneStatus s = requesting) /\
  (isListening s = false /\ Pending.pending sc = None <->
   microphoneStatus s = initial \/ microphoneStatus s = error) /\
  (microphoneStatus s = requesting ->
   isListening s = false /\
   (forall b available,
      Pending.enabled (Pending.Click b available) sc = false) /\
   Pending.enabled Pending.ClickStop sc = false /\
   (forall value, Pending.enabled (Pending.Slide value) sc = false)).
Proof.
  intros sc. apply (X16_status_follows_listening sc).
  apply Pending.displayed_step; [apply Pending.displayed_mounted | reflexivity].
Defined.

(** X17: what the scene is drawn from stays in range.  In every state the
    component can be rendered in, the band array holds eight bytes, the level
    indicator and the raw volume are between 0 and 1, and the sensitivity is
    between 0.1 and 3. *)
Theorem X17_displayed_values_in_range (s : State) :
  rendered s ->
  length (audioData s) = 8%nat /\ bytes (audioData s) /\
  0 <= audioLevel s <= 1 /\ 0 <= rawVolume s <= 1 /\
  0.1 <= sensitivity s <= 3.
Proof. apply rendered_ranges. Qed.

Lemma X17_displayed_values_in_range_witness :
  let s := handle (Poll true threePeaks loud threePeaks 7)
             (handle UseSynthetic mounted) in
  length (audioData s) = 8%nat /\ bytes (audioData s) /\
  0 <= audioLevel s <= 1 /\ 0 <= rawVolume s <= 1 /\
  0.1 <= sensitivity s <= 3.
Proof.
  intros s. apply (X17_displayed_values_in_range s).
  assert (Hp : spectrum_ok threePeaks).
  { split; [vm_compute; reflexivity | apply bytesb_bytes; vm_compute; reflexivity]. }
  apply rendered_handle; [|reflexivity|].
  - apply rendered_handle; [apply rendered_mounted | reflexivity | exact I].
  - split; [exact Hp|]. split; [exact Hp|].
    split; [apply bytesb_bytes; vm_compute; reflexivity | reflexivity].
Defined.

(** X18: the threshold of a poll.  While listening, bands that are all at
    most 1 are shown as eight zeros and the level indicator keeps the value
    it had; as soon as one band exceeds 1 the bands are shown as they are
    and the level is the square root of the largest band over 255, capped
    at 1, which is then above 0. *)
Theorem X18_poll_threshold (spectrum samples spectrum' : list Z) (timer : nat)
    (s : State) :
  isListening s = true ->
  let frequencyBands :=
    fst (getFrequencyBands spectrum'
           (snd (getFrequencyData spectrum (audioProcessor s)))) in
  let s' := updateAudioData spectrum samples spectrum' timer s in
  ((forall v, In v frequencyBands -> (v <= 1)%Z) ->
     audioData s' = Js.zeros 8 /\ audioLevel s' = audioLevel s) /\
  ((exists v, In v frequencyBands /\ (1 < v)%Z) ->
     audioData s' = frequencyBands /\
     audioLevel s' = Rmin 1 (sqrt (IZR (Analysis.bandPeak frequencyBands) / 255)) /\
     0 < audioLevel s').
Proof.
  intros Hl. unfold updateAudioData. rewrite Hl.
  destruct (getFrequencyData spectrum (audioProcessor s)) as [rawData w1].
  cbn [snd].
  destruct (getFrequencyBands spectrum' w1) as [bands w2].
  cbn [fst snd audioData audioLevel]. split.
  - intros Hall.
    assert (E : existsb (fun v => (1 <? v)%Z) bands = false).
    { destruct (existsb (fun v => (1 <? v)%Z) bands) eqn:Ex; [|reflexivity].
      apply existsb_exists in Ex. destruct Ex as (v & Hv & Hgt).
      apply Z.ltb_lt in Hgt. specialize (Hall v Hv). lia. }
    rewrite E. auto.
  - intros (v & Hv & Hgt).
    assert (E : existsb (fun v => (1 <? v)%Z) bands = true).
    { apply existsb_exists. exists v. split; [exact Hv | now apply Z.ltb_lt]. }
    rewrite E. split; [reflexivity|]. split; [reflexivity|].
    unfold scaledLevel. apply Rmin_glb_lt; [lra|].
    apply sqrt_lt_R0.
    pose proof (bandPeak_ge bands v Hv) as Hpk.
    assert (0 < IZR (Analysis.bandPeak bands)) by (apply IZR_lt; lia).
    apply Rdiv_lt_0_compat; lra.
Qed.

Lemma X18_poll_threshold_witness :
  let s := handle UseSynthetic mounted in
  let frequencyBands :=
    fst (getFrequencyBands threePeaks
           (snd (getFrequencyData silence (audioProcessor s)))) in
  let s' := updateAudioData silence loud threePeaks 7 s in
  ((forall v, In v frequencyBands -> (v <= 1)%Z) ->
     audioData s' = Js.zeros 8 /\ audioLevel s' = audioLevel s) /\
  ((exists v, In v frequencyBands /\ (1 < v)%Z) ->
     audioData s' = frequencyBands /\
     audioLevel s' = Rmin 1 (sqrt (IZR (Analysis.bandPeak frequencyBands) / 255)) /\
     0 < audioLevel s').
Proof.
  intros s. apply (X18_poll_threshold silence loud threePeaks 7 s). reflexivity.
Defined.

(** X19: a timer that fires after Stop.  [stopListening] leaves the raw
    volume as it is; a poll that still runs afterwards, with the listening
    flag of the render that scheduled it, finds no data array: it sets the
    raw volume to 0, keeps the bands at eight zeros and the level at 0, and
    leaves the released processor and the listening flag alone. *)
Theorem X19_timer_after_stop (captured : bool)
    (spectrum samples spectrum' : list Z) (timer : nat) (s : State) :
  let s' := timerFires captured spectrum samples spectrum' timer (stopListening s) in
  isListening s' = false /\
  microphoneStatus s' = initial /\
  audioProcessor s' = cleanup (audioProcessor s) /\
  audioData s' = Js.zeros 8 /\
  audioLevel s' = 0 /\
  rawVolume s' = (if captured then 0 else rawVolume s).
Proof.
  destruct (timerFires_state captured spectrum samples spectrum' timer
              (stopListening s)) as (Hl & Hst & _ & Hf & Ht).
  cbn zeta in *. rewrite Hl, Hst.
  split; [reflexivity|]. split; [reflexivity|].
  destruct captured.
  - destruct (Ht eq_refl) as (Hp & Hv & Hcase).
    assert (Hd : dataArray (this (audioProcessor (stopListening s))) = None)
      by apply cleanup_fields.
    destruct (queries_without_dataArray spectrum samples _ Hd) as (Q1 & _ & Q3).
    rewrite Q1 in Hp, Hv, Hcase. cbn [snd] in Hp, Hv, Hcase.
    destruct (queries_without_dataArray spectrum' samples _ Hd) as (_ & Q2 & _).
    rewrite Q2 in Hp, Hcase. cbn [fst snd] in Hp, Hcase.
    rewrite Hp, Hv, Q3. split; [reflexivity|].
    destruct Hcase as [(Hex & _) | (_ & -> & ->)]; [discriminate Hex|].
    repeat split; reflexivity.
  - destruct (Hf eq_refl) as (-> & -> & -> & ->). repeat split; reflexivity.
Qed.

End ControlClaims.

(* ------------------------------------------------------------------ *)
(** ** The point cloud, frame by frame *)

Section PointFacts.

Import Three CloudParticles.

Local Open Scope R_scope.

Lemma bandIndex_range (audioData : list Z) (p : Vector3) :
  audioData <> [] ->
  (0 <= bandIndex audioData p <= Z.of_nat (List.length audioData) - 1)%Z.
Proof.
  intros Hne. unfold bandIndex, Js.floor.
  assert (Hlen : (1 <= Z.of_nat (List.length audioData))%Z).
  { destruct audioData; [congruence | cbn [List.length]; lia]. }
  assert (H0 : 0 <= Three.length p / 20 * IZR (Z.of_nat (List.length audioData))).
  { apply Rmult_le_pos.
    - pose proof (length_nonneg p). lra.
    - apply IZR_le. lia. }
  assert (Hf : (0 <= Zfloor (Three.length p / 20 * IZR (Z.of_nat (List.length audioData))))%Z).
  { rewrite <- (Zfloor_eq 0 0) by (simpl; lra). now apply Zfloor_le. }
  lia.
Qed.

(** The band value a point reads is an entry of the array. *)
Lemma audioIntensity_range (audioData : list Z) (sensitivity : R) (p : Vector3) :
  bytes audioData -> audioData <> [] -> 0 <= sensitivity ->
  0 <= audioIntensity audioData sensitivity p <= sensitivity.
Proof.
  intros Hb Hne Hs. unfold audioIntensity.
  pose proof (bandIndex_range audioData p Hne) as Hi.
  assert (Hin : In (nth (Z.to_nat (bandIndex audioData p)) audioData 0%Z) audioData)
    by (apply nth_In; lia).
  unfold bytes in Hb. rewrite Forall_forall in Hb. apply Hb in Hin.
  destruct Hin as [Hlo Hhi]. apply IZR_le in Hlo, Hhi.
  set (v := IZR (nth (Z.to_nat (bandIndex audioData p)) audioData 0%Z)) in *.
  split.
  - apply Rmult_le_pos; [|lra]. apply Rmult_le_pos; lra.
  - assert (sensitivity * v <= sensitivity * 255) by nra. lra.
Qed.

Lemma rotated_keeps (audioData : list Z) (sensitivity : R) (p q : Vector3) :
  y (rotated audioData sensitivity p q) = y q /\
  x (rotated audioData sensitivity p q) * x (rotated audioData sensitivity p q) +
  z (rotated audioData sensitivity p q) * z (rotated audioData sensitivity p q)
  = x q * x q + z q * z q.
Proof.
  unfold rotated. cbn [x y z]. split; [reflexivity|].
  set (r := 0.0005 + audioIntensity audioData sensitivity p
                     * audioIntensity audioData sensitivity p * 0.01).
  pose proof (sin2_cos2 r) as H. unfold Rsqr in H.
  set (s := sin r) in *. set (c := cos r) in *.
  replace ((x q * c - z q * s) * (x q * c - z q * s) +
           (x q * s + z q * c) * (x q * s + z q * c))
    with ((x q * x q + z q * z q) * (s * s + c * c)) by ring.
  rewrite H. ring.
Qed.

Lemma length_rotated (audioData : list Z) (sensitivity : R) (p q : Vector3) :
  Three.length (rotated audioData sensitivity p q) = Three.length q.
Proof.
  destruct (rotated_keeps audioData sensitivity p q) as [Hy Hxz].
  unfold Three.length. f_equal. rewrite Hy.
  set (q' := rotated audioData sensitivity p q) in *.
  lra.
Qed.

(** Stretching a vector from the origin stretches its length. *)
Lemma length_stretched (v : Vector3) (k : R) :
  0 <= k ->
  Three.length {| x := x v * k; y := y v * k; z := z v * k |} = k * Three.length v.
Proof.
  intros Hk. unfold Three.length. cbn [x y z].
  replace (x v * k * (x v * k) + y v * k * (y v * k) + z v * k * (z v * k))
    with (k * k * (x v * x v + y v * y v + z v * z v)) by ring.
  rewrite sqrt_mult_alt by nra. now rewrite sqrt_square.
Qed.

(** The movement of a frame is never negative: at least 0.03 plus the audio
    term. *)
Lemma movement_bounds (audioData : list Z) (sensitivity time : R) (i : nat)
    (p : Vector3) :
  0.03 + audioFactor audioData sensitivity p
    <= movement audioData sensitivity time i p
    <= 0.17 + audioFactor audioData sensitivity p.
Proof.
  unfold movement, baseMovementFactor, breathingEffect, noise.
  pose proof (SIN_bound (time * breathingRate)) as [H1 H2].
  pose proof (SIN_bound (time * 0.2 + INR i * 0.005 + x p * 0.05 + y p * 0.05))
    as [H3 H4].
  lra.
Qed.

End PointFacts.

Section PointClaims.

Import Three CloudParticles.

Local Open Scope R_scope.

(** X20: the band a point listens to.  With a band array that is not empty
    the index computed from the distance of the point is a valid index; the
    space is cut into shells of equal thickness out to radius 20, shell [i]
    reads band [i], and every point at or beyond the last shell reads the
    last band. *)
Theorem X20_band_of_a_point (audioData : list Z) (p : Vector3) :
  audioData <> [] ->
  let len := Z.of_nat (List.length audioData) in
  (0 <= bandIndex audioData p <= len - 1)%Z /\
  (forall i : Z, (0 <= i <= len - 1)%Z ->
     20 * IZR i <= Three.length p * IZR len < 20 * (IZR i + 1) ->
     bandIndex audioData p = i) /\
  (20 * IZR (len - 1) <= Three.length p * IZR len ->
   bandIndex audioData p = (len - 1)%Z).
Proof.
  intros Hne len. split; [now apply bandIndex_range|].
  unfold bandIndex, Js.floor. fold len. split.
  - intros i Hi [Hlo Hhi].
    rewrite (Zfloor_eq i) by lra. lia.
  - intros Hlo.
    assert (Hf : (len - 1 <= Zfloor (Three.length p / 20 * IZR len))%Z).
    { rewrite <- (Zfloor_eq (len - 1) (IZR (len - 1))) by lra.
      apply Zfloor_le. lra. }
    lia.
Qed.

Lemma X20_band_of_a_point_witness :
  let audioData := [10; 20; 30]%Z in
  let p := {| x := 0; y := 0; z := 0 |} in
  let len := Z.of_nat (List.length audioData) in
  (0 <= bandIndex audioData p <= len - 1)%Z /\
  (forall i : Z, (0 <= i <= len - 1)%Z ->
     20 * IZR i <= Three.length p * IZR len < 20 * (IZR i + 1) ->
     bandIndex audioData p = i) /\
  (20 * IZR (len - 1) <= Three.length p * IZR len ->
   bandIndex audioData p = (len - 1)%Z).
Proof.
  intros audioData p.
  apply (X20_band_of_a_point audioData p). discriminate.
Defined.

(** X21: the attributes a frame writes.  For a band array of bytes that is
    not empty, a sensitivity that is not negative and a draw in [0, 1), the
    intensity of a point lies between 0 and the sensitivity, each colour
    channel lies between its base value and the base plus its gain times the
    sensitivity, and the size between 0.05 and 0.1 (1 + 1.5 sensitivity). *)
Theorem X21_point_attributes_in_range (audioData : list Z)
    (sensitivity time : R) (i : nat) (random : R) (pt : Particle) :
  bytes audioData -> audioData <> [] -> 0 <= sensitivity -> 0 <= random < 1 ->
  let pt' := updateParticle audioData sensitivity time i random pt in
  0 <= audioIntensity audioData sensitivity (position pt) <= sensitivity /\
  0.2 <= x (color pt') <= 0.2 + 0.7 * sensitivity /\
  0.1 <= y (color pt') <= 0.1 + 0.2 * sensitivity /\
  0.5 <= z (color pt') <= 0.5 + 0.3 * sensitivity /\
  0.05 <= size pt' < 0.1 * (1 + 1.5 * sensitivity).
Proof.
  intros Hb Hne Hs Hr pt'.
  pose proof (audioIntensity_range audioData sensitivity (position pt) Hb Hne Hs)
    as Ha.
  unfold pt', updateParticle. cbn [color size x y z].
  set (a := audioIntensity audioData sensitivity (position pt)) in *.
  repeat split; try lra; nra.
Qed.

Lemma X21_point_attributes_in_range_witness :
  let audioData := [10; 20; 30]%Z in
  let pt := {| position := {| x := 1; y := 2; z := 3 |};
               color := {| x := 0; y := 0; z := 0 |}; size := 0 |} in
  let pt' := updateParticle audioData 2 0 0 (/ 2) pt in
  0 <= audioIntensity audioData 2 (position pt) <= 2 /\
  0.2 <= x (color pt') <= 0.2 + 0.7 * 2 /\
  0.1 <= y (color pt') <= 0.1 + 0.2 * 2 /\
  0.5 <= z (color pt') <= 0.5 + 0.3 * 2 /\
  0.05 <= size pt' < 0.1 * (1 + 1.5 * 2).
Proof.
  intros audioData pt.
  apply (X21_point_attributes_in_range audioData 2 0 0 (/ 2) pt).
  - apply bytesb_bytes. reflexivity.
  - discriminate.
  - lra.
  - lra.
Defined.

(** X22: the slow rotation of a frame turns a point about the vertical
    axis: its height, its distance from the axis and its distance from the
    centre are unchanged. *)
Theorem X22_rotation_keeps_distances (audioData : list Z) (sensitivity : R)
    (p q : Vector3) :
  let q' := rotated audioData sensitivity p q in
  y q' = y q /\
  x q' * x q' + z q' * z q' = x q * x q + z q * z q /\
  Three.length q' = Three.length q.
Proof.
  intros q'. destruct (rotated_keeps audioData sensitivity p q) as [Hy Hxz].
  split; [exact Hy|]. split; [exact Hxz|]. apply length_rotated.
Qed.

(** X23: the swirl is tangential.  It leaves the height alone and pushes
    the point at right angle to the horizontal direction it had at the start
    of the frame, by [circularMotionSpeed * movement] forward or backward;
    it does nothing for a point whose intensity is at most 0.1 or that is
    within 0.1 of the vertical axis. *)
Theorem X23_swirl_is_tangential (audioData : list Z) (sensitivity time : R)
    (i : nat) (p q : Vector3) :
  let q' := swirled audioData sensitivity time i p q in
  y q' = y q /\
  (x q' - x q) * x p + (z q' - z q) * z p = 0 /\
  (audioIntensity audioData sensitivity p <= 0.1 \/
   sqrt (x p * x p + z p * z p) <= 0.1 -> q' = q) /\
  (0.1 < audioIntensity audioData sensitivity p ->
   0.1 < sqrt (x p * x p + z p * z p) ->
   (x q' - x q) * (x q' - x q) + (z q' - z q) * (z q' - z q)
   = (circularMotionSpeed audioData sensitivity
      * movement audioData sensitivity time i p) ^ 2).
Proof.
  intros q'. unfold q', swirled.
  destruct (Rlt_dec 0.1 (audioIntensity audioData sensitivity p)) as [Ha|Ha];
    [destruct (Rlt_dec 0.1 (sqrt (x p * x p + z p * z p))) as [Hd|Hd]|].
  - cbn [x y z].
    set (d := sqrt (x p * x p + z p * z p)) in *.
    set (f := circularMotionSpeed audioData sensitivity
              * circularMotionDirection audioData sensitivity).
    set (m := movement audioData sensitivity time i p).
    assert (Hd0 : d <> 0) by lra.
    assert (Hsq : d * d = x p * x p + z p * z p).
    { unfold d. apply sqrt_sqrt. nra. }
    split; [reflexivity|]. split; [field; exact Hd0|].
    split; [intros [H|H]; lra|]. intros _ _.
    assert (Hdir : circularMotionDirection audioData sensitivity
                   * circularMotionDirection audioData sensitivity = 1).
    { unfold circularMotionDirection.
      destruct (Rlt_dec 0.5 (midFreqIntensity audioData sensitivity)); ring. }
    replace ((x q + - (z p / d) * f * m - x q) * (x q + - (z p / d) * f * m - x q) +
             (z q + x p / d * f * m - z q) * (z q + x p / d * f * m - z q))
      with ((x p * x p + z p * z p) / (d * d) * (f * m) ^ 2)
      by (field; exact Hd0).
    rewrite <- Hsq. unfold f.
    replace (d * d / (d * d)) with 1 by (field; exact Hd0).
    replace ((circularMotionSpeed audioData sensitivity
              * circularMotionDirection audioData sensitivity * m) ^ 2)
      with ((circularMotionSpeed audioData sensitivity * m) ^ 2
            * (circularMotionDirection audioData sensitivity
               * circularMotionDirection audioData sensitivity)) by ring.
    rewrite Hdir. ring.
  - split; [reflexivity|]. split; [ring|]. split; [reflexivity|]. intros; lra.
  - split; [reflexivity|]. split; [ring|]. split; [reflexivity|]. intros; lra.
Qed.

(** X24: the idle animation.  With eight zero bands the movement of a
    frame lies between 0.03 and 0.17, so the breathing term never pulls a
    point back.  A point away from the centre is pushed away from the centre
    along its radius, by the factor [1 + 0.05 movement / distance] on each
    coordinate, and then turned about the vertical axis by 0.0005 rad; its
    distance from the centre grows by 0.05 times the movement, before the
    bounds check. *)
Theorem X24_idle_points_drift_outward (sensitivity time : R) (i : nat)
    (p : Vector3) :
  0 < Three.length p ->
  let m := movement (Js.zeros 8) sensitivity time i p in
  let k := 1 + 0.05 * m / Three.length p in
  let p' := moved (Js.zeros 8) sensitivity time i p in
  0.03 <= m <= 0.17 /\
  x p' = k * (x p * cos 0.0005 - z p * sin 0.0005) /\
  y p' = k * y p /\
  z p' = k * (x p * sin 0.0005 + z p * cos 0.0005) /\
  Three.length p' = Three.length p + 0.05 * m.
Proof.
  intros Hp m k p'.
  assert (Hi : forall v, audioIntensity (Js.zeros 8) sensitivity v = 0).
  { intros v. unfold audioIntensity. rewrite nth_zeros. lra. }
  assert (Hf : audioFactor (Js.zeros 8) sensitivity p = 0).
  { unfold audioFactor. rewrite Hi. ring. }
  pose proof (movement_bounds (Js.zeros 8) sensitivity time i p) as Hm.
  rewrite Hf in Hm. fold m in Hm. split; [lra|].
  assert (Hv : verticalBias (Js.zeros 8) sensitivity = 0).
  { unfold verticalBias, lowFreqIntensity, highFreqIntensity.
    change (Js.sum (Js.slice (Js.zeros 8) 0 2)) with 0%Z.
    change (Js.sum (Js.sliceFrom (Js.zeros 8) 5)) with 0%Z. lra. }
  assert (Hr : radialBias (Js.zeros 8) sensitivity = 0).
  { unfold radialBias, lowFreqIntensity, highFreqIntensity.
    change (Js.sum (Js.slice (Js.zeros 8) 0 2)) with 0%Z.
    change (Js.sum (Js.sliceFrom (Js.zeros 8) 5)) with 0%Z. lra. }
  assert (Hk : 0 <= k).
  { unfold k. assert (0 <= 0.05 * m / Three.length p); [|lra].
    apply Rmult_le_pos; [lra|]. apply Rlt_le, Rinv_0_lt_compat, Hp. }
  assert (Hd : drifted (Js.zeros 8) sensitivity time i p
               = {| x := x p * k; y := y p * k; z := z p * k |}).
  { unfold drifted. fold m. unfold direction. rewrite Hv, Hr.
    destruct (Rlt_dec 0 0) as [H|_]; [lra|].
    unfold normalize, multiplyScalar.
    destruct (Req_dec_T (Three.length p) 0) as [E|_]; [lra|].
    cbn [x y z]. unfold k. f_equal; field; lra. }
  assert (Hq : p' = rotated (Js.zeros 8) sensitivity p
                      {| x := x p * k; y := y p * k; z := z p * k |}).
  { unfold p', moved, swirled. rewrite Hi.
    destruct (Rlt_dec 0.1 0) as [H|_]; [lra|]. now rewrite Hd. }
  split; [|split; [|split]].
  - rewrite Hq. unfold rotated. rewrite Hi. cbn [x y z].
    replace (0.0005 + 0 * 0 * 0.01) with 0.0005 by lra. ring.
  - rewrite Hq. unfold rotated. cbn [x y z]. ring.
  - rewrite Hq. unfold rotated. rewrite Hi. cbn [x y z].
    replace (0.0005 + 0 * 0 * 0.01) with 0.0005 by lra. ring.
  - rewrite Hq, length_rotated, (length_stretched p k Hk).
    unfold k. field. lra.
Qed.

Lemma X24_idle_points_drift_outward_witness :
  let p := {| x := 1; y := 0; z := 0 |} in
  let m := movement (Js.zeros 8) 1 0 0 p in
  let k := 1 + 0.05 * m / Three.length p in
  let p' := moved (Js.zeros 8) 1 0 0 p in
  0.03 <= m <= 0.17 /\
  x p' = k * (x p * cos 0.0005 - z p * sin 0.0005) /\
  y p' = k * y p /\
  z p' = k * (x p * sin 0.0005 + z p * cos 0.0005) /\
  Three.length p' = Three.length p + 0.05 * m.
Proof.
  intros p. apply (X24_idle_points_drift_outward 1 0 0 p).
  unfold Three.length, p. cbn [x y z].
  replace (1 * 1 + 0 * 0 + 0 * 0) with 1 by ring. rewrite sqrt_1. lra.
Defined.

End PointClaims.

Section CloudFacts.

Import Three CloudParticles CloudSetup.

Local Open Scope R_scope.

(** A point of the initial cloud, from its seven draws. *)
Lemma createParticle_spec (r1 r2 r3 r4 r5 r6 r7 : R) :
  0 <= r1 < 1 -> 0 <= r3 <= 1 -> 0 <= r4 < 1 -> 0 <= r5 < 1 ->
  0 <= r6 < 1 -> 0 <= r7 < 1 ->
  let pt := createParticle r1 r2 r3 r4 r5 r6 r7 in
  Three.length (position pt) = 10 * r1 /\
  z (position pt) = 10 * r1 * (2 * r3 - 1) /\
  0.2 <= x (color pt) < 0.5 /\ 0.1 <= y (color pt) < 0.3 /\
  0.5 <= z (color pt) < 1 /\ 0.05 <= size pt < 0.25.
Proof.
  intros H1 H3 H4 H5 H6 H7 pt. unfold pt, createParticle.
  cbn [position color size x y z]. split; [|split].
  - unfold Three.length. cbn [x y z].
    pose proof (sin2_cos2 (r2 * PI * 2)) as Ht.
    pose proof (sin2_cos2 (acos (2 * r3 - 1))) as Hp.
    unfold Rsqr in Ht, Hp.
    set (st := sin (r2 * PI * 2)) in *. set (ct := cos (r2 * PI * 2)) in *.
    set (sp := sin (acos (2 * r3 - 1))) in *.
    set (cp := cos (acos (2 * r3 - 1))) in *.
    replace (r1 * 10 * sp * ct * (r1 * 10 * sp * ct) +
             r1 * 10 * sp * st * (r1 * 10 * sp * st) +
             r1 * 10 * cp * (r1 * 10 * cp))
      with ((10 * r1) * (10 * r1) * (sp * sp * (st * st + ct * ct) + cp * cp))
      by ring.
    rewrite Ht, Rmult_1_r, Hp, Rmult_1_r. apply sqrt_square. lra.
  - rewrite cos_acos by lra. ring.
  - repeat split; lra.
Qed.

Lemma in_createParticles (random : nat -> R) (count : nat) (pt : Particle) :
  In pt (createParticles random count) <->
  exists i : nat, (i < count)%nat /\
    pt = createParticle (random (7 * i)%nat) (random (7 * i + 1)%nat)
                        (random (7 * i + 2)%nat) (random (7 * i + 3)%nat)
                        (random (7 * i + 4)%nat) (random (7 * i + 5)%nat)
                        (random (7 * i + 6)%nat).
Proof.
  unfold createParticles. rewrite in_map_iff. split.
  - intros (i & E & Hi). apply in_seq in Hi. exists i. split; [lia | now symmetry].
  - intros (i & Hi & E). exists i. split; [now symmetry | apply in_seq; lia].
Qed.

(** A frame keeps the number of points and leaves each of them within
    radius 20. *)
Lemma length_updateFrom (audioData : list Z) (sensitivity time : R) (i : nat)
    (random : nat -> R) (pts : list Particle) :
  List.length (updateFrom audioData sensitivity time i random pts)
  = List.length pts.
Proof.
  revert i. induction pts as [|pt pts IH]; intros i; [reflexivity|].
  cbn [updateFrom List.length]. now rewrite IH.
Qed.

Lemma updateFrom_kept (audioData : list Z) (sensitivity time : R) (i : nat)
    (random : nat -> R) (pts : list Particle) (pt' : Particle) :
  bytes audioData -> audioData <> [] -> 0 <= sensitivity <= 3 ->
  In pt' (updateFrom audioData sensitivity time i random pts) ->
  Three.length (position pt') <= 20 /\
  0.2 <= x (color pt') <= 2.3 /\ 0.1 <= y (color pt') <= 0.7 /\
  0.5 <= z (color pt') <= 1.4.
Proof.
  intros Hb Hne Hs. revert i.
  induction pts as [|pt pts IH]; intros i; [intros []|].
  cbn [updateFrom]. intros [<- |Hin]; [|exact (IH _ Hin)].
  cbn [updateParticle position color x y z].
  pose proof (audioIntensity_range audioData sensitivity (position pt) Hb Hne
                ltac:(lra)) as Ha.
  split; [apply bounded_spec|]. lra.
Qed.

Lemma animate_kept (ticks : list Tick) (pts : list Particle) :
  Forall passed ticks ->
  (forall pt, In pt pts ->
     Three.length (position pt) <= 20 /\
     0.2 <= x (color pt) <= 2.3 /\ 0.1 <= y (color pt) <= 0.7 /\
     0.5 <= z (color pt) <= 1.4) ->
  exists pts', animate ticks (Some pts) = Some pts' /\
    List.length pts' = List.length pts /\
    forall pt, In pt pts' ->
      Three.length (position pt) <= 20 /\
      0.2 <= x (color pt) <= 2.3 /\ 0.1 <= y (color pt) <= 0.7 /\
      0.5 <= z (color pt) <= 1.4.
Proof.
  intros Hp. revert pts. induction Hp as [|t ticks Ht _ IH]; intros pts H.
  - exists pts. auto.
  - cbn [animate useFrame option_map].
    destruct Ht as (Hlen & Hb & Hs & _).
    assert (Hne : bands t <> []).
    { intros E. rewrite E in Hlen. discriminate Hlen. }
    destruct (IH (updateFrom (bands t) (sens t) (elapsedTime t) 0 (draws t) pts))
      as (pts' & E & Hl & Hk).
    { intros pt. apply updateFrom_kept; [exact Hb | exact Hne | lra]. }
    exists pts'. split; [exact E|]. split; [|exact Hk].
    rewrite Hl. apply length_updateFrom.
Qed.

End CloudFacts.

Section CloudClaims.

Import Three CloudParticles CloudSetup.

Local Open Scope R_scope.

(** X25: the initial cloud.  When every draw lies in [0, 1), the effect
    creates 5000 points; point [i] lies at distance ten times its first draw
    from the centre, hence within radius 10, at height [10 r (2 u - 1)] for
    its first draw [r] and third draw [u], and its colour channels and size
    start in [0.2, 0.5), [0.1, 0.3), [0.5, 1) and [0.05, 0.25). *)
Theorem X25_initial_cloud (random : nat -> R) :
  (forall k, 0 <= random k < 1) ->
  exists pts, useEffect random = Some pts /\
    List.length pts = 5000%nat /\
    forall pt, In pt pts ->
      exists i : nat, (i < 5000)%nat /\
        Three.length (position pt) = 10 * random (7 * i)%nat /\
        z (position pt)
          = 10 * random (7 * i)%nat * (2 * random (7 * i + 2)%nat - 1) /\
        Three.length (position pt) < 10 /\
        0.2 <= x (color pt) < 0.5 /\ 0.1 <= y (color pt) < 0.3 /\
        0.5 <= z (color pt) < 1 /\ 0.05 <= size pt < 0.25.
Proof.
  intros Hr. exists (createParticles random particleCount).
  split; [reflexivity|]. split.
  - unfold createParticles. now rewrite length_map, length_seq.
  - intros pt Hin. apply in_createParticles in Hin.
    destruct Hin as (i & Hi & ->). exists i. split; [exact Hi|].
    assert (H3 : 0 <= random (7 * i + 2)%nat <= 1)
      by (pose proof (Hr (7 * i + 2)%nat); lra).
    destruct (createParticle_spec _ (random (7 * i + 1)%nat) _ _ _ _ _
                (Hr (7 * i)%nat) H3 (Hr (7 * i + 3)%nat) (Hr (7 * i + 4)%nat)
                (Hr (7 * i + 5)%nat) (Hr (7 * i + 6)%nat))
      as (Hl & Hz & Hc).
    split; [exact Hl|]. split; [exact Hz|]. split; [|exact Hc].
    rewrite Hl. pose proof (Hr (7 * i)%nat). lra.
Qed.

Lemma X25_initial_cloud_witness :
  exists pts, useEffect (fun _ => / 2) = Some pts /\
    List.length pts = 5000%nat /\
    forall pt, In pt pts ->
      exists i : nat, (i < 5000)%nat /\
        Three.length (position pt) = 10 * / 2 /\
        z (position pt) = 10 * / 2 * (2 * / 2 - 1) /\
        Three.length (position pt) < 10 /\
        0.2 <= x (color pt) < 0.5 /\ 0.1 <= y (color pt) < 0.3 /\
        0.5 <= z (color pt) < 1 /\ 0.05 <= size pt < 0.25.
Proof. apply (X25_initial_cloud (fun _ => / 2)). intros _. lra. Defined.

(** X26: the cloud over time.  From the initial cloud, after any number of
    frames that get what the component passes (eight bytes, a sensitivity
    between 0.1 and 3, a clock that is not negative) and any draws, there
    are still 5000 points, each of them is within radius 20 of the centre,
    and its colour channels lie in [0.2, 2.3], [0.1, 0.7] and [0.5, 1.4]. *)
Theorem X26_cloud_stays_in_bounds (random : nat -> R) (ticks : list Tick) :
  (forall k, 0 <= random k < 1) ->
  Forall passed ticks ->
  exists pts, animate ticks (useEffect random) = Some pts /\
    List.length pts = 5000%nat /\
    forall pt, In pt pts ->
      Three.length (position pt) <= 20 /\
      0.2 <= x (color pt) <= 2.3 /\ 0.1 <= y (color pt) <= 0.7 /\
      0.5 <= z (color pt) <= 1.4.
Proof.
  intros Hr Hp. unfold useEffect.
  destruct (animate_kept ticks (createParticles random particleCount) Hp)
    as (pts & E & Hl & Hb).
  - intros pt Hin. apply in_createParticles in Hin.
    destruct Hin as (i & Hi & ->).
    assert (H3 : 0 <= random (7 * i + 2)%nat <= 1)
      by (pose proof (Hr (7 * i + 2)%nat); lra).
    destruct (createParticle_spec _ (random (7 * i + 1)%nat) _ _ _ _ _
                (Hr (7 * i)%nat) H3 (Hr (7 * i + 3)%nat) (Hr (7 * i + 4)%nat)
                (Hr (7 * i + 5)%nat) (Hr (7 * i + 6)%nat))
      as (-> & _ & Hc).
    pose proof (Hr (7 * i)%nat). lra.
  - exists pts. split; [exact E|]. split; [|exact Hb].
    rewrite Hl. unfold createParticles. now rewrite length_map, length_seq.
Qed.

Lemma X26_cloud_stays_in_bounds_witness :
  let tick := {| bands := [10; 20; 0; 0; 0; 0; 0; 30]%Z; sens := 3;
                 elapsedTime := 1; draws := fun _ => 0 |} in
  exists pts, animate [tick; tick] (useEffect (fun _ => / 2)) = Some pts /\
    List.length pts = 5000%nat /\
    forall pt, In pt pts ->
      Three.length (position pt) <= 20 /\
      0.2 <= x (color pt) <= 2.3 /\ 0.1 <= y (color pt) <= 0.7 /\
      0.5 <= z (color pt) <= 1.4.
Proof.
  intros tick.
  apply (X26_cloud_stays_in_bounds (fun _ => / 2) [tick; tick]).
  - intros _. lra.
  - assert (Hp : passed tick).
    { split; [reflexivity|]. split; [apply bytesb_bytes; reflexivity|].
      cbn. lra. }
    apply Forall_cons; [exact Hp|]. apply Forall_cons; [exact Hp|].
    apply Forall_nil.
Defined.

End CloudClaims.

(* ------------------------------------------------------------------ *)
(** ** Sensitivity, and the mesh *)

Section MeshFacts.

Import Three EnergyDisturbance.

Local Open Scope R_scope.

(** [a % b] for a dividend that is not negative and a positive divisor. *)
Lemma rem_nonneg (a b : R) :
  0 <= a -> 0 < b ->
  rem a b = a - b * IZR (Js.floor (a / b)) /\ 0 <= rem a b < b /\
  (0 <= Js.floor (a / b))%Z.
Proof.
  intros Ha Hb. unfold rem, Js.floor.
  assert (Hq : 0 <= a / b) by (apply Rmult_le_pos; [lra | apply Rlt_le, Rinv_0_lt_compat; lra]).
  destruct (Rlt_dec (a / b) 0) as [H|_]; [lra|].
  split; [reflexivity|].
  pose proof (Zfloor_bound (a / b)) as [Hlo Hhi].
  assert (Hab : a = a / b * b) by (field; lra).
  set (k := IZR (Zfloor (a / b))) in *.
  split.
  - split.
    + assert (b * k <= b * (a / b)) by (apply Rmult_le_compat_l; lra).
      replace (b * (a / b)) with a in H by (field; lra). lra.
    + assert (b * (a / b) < b * (k + 1)) by (apply Rmult_lt_compat_l; lra).
      replace (b * (a / b)) with a in H by (field; lra). lra.
  - apply Zfloor_lub. exact Hq.
Qed.

Lemma sum_slice_nonneg (audioData : list Z) (b e : Z) :
  bytes audioData -> 0 <= IZR (Js.sum (Js.slice audioData b e)).
Proof. intros H. apply IZR_le, sum_nonneg, bytes_slice, H. Qed.

Lemma bandGroups_nonneg (audioData : list Z) (sensitivity : R) :
  bytes audioData -> 0 <= sensitivity ->
  0 <= lowFreqIntensity audioData sensitivity /\
  0 <= highFreqIntensity audioData sensitivity.
Proof.
  intros Hb Hs. unfold lowFreqIntensity, highFreqIntensity, Js.sliceFrom.
  pose proof (sum_slice_nonneg audioData 0 2 Hb).
  pose proof (sum_slice_nonneg audioData 5 (Z.of_nat (List.length audioData)) Hb).
  split; (apply Rmult_le_pos; [apply Rmult_le_pos; assumption | lra]).
Qed.

Lemma breathingEffect_range (elapsedTime : R) :
  0 <= breathingEffect elapsedTime <= 0.08.
Proof.
  unfold breathingEffect.
  pose proof (SIN_bound (elapsedTime * breathingRate)) as [H1 H2]. lra.
Qed.

End MeshFacts.

Section MeshClaims.

Import Three EnergyDisturbance.

Local Open Scope R_scope.

(** X27: sensitivity is a plain multiplier.  Scaling the sensitivity by [k]
    scales by [k] the three group intensities and the two biases of the
    point cloud, the intensity of every point and the mean intensity of the
    mesh; the audio term of a point's movement scales by the cube of [k].
    Nothing is clamped. *)
Theorem X27_sensitivity_scales (audioData : list Z) (sensitivity k : R)
    (p : Vector3) :
  CloudParticles.lowFreqIntensity audioData (k * sensitivity)
    = k * CloudParticles.lowFreqIntensity audioData sensitivity /\
  CloudParticles.midFreqIntensity audioData (k * sensitivity)
    = k * CloudParticles.midFreqIntensity audioData sensitivity /\
  CloudParticles.highFreqIntensity audioData (k * sensitivity)
    = k * CloudParticles.highFreqIntensity audioData sensitivity /\
  CloudParticles.verticalBias audioData (k * sensitivity)
    = k * CloudParticles.verticalBias audioData sensitivity /\
  CloudParticles.radialBias audioData (k * sensitivity)
    = k * CloudParticles.radialBias audioData sensitivity /\
  CloudParticles.audioIntensity audioData (k * sensitivity) p
    = k * CloudParticles.audioIntensity audioData sensitivity p /\
  CloudParticles.audioFactor audioData (k * sensitivity) p
    = k ^ 3 * CloudParticles.audioFactor audioData sensitivity p /\
  avgIntensity audioData (k * sensitivity)
    = k * avgIntensity audioData sensitivity.
Proof.
  unfold CloudParticles.verticalBias, CloudParticles.radialBias,
    CloudParticles.audioFactor, CloudParticles.audioIntensity,
    CloudParticles.lowFreqIntensity, CloudParticles.midFreqIntensity,
    CloudParticles.highFreqIntensity, avgIntensity, Rdiv.
  repeat split; ring.
Qed.

(** X28: the pulse of the mesh.  The scale is the same on the three axes and
    never below 1; the breathing term lies between 0 and 0.08; the emissive
    colour is half the colour.  With eight zero bands the scale stays within
    [1, 1.08], the emissive intensity within [0.2, 0.28], and the colour
    within [0.2, 0.4], 0.1 and [0.5, 0.7]. *)
Theorem X28_mesh_pulse (audioData : list Z) (sensitivity elapsedTime : R)
    (m : Mesh) :
  let m' := update audioData sensitivity elapsedTime m in
  x (scale m') = y (scale m') /\ y (scale m') = z (scale m') /\
  1 <= x (scale m') /\
  0 <= breathingEffect elapsedTime <= 0.08 /\
  emissive m' = multiplyScalar (color m') 0.5 /\
  (audioData = Js.zeros 8 ->
   x (scale m') <= 1.08 /\
   0.2 <= emissiveIntensity m' <= 0.28 /\
   0.2 <= x (color m') <= 0.4 /\ y (color m') = 0.1 /\
   0.5 <= z (color m') <= 0.7).
Proof.
  intros m'. unfold m', update.
  cbn [scale color emissive emissiveIntensity x y z multiplyScalar].
  pose proof (breathingEffect_range elapsedTime) as Hb.
  split; [reflexivity|]. split; [reflexivity|]. split.
  - unfold pulseScale.
    pose proof (Rle_0_sqr (avgIntensity audioData sensitivity)) as Hsq.
    unfold Rsqr in Hsq. lra.
  - split; [exact Hb|]. split; [reflexivity|]. intros ->.
    assert (Ha : avgIntensity (Js.zeros 8) sensitivity = 0).
    { unfold avgIntensity.
      change (Js.sum (Js.zeros 8)) with 0%Z. unfold Rdiv. ring. }
    unfold pulseScale, baseEmissive, red, green, blue. rewrite Ha.
    pose proof (SIN_bound (elapsedTime * 0.3)) as [S1 S2].
    pose proof (COS_bound (elapsedTime * 0.3)) as [C1 C2].
    repeat split; lra.
Qed.

(** X29: the gate on the geometry.  For a clock that is not negative the
    remainder [elapsedTime % 2] lies in [0, 2) and is the clock minus twice
    a whole number.  The geometry is replaced only when that remainder is
    below 0.1 and the mean intensity is above 0.2; the new knot then has
    radius 1, 100 by 16 segments, a tube of [0.3 + 0.15] times the mean
    intensity and, for bands of bytes and a sensitivity that is not
    negative, windings [p >= 2] and [q >= 3]. *)
Theorem X29_geometry_gate (audioData : list Z) (sensitivity elapsedTime : R)
    (g : TorusKnotGeometry) :
  0 <= elapsedTime -> bytes audioData -> 0 <= sensitivity ->
  let g' := regenerated audioData sensitivity elapsedTime g in
  (0 <= rem elapsedTime 2 < 2 /\
   exists k : Z, (0 <= k)%Z /\ elapsedTime = 2 * IZR k + rem elapsedTime 2) /\
  (g' <> g ->
   rem elapsedTime 2 < 0.1 /\ 0.2 < avgIntensity audioData sensitivity) /\
  (rem elapsedTime 2 < 0.1 -> 0.2 < avgIntensity audioData sensitivity ->
   radius g' = 1 /\
   tube g' = 0.3 + avgIntensity audioData sensitivity * 0.15 /\
   tubularSegments g' = 100%Z /\ radialSegments g' = 16%Z /\
   (2 <= p g')%Z /\ (3 <= q g')%Z).
Proof.
  intros Ht Hb Hs g'.
  destruct (rem_nonneg elapsedTime 2 Ht ltac:(lra)) as (Hrem & Hrange & Hk).
  split; [split; [exact Hrange|]|].
  { exists (Js.floor (elapsedTime / 2)). split; [exact Hk | lra]. }
  unfold g', regenerated.
  destruct (Rlt_dec (rem elapsedTime 2) 0.1) as [Hgate|Hgate];
    [destruct (Rlt_dec 0.2 (avgIntensity audioData sensitivity)) as [Ha|Ha]|].
  - split; [intros _; split; assumption|]. intros _ _.
    cbn [radius tube tubularSegments radialSegments p q].
    destruct (bandGroups_nonneg audioData sensitivity Hb Hs) as [Hlow Hhigh].
    repeat split.
    + apply Z.le_trans with (Js.round 2);
        [rewrite round_IZR; apply Z.le_refl | apply round_le; lra].
    + apply Z.le_trans with (Js.round 3);
        [rewrite round_IZR; apply Z.le_refl | apply round_le; lra].
  - split; [intros H; now contradiction H|]. intros _ H. lra.
  - split; [intros H; now contradiction H|]. intros H. lra.
Qed.

Lemma X29_geometry_gate_witness :
  let audioData := [255; 255; 255; 255; 255; 255; 255; 255]%Z in
  let g := {| radius := 1; tube := 0.3; tubularSegments := 100;
              radialSegments := 16; p := 2; q := 3 |} in
  let g' := regenerated audioData 1 4 g in
  (0 <= rem 4 2 < 2 /\
   exists k : Z, (0 <= k)%Z /\ 4 = 2 * IZR k + rem 4 2) /\
  (g' <> g -> rem 4 2 < 0.1 /\ 0.2 < avgIntensity audioData 1) /\
  (rem 4 2 < 0.1 -> 0.2 < avgIntensity audioData 1 ->
   radius g' = 1 /\
   tube g' = 0.3 + avgIntensity audioData 1 * 0.15 /\
   tubularSegments g' = 100%Z /\ radialSegments g' = 16%Z /\
   (2 <= p g')%Z /\ (3 <= q g')%Z).
Proof.
  intros audioData g.
  apply (X29_geometry_gate audioData 1 4 g).
  - lra.
  - apply bytesb_bytes. reflexivity.
  - lra.
Defined.

(** X30: the smoothing of the rotation.  Each frame moves the rotation step
    of an axis towards a target and closes 5 percent of the gap.  On the x
    and y axes the target is the signed rate of the frame; on the z axis the
    term of the frame is added without the factor 0.05, so its target is
    twenty times the signed rate. *)
Theorem X30_rotation_smoothing (audioData : list Z) (sensitivity : R)
    (last : Vector3) :
  let next := smoothedRotation audioData sensitivity last in
  let tx := (rotationBase + rotationAudioFactor audioData sensitivity)
            * xRotationDir audioData sensitivity in
  let ty := (rotationBase + rotationAudioFactor audioData sensitivity * 1.1)
            * yRotationDir audioData sensitivity in
  let tz := 20 * ((rotationBase + highFreqIntensity audioData sensitivity * 0.02)
                  * zRotationDir audioData sensitivity) in
  x next - tx = 0.95 * (x last - tx) /\
  y next - ty = 0.95 * (y last - ty) /\
  z next - tz = 0.95 * (z last - tz).
Proof.
  intros next tx ty tz. unfold next, tx, ty, tz, smoothedRotation.
  cbn [x y z]. clear next tx ty tz.
  set (c := rotationAudioFactor audioData sensitivity).
  set (h := highFreqIntensity audioData sensitivity).
  unfold rotationBase. split; [|split]; lra.
Qed.

End MeshClaims.
